(** * area_monitor.py: the area registry mirrored into a SQLite table

    A shallow embedding of [src/area_monitor.py] and the properties of its
    reconciliation pipeline.

    Python values are the ones [json.load] builds (floating point numbers
    are left out: no area field holds one).  A Python [str] is a sequence of
    code points, so that the escaping done by [json.dumps] can be followed
    character by character.  The SQLite table [area] is a finite map from
    the primary key to the other eight columns, next to the rows whose key
    is NULL (SQLite lets NULL into a TEXT PRIMARY KEY, any number of
    times). *)

From Stdlib Require Import ZArith NArith Lia String Ascii.
From stdpp Require Import base option list gmap.

Set Warnings "-register-all".

Local Open Scope Z_scope.
Local Open Scope N_scope.
Local Open Scope nat_scope.

(** ** Python strings *)

(** A [str] is a list of Unicode code points. *)
Abbreviation str := (list N).

(** Literals: the code points of an ASCII literal. *)
Definition py (s : string) : str :=
  N_of_ascii <$> list_ascii_of_string s.
Arguments py : simpl never.

(** What the UTF-8 codec refuses: the surrogate range, and what lies past
    the last code point. *)
Definition is_high_surrogate (c : N) : bool :=
  ((0xD800 <=? c) && (c <=? 0xDBFF))%N.
Definition is_low_surrogate (c : N) : bool :=
  ((0xDC00 <=? c) && (c <=? 0xDFFF))%N.
Definition is_scalar (c : N) : bool :=
  ((c <? 0xD800) || ((0xDFFF <? c) && (c <? 0x110000)))%N.

(** [s.encode('utf-8')] succeeds. *)
Definition utf8_ok (s : str) : bool := forallb is_scalar s.

(** ** Values built by [json.load] *)

Inductive json : Type :=
| JNull
| JBool (b : bool)
| JInt (z : Z)
| JStr (s : str)
| JArr (l : list json)
| JObj (kvs : list (str * json)).

(** Exceptions the program can meet. *)
Inductive exn : Type :=
| KeyError (k : str)
| TypeError
| AttributeError
| OverflowError
| UnicodeEncodeError
| InterfaceError     (* sqlite3: a parameter of a type it cannot bind
                        (ProgrammingError since Python 3.11) *)
| IntegrityError     (* sqlite3: NOT NULL constraint failed *)
| OperationalError   (* sqlite3: the engine could not do the call *)
| OSError            (* open / stat failed *)
| JSONDecodeError
| QueueError.

(** A computation that returns or raises. *)
Inductive res (A : Type) : Type :=
| Ok (a : A)
| Raise (e : exn).
Arguments Ok {A} a.
Arguments Raise {A} e.

#[export] Instance res_ret : MRet res := fun A a => Ok a.
#[export] Instance res_bind : MBind res := fun A B f m =>
  match m with Ok a => f a | Raise e => Raise e end.
#[export] Instance res_fmap : FMap res := fun A B f m =>
  match m with Ok a => Ok (f a) | Raise e => Raise e end.

(** [for x in l: f(x)], collecting the results; the first raise stops it. *)
Fixpoint traverse {A B} (f : A -> res B) (l : list A) : res (list B) :=
  match l with
  | [] => Ok []
  | x :: l' => y ← f x; ys ← traverse f l'; Ok (y :: ys)
  end.

(** *** Dictionaries *)

(** A [dict] keeps its items in insertion order; its keys are distinct. *)
Fixpoint dict_lookup (kvs : list (str * json)) (k : str) : option json :=
  match kvs with
  | [] => None
  | (k', v) :: kvs' => if decide (k' = k) then Some v else dict_lookup kvs' k
  end.

(** [v[k]] with a [str] key. *)
Definition getitem (v : json) (k : str) : res json :=
  match v with
  | JObj kvs =>
      match dict_lookup kvs k with
      | Some x => Ok x
      | None => Raise (KeyError k)
      end
  | _ => Raise TypeError
  end.

(** [v.get(k, default)]: only a dict has the method. *)
Definition get (v : json) (k : str) (default : json) : res json :=
  match v with
  | JObj kvs =>
      match dict_lookup kvs k with
      | Some x => Ok x
      | None => Ok default
      end
  | _ => Raise AttributeError
  end.

(** [for x in v]: a list gives its items, a dict its keys, a str its
    characters; nothing else is iterable. *)
Definition iter (v : json) : res (list json) :=
  match v with
  | JArr l => Ok l
  | JObj kvs => Ok ((fun kv => JStr kv.1) <$> kvs)
  | JStr s => Ok ((fun c => JStr [c]) <$> s)
  | _ => Raise TypeError
  end.

(** Lists and dicts cannot be members of a set. *)
Definition hashable (v : json) : bool :=
  match v with
  | JArr _ | JObj _ => false
  | _ => true
  end.

(** Induction on a value, through the lists it holds. *)
Section json_induction.
Variable P : json -> Prop.
Hypothesis Pnull : P JNull.
Hypothesis Pbool : ∀ b, P (JBool b).
Hypothesis Pint : ∀ z, P (JInt z).
Hypothesis Pstr : ∀ s, P (JStr s).
Hypothesis Parr : ∀ l, Forall P l -> P (JArr l).
Hypothesis Pobj : ∀ kvs, Forall (fun kv => P kv.2) kvs -> P (JObj kvs).

Fixpoint json_nested_ind (v : json) : P v :=
  match v with
  | JNull => Pnull
  | JBool b => Pbool b
  | JInt z => Pint z
  | JStr s => Pstr s
  | JArr l =>
      Parr l ((fix go (l : list json) : Forall P l :=
                 match l with
                 | [] => Forall_nil_2 P
                 | x :: l' => Forall_cons_2 P x l' (json_nested_ind x) (go l')
                 end) l)
  | JObj kvs =>
      Pobj kvs ((fix go (l : list (str * json)) : Forall (fun kv => P kv.2) l :=
                   match l with
                   | [] => Forall_nil_2 _
                   | kv :: l' => Forall_cons_2 _ kv l' (json_nested_ind kv.2) (go l')
                   end) kvs)
  end.
End json_induction.

(** ** [json.dumps] *)

(** Decimal digits of an integer. *)
Fixpoint uint_digits (u : Decimal.uint) : str :=
  match u with
  | Decimal.Nil => []
  | Decimal.D0 u => 48%N :: uint_digits u
  | Decimal.D1 u => 49%N :: uint_digits u
  | Decimal.D2 u => 50%N :: uint_digits u
  | Decimal.D3 u => 51%N :: uint_digits u
  | Decimal.D4 u => 52%N :: uint_digits u
  | Decimal.D5 u => 53%N :: uint_digits u
  | Decimal.D6 u => 54%N :: uint_digits u
  | Decimal.D7 u => 55%N :: uint_digits u
  | Decimal.D8 u => 56%N :: uint_digits u
  | Decimal.D9 u => 57%N :: uint_digits u
  end.

Definition decimal (z : Z) : str :=
  match Z.to_int z with
  | Decimal.Pos u => uint_digits u
  | Decimal.Neg u => 45%N :: uint_digits u
  end.

(** One lower-case hexadecimal digit, for a value below 16. *)
Definition hex_digit (d : N) : N :=
  (if d <? 10 then 48 + d else 87 + d)%N.

(** [format(n, '04x')] for n < 0x10000. *)
Definition hex4 (n : N) : str :=
  [hex_digit (n / 4096 mod 16); hex_digit (n / 256 mod 16);
   hex_digit (n / 16 mod 16); hex_digit (n mod 16)]%N.

(** [\uXXXX] *)
Definition u_escape (n : N) : str := 92%N :: 117%N :: hex4 n.

(** The replacement of one character (ESCAPE_ASCII with ESCAPE_DCT of
    json.encoder, [ensure_ascii=True]). *)
Definition escape_char (c : N) : str :=
  (if c =? 34 then [92; 34]                 (* the quote *)
   else if c =? 92 then [92; 92]            (* the backslash *)
   else if c =? 10 then [92; 110]           (* \n *)
   else if c =? 13 then [92; 114]           (* \r *)
   else if c =? 9 then [92; 116]            (* \t *)
   else if c =? 8 then [92; 98]             (* \b *)
   else if c =? 12 then [92; 102]           (* \f *)
   else if (32 <=? c) && (c <=? 126) then [c]
   else if c <? 0x10000 then u_escape c
   else
     let n := c - 0x10000 in
     u_escape (N.lor 0xD800 (N.land (N.shiftr n 10) 0x3FF))
       ++ u_escape (N.lor 0xDC00 (N.land n 0x3FF)))%N.

(** [py_encode_basestring_ascii] *)
Definition dumps_str (s : str) : str :=
  34%N :: (s ≫= escape_char) ++ [34%N].

(** [sep.join(items)] *)
Fixpoint join (sep : str) (items : list str) : str :=
  match items with
  | [] => []
  | [x] => x
  | x :: rest => x ++ sep ++ join sep rest
  end.

(** [json.dumps(v)] with the default separators [', '] and [': ']. *)
Fixpoint dumps (v : json) : str :=
  match v with
  | JNull => py "null"
  | JBool true => py "true"
  | JBool false => py "false"
  | JInt z => decimal z
  | JStr s => dumps_str s
  | JArr l => 91%N :: join (py ", ") (map dumps l) ++ [93%N]
  | JObj kvs =>
      123%N :: join (py ", ")
                 (map (fun kv => dumps_str (fst kv) ++ py ": " ++ dumps (snd kv)) kvs)
        ++ [125%N]
  end.


(** The text is plain ASCII. *)
Definition ascii_only (s : str) : bool := forallb (fun c => (c <? 128)%N) s.

(** ** The SQLite side *)

(** What [sqlite3] hands to the engine for a parameter. *)
Inductive sqlval : Type :=
| SNull
| SInteger (z : Z)
| SText (s : str).

(** Binding one parameter of [cursor.execute]: [None] is NULL, an [int]
    (a [bool] is one) must fit 64 bits, a [str] goes through UTF-8, and
    there is no adapter for lists and dicts. *)
Definition bind_param (v : json) : res sqlval :=
  match v with
  | JNull => Ok SNull
  | JBool b => Ok (SInteger (if b then 1 else 0))
  | JInt z =>
      if ((- 2 ^ 63 <=? z) && (z <? 2 ^ 63))%Z then Ok (SInteger z)
      else Raise OverflowError
  | JStr s => if utf8_ok s then Ok (SText s) else Raise UnicodeEncodeError
  | JArr _ | JObj _ => Raise InterfaceError
  end.

(** All nine columns are declared TEXT: a cell holds NULL or a text, an
    integer is stored as its decimal text. *)
Definition text_affinity (v : sqlval) : option str :=
  match v with
  | SNull => None
  | SInteger z => Some (decimal z)
  | SText s => Some s
  end.

(** The columns of a row other than the key. *)
Record row : Type := Row {
  name : str;                     (* TEXT NOT NULL *)
  floor_id : option str;
  icon : option str;
  picture : option str;
  created_at : option str;
  modified_at : option str;
  aliases : option str;           (* JSON text *)
  labels : option str             (* JSON text *)
}.

(** The table [area]: the rows with a key, and the rows whose key is
    NULL. *)
Record table : Type := Table {
  keyed : gmap str row;
  null_rows : list row
}.

Definition empty_table : table := Table ∅ [].

(** [SELECT id FROM area], as the set built on line 48 ([None] for a NULL
    key). *)
Definition select_ids (t : table) : list (option str) :=
  (Some <$> (map_to_list (keyed t)).*1)
    ++ (if null_rows t is [] then [] else [None]).

(** [DELETE FROM area WHERE id = ?]: [id = NULL] holds for no row. *)
Definition delete_where_id (x : option str) (t : table) : table :=
  match x with
  | Some i => Table (delete i (keyed t)) (null_rows t)
  | None => t
  end.

(** The nine bound parameters of the INSERT. *)
Record params : Type := Params {
  p_id : sqlval; p_name : sqlval; p_floor_id : sqlval; p_icon : sqlval;
  p_picture : sqlval; p_created_at : sqlval; p_modified_at : sqlval;
  p_aliases : sqlval; p_labels : sqlval
}.

(** [INSERT OR REPLACE INTO area ... VALUES (?, ..., ?)]: a NULL name
    breaks NOT NULL (no default, so REPLACE falls back to ABORT); a row
    with the same key is replaced; a NULL key conflicts with nothing. *)
Definition insert_or_replace (p : params) (t : table) : res table :=
  match text_affinity (p_name p) with
  | None => Raise IntegrityError
  | Some n =>
      let r := {| name := n; floor_id := text_affinity (p_floor_id p);
                  icon := text_affinity (p_icon p);
                  picture := text_affinity (p_picture p);
                  created_at := text_affinity (p_created_at p);
                  modified_at := text_affinity (p_modified_at p);
                  aliases := text_affinity (p_aliases p);
                  labels := text_affinity (p_labels p) |} in
      match text_affinity (p_id p) with
      | Some i => Ok (Table (<[i := r]> (keyed t)) (null_rows t))
      | None => Ok (Table (keyed t) (null_rows t ++ [r]))
      end
  end.

(** *** A connection *)

(** The calls made to the SQLite library, and whether each one worked. *)
Inductive call : Type :=
| CConnect | CSelect | CDelete | CInsert | CCommit | CClose.

(** What the program prints. *)
Inductive line : Type :=
| Deleted (area_id : option str)        (* "Deleted area with ID: ..." *)
| Updated (area_name area_id : json)    (* "Updated area: ... (ID: ...)" *)
| DatabaseError (e : exn)               (* "Database error: ..." *)
| PollError (e : exn)                   (* "Error polling file: ..." *)
| Detected                              (* "Detected changes in ..." *)
| Completed.                            (* "Database update completed ..." *)

(** The database file holds [committed]; a connection works on [working],
    the state inside its transaction (sqlite3 opens one before the first
    DELETE or INSERT), which only [commit] writes to the file.  A
    connection dropped before [commit] leaves the file as it was. *)
Record conn : Type := Conn {
  committed : table;
  working : table;
  calls : list (call * bool);
  out : list line
}.

(** State and exceptions. *)
Definition M (A : Type) : Type := conn -> res A * conn.

#[export] Instance M_ret : MRet M := fun A a c => (Ok a, c).
#[export] Instance M_bind : MBind M := fun A B f m c =>
  match m c with
  | (Ok a, c') => f a c'
  | (Raise e, c') => (Raise e, c')
  end.

Definition lift {A} (r : res A) : M A := fun c => (r, c).

Definition print (l : line) : M unit := fun c =>
  (Ok tt, Conn (committed c) (working c) (calls c) (out c ++ [l])).

(** [try: body except Exception as e: handler(e)] *)
Definition try_except {A} (body : M A) (handler : exn -> M A) : M A := fun c =>
  match body c with
  | (Ok a, c') => (Ok a, c')
  | (Raise e, c') => handler e c'
  end.

(** [for x in l: body(x)] *)
Fixpoint foreach {A} (l : list A) (body : A -> M unit) : M unit :=
  match l with
  | [] => mret tt
  | x :: l' => body x ≫= fun _ => foreach l' body
  end.

Section Reconciler.

(** The environment: whether the n-th call to the SQLite library of a run
    fails (disk, lock, ...), raising [OperationalError]. *)
Variable fails : nat -> bool.

(** One call on the transaction state. *)
Definition sql {A} (k : call) (f : table -> res (A * table)) : M A := fun c =>
  if fails (length (calls c)) then
    (Raise OperationalError,
     Conn (committed c) (working c) (calls c ++ [(k, false)]) (out c))
  else
    match f (working c) with
    | Ok (a, t) => (Ok a, Conn (committed c) t (calls c ++ [(k, true)]) (out c))
    | Raise e =>
        (Raise e, Conn (committed c) (working c) (calls c ++ [(k, false)]) (out c))
    end.

Definition connect : M unit :=
  sql CConnect (fun t => Ok (tt, t)).

Definition commit : M unit := fun c =>
  if fails (length (calls c)) then
    (Raise OperationalError,
     Conn (committed c) (working c) (calls c ++ [(CCommit, false)]) (out c))
  else (Ok tt, Conn (working c) (working c) (calls c ++ [(CCommit, true)]) (out c)).

Definition close : M unit :=
  sql CClose (fun t => Ok (tt, t)).

(** [x in current_ids] for an [x] read from the table: [None] equals only
    [None] and a [str] only the same [str]. *)
Definition id_in (x : option str) (current_ids : list json) : bool :=
  existsb (fun v =>
    match x, v with
    | None, JNull => true
    | Some s, JStr s' => bool_decide (s = s')
    | _, _ => false
    end) current_ids.

(** Lines 59-78: one turn of the upsert loop. *)
Definition upsert (area : json) : M unit :=
  aliases ← lift (dumps <$> get area (py "aliases") (JArr []));
  labels ← lift (dumps <$> get area (py "labels") (JArr []));
  p ← lift (
    a_id ← getitem area (py "id");
    a_name ← getitem area (py "name");
    a_floor_id ← get area (py "floor_id") JNull;
    a_icon ← get area (py "icon") JNull;
    a_picture ← get area (py "picture") JNull;
    a_created_at ← get area (py "created_at") JNull;
    a_modified_at ← get area (py "modified_at") JNull;
    b_id ← bind_param a_id;
    b_name ← bind_param a_name;
    b_floor_id ← bind_param a_floor_id;
    b_icon ← bind_param a_icon;
    b_picture ← bind_param a_picture;
    b_created_at ← bind_param a_created_at;
    b_modified_at ← bind_param a_modified_at;
    b_aliases ← bind_param (JStr aliases);
    b_labels ← bind_param (JStr labels);
    Ok (Params b_id b_name b_floor_id b_icon b_picture b_created_at
          b_modified_at b_aliases b_labels, a_name, a_id));
  sql CInsert (fun t => t' ← insert_or_replace p.1.1 t; Ok (tt, t'));;
  (* cursor.rowcount is 1 after the INSERT *)
  print (Updated p.1.2 p.2).

(** Lines 43-81: the body of the [try]. *)
Definition reconcile (area_data : json) : M unit :=
  connect;;
  existing_ids ← sql CSelect (fun t => Ok (select_ids t, t));
  areas ← lift (iter area_data);
  current_ids ← lift (traverse (fun area =>
                   v ← getitem area (py "id");
                   if hashable v then Ok v else Raise TypeError) areas);
  foreach (filter (fun x => id_in x current_ids = false) existing_ids)
    (fun area_id =>
       sql CDelete (fun t => Ok (tt, delete_where_id area_id t));;
       print (Deleted area_id));;
  foreach areas upsert;;
  commit;;
  close.

(** What a call gives back to its caller. *)
Inductive outcome : Type :=
| Returned (v : json)
| Raised (e : exn).

(** The result of one run: the outcome, the database file, the calls made
    and the lines printed. *)
Record run : Type := Run {
  result : outcome;
  db : table;
  made : list (call * bool);
  printed : list line
}.

(** [update_database_with_new_areas(area_data)] on the database file [t]:
    [try: ... except Exception as e: print(f"Database error: {e}")].  The
    function has no [return]: a call that ends normally gives [None]. *)
Definition update_database_with_new_areas (area_data : json) (t : table) : run :=
  let '(r, c) :=
    try_except (reconcile area_data) (fun e => print (DatabaseError e))
      (Conn t t [] []) in
  Run (match r with Ok _ => Returned JNull | Raise e => Raised e end)
      (committed c) (calls c) (out c).

End Reconciler.

(** No call fails. *)
Definition healthy : nat -> bool := fun _ => false.
(** Only the n-th call fails. *)
Definition fails_at (n : nat) : nat -> bool := fun k => bool_decide (k = n).

(** ** Records and snapshots (the data model) *)

Definition field (r : json) (k : str) : option json :=
  match r with
  | JObj kvs => dict_lookup kvs k
  | _ => None
  end.

(** A string field; an absent key and [null] are both "no value". *)
Definition text_field (r : json) (k : str) : option str :=
  match field r k with
  | Some (JStr s) => Some s
  | _ => None
  end.

Definition record_id (r : json) : option str := text_field r (py "id").

Definition is_text (o : option json) : bool :=
  match o with
  | Some (JStr s) => utf8_ok s
  | _ => false
  end.

Definition is_optional_text (o : option json) : bool :=
  match o with
  | None | Some JNull => true
  | Some (JStr s) => utf8_ok s
  | _ => false
  end.

Definition is_JStr (v : json) : bool :=
  match v with JStr _ => true | _ => false end.

Definition is_optional_str_list (o : option json) : bool :=
  match o with
  | None => true
  | Some (JArr l) => forallb is_JStr l
  | _ => false
  end.

(** A Record: a dict with a text [id], a text [name], optional texts and
    optional lists of strings. *)
Definition is_record (r : json) : bool :=
  match r with
  | JObj _ =>
      is_text (field r (py "id")) && is_text (field r (py "name"))
      && is_optional_text (field r (py "floor_id"))
      && is_optional_text (field r (py "icon"))
      && is_optional_text (field r (py "picture"))
      && is_optional_text (field r (py "created_at"))
      && is_optional_text (field r (py "modified_at"))
      && is_optional_str_list (field r (py "aliases"))
      && is_optional_str_list (field r (py "labels"))
  | _ => false
  end.

(** A Snapshot: the records of the registry, in file order. *)
Definition is_snapshot (s : list json) : bool := forallb is_record s.

(** The ids of a snapshot. *)
Definition snapshot_ids (s : list json) : gset str :=
  list_to_set (omap record_id s).

(** The StoredRow of a Record: its fields, the two lists as JSON text. *)
Definition stored_row (r : json) : row :=
  {| name := default [] (text_field r (py "name"));
     floor_id := text_field r (py "floor_id");
     icon := text_field r (py "icon");
     picture := text_field r (py "picture");
     created_at := text_field r (py "created_at");
     modified_at := text_field r (py "modified_at");
     aliases := Some (dumps (default (JArr []) (field r (py "aliases"))));
     labels := Some (dumps (default (JArr []) (field r (py "labels")))) |}.

(** The last record of a snapshot that carries the id [i]. *)
Definition last_record (s : list json) (i : str) : option json :=
  head (filter (fun r => record_id r = Some i) (reverse s)).

(** Writing the StoredRow of a record under its id. *)
Definition put_record (m : gmap str row) (r : json) : gmap str row :=
  match record_id r with
  | Some i => <[i := stored_row r]> m
  | None => m
  end.

(** The table that mirrors a snapshot: one row per id, no other row. *)
Definition mirror (s : list json) : table :=
  Table (foldl put_record ∅ s) [].

(** A run that printed no "Database error". *)
Definition clean (r : run) : Prop := ∀ e, DatabaseError e ∉ printed r.

(** The line printed for a record that was written. *)
Definition updated_line (r : json) : line :=
  Updated (JStr (default [] (text_field r (py "name"))))
          (JStr (default [] (record_id r))).

(** The table after a snapshot was applied to [t]: the keyed rows mirror
    the snapshot, the rows without a key stay. *)
Definition mirrored (s : list json) (t : table) : table :=
  Table (keyed (mirror s)) (null_rows t).

(** [Reconciler.apply] on the database file, when no call fails. *)
Definition apply_to (t : table) (s : list json) : table :=
  db (update_database_with_new_areas healthy (JArr s) t).

(** *** What the steps of a run keep *)

(** No call of the list failed. *)
Definition no_failed (cs : list (call * bool)) : Prop := ∀ k, (k, false) ∉ cs.

Definition is_Ok {A} (r : res A) : Prop :=
  match r with Ok _ => True | Raise _ => False end.

(** [m] leaves the database file alone. *)
Definition keeps {A} (m : M A) : Prop :=
  ∀ c, committed (m c).2 = committed c.

(** [m] returns normally only if every call it made worked. *)
Definition honest {A} (m : M A) : Prop :=
  ∀ c, no_failed (calls c) -> is_Ok (m c).1 -> no_failed (calls (m c).2).

(** A failed call other than the final [close] means the database file is
    as before. *)
Definition atomic {A} (m : M A) : Prop :=
  ∀ c, no_failed (calls c) ->
    ∀ k, (k, false) ∈ calls (m c).2 -> k ≠ CClose ->
      committed (m c).2 = committed c.

(** [h] does what [m] does whenever [m] returns normally. *)
Definition agrees {A} (m h : M A) : Prop :=
  ∀ c, is_Ok (m c).1 -> h c = m c.

(** [m] leaves the database file as it was or as [h] leaves it. *)
Definition whole {A} (m h : M A) : Prop :=
  ∀ c, committed (m c).2 = committed c ∨ committed (m c).2 = committed (h c).2.

(** The number of items of a list that pass a test. *)
Definition count {A} (f : A -> bool) (l : list A) : nat :=
  length (List.filter f l).

Definition is_deleted_line (l : line) : bool :=
  match l with Deleted _ => true | _ => false end.
Definition is_updated_line (l : line) : bool :=
  match l with Updated _ _ => true | _ => false end.
Definition delete_worked (x : call * bool) : bool :=
  match x with (CDelete, true) => true | _ => false end.
Definition insert_worked (x : call * bool) : bool :=
  match x with (CInsert, true) => true | _ => false end.

(** One line "Deleted ..." per DELETE that worked, one line "Updated ..."
    per INSERT that worked. *)
Definition tallies (c : conn) : Prop :=
  count is_deleted_line (out c) = count delete_worked (calls c)
  ∧ count is_updated_line (out c) = count insert_worked (calls c).

Definition tallying {A} (m : M A) : Prop :=
  ∀ c, tallies c -> tallies (m c).2.

(** ** Reading the registry file *)

(** The file as [open] and [json.load] find it. *)
Inductive file : Type :=
| Unreadable                (* open raises *)
| Garbled                   (* json.load raises: not a JSON text *)
| Document (data : json).

(** Lines 97-99, and again lines 142-144:
    [data = json.load(file); areas = data.get('data', {}).get('areas', [])] *)
Definition read_areas (f : file) : res json :=
  match f with
  | Unreadable => Raise OSError
  | Garbled => Raise JSONDecodeError
  | Document data =>
      d ← get data (py "data") (JObj []);
      get d (py "areas") (JArr [])
  end.

Definition is_object (v : json) : bool :=
  match v with JObj _ => true | _ => false end.

(** The document has the path [data], [areas] down to a list of record
    objects. *)
Definition provides_areas (data : json) : bool :=
  match field data (py "data") with
  | Some d =>
      match field d (py "areas") with
      | Some (JArr l) => forallb is_object l
      | _ => false
      end
  | None => false
  end.

(** ** [initialize_database] (lines 16-39) *)

(** Its calls to the SQLite library, and its two lines. *)
Inductive init_call : Type := IConnect | ICreate | ICommit | IClose.

Inductive init_line : Type :=
| Initialized             (* "Database table initialized successfully" *)
| InitError (e : exn).    (* "Error initializing database: ..." *)

(** What a call does to the database file, which holds the table [area]
    or does not: [CREATE TABLE IF NOT EXISTS] leaves a table that is
    there as it is, and makes an empty one otherwise.  sqlite3 opens no
    transaction for it: the table is in the file when the call
    returns. *)
Definition init_effect (k : init_call) (file : option table) : option table :=
  match k with
  | ICreate => Some (default empty_table file)
  | _ => file
  end.

(** The calls one after the other; the n-th call of the run fails when
    [fails n], raising [OperationalError]. *)
Fixpoint init_calls (fails : nat -> bool) (n : nat) (ks : list init_call)
    (file : option table) : res unit * option table * list (init_call * bool) :=
  match ks with
  | [] => (Ok tt, file, [])
  | k :: ks' =>
      if fails n then (Raise OperationalError, file, [(k, false)])
      else
        let '(r, f, cs) := init_calls fails (S n) ks' (init_effect k file) in
        (r, f, (k, true) :: cs)
  end.

Record init_run : Type := InitRun {
  init_result : outcome;
  init_file : option table;
  init_made : list (init_call * bool);
  init_printed : list init_line
}.

(** [initialize_database()] on the database file: connect, CREATE,
    commit, close, and the line of success; the [except] prints the
    error and raises it again. *)
Definition initialize_database (fails : nat -> bool) (file : option table)
    : init_run :=
  match init_calls fails 0 [IConnect; ICreate; ICommit; IClose] file with
  | (Ok _, f, cs) => InitRun (Returned JNull) f cs [Initialized]
  | (Raise e, f, cs) => InitRun (Raised e) f cs [InitError e]
  end.

Definition init_call_failed (x : init_call * bool) : bool := negb x.2.
Definition create_worked (x : init_call * bool) : bool :=
  match x with (ICreate, true) => true | _ => false end.

(** ** The polling loop and the threads *)

Section Monitor.

(** The modification time [os.path.getmtime] returns; the program only
    compares two of them. *)
Context {T : Type} `{EqDecision T}.

(** What one step of a thread finds around it: the registry file and
    whether the calls it makes will work. *)
Record env : Type := Env {
  file_exists : bool;            (* os.path.exists *)
  getmtime : res T;              (* os.path.getmtime *)
  content : file;                (* open + json.load *)
  put_ok : bool;                 (* update_queue.put *)
  db_fails : nat -> bool         (* the calls to SQLite *)
}.

(** [last_modified_time is None or current_modified_time != last_modified_time] *)
Definition modified (last_modified_time : option T) (current_modified_time : T) : bool :=
  match last_modified_time with
  | None => true
  | Some l => negb (bool_decide (current_modified_time = l))
  end.

(** Lines 90-108: one turn of the loop of [poll_file_changes], on the
    variable [last_modified_time] and the queue; the third component is
    what it prints. *)
Definition poll_file_changes (e : env) (last_modified_time : option T)
    (update_queue : list json) : option T * list json * list line :=
  match getmtime e with
  | Raise x => (last_modified_time, update_queue, [PollError x])
  | Ok current_modified_time =>
      if modified last_modified_time current_modified_time then
        match read_areas (content e) with
        | Raise x => (last_modified_time, update_queue, [Detected; PollError x])
        | Ok areas =>
            if put_ok e then
              (Some current_modified_time, update_queue ++ [areas], [Detected])
            else
              (last_modified_time, update_queue, [Detected; PollError QueueError])
        end
      else (last_modified_time, update_queue, [])
  end.

(** Lines 115-120: one turn of the loop of [database_updater], on the
    queue and the database file. *)
Definition database_updater (e : env) (update_queue : list json) (t : table)
    : list json * table * list line :=
  match update_queue with
  | [] => (update_queue, t, [])
  | areas :: rest =>
      let r := update_database_with_new_areas (db_fails e) areas t in
      (rest, db r, printed r ++ [Completed])
  end.

(** The three threads of the process. *)
Inductive thread : Type := MainThread | PollingThread | UpdaterThread.

(** What happens, in the order it happens. *)
Inductive event : Type :=
| InitDatabase          (* initialize_database() returned *)
| InitFailed            (* initialize_database() raised *)
| FileChecked           (* os.path.exists, line 127 *)
| PollingStarted        (* polling_thread.start() *)
| UpdaterStarted        (* updater_thread.start() *)
| Observed              (* a turn of the polling loop looked at the file *)
| Consumed              (* the updater applied a snapshot of the queue *)
| SyncRead              (* the initial sync read the file *)
| SyncApplied           (* the initial sync applied what it read *)
| Exited.               (* main returned or died: the daemon threads end *)

(** The process: where [main] is, the state of the two daemon threads,
    the queue, and the database file. *)
Record process : Type := Process {
  pc : nat;                           (* statements of main done so far *)
  alive : bool;
  polling : option (option T);        (* started? and its last_modified_time *)
  updating : bool;                    (* started? *)
  update_queue : list json;
  areas : json;                       (* the local variable of main *)
  database : option table;            (* the table [area], if the file has it *)
  history : list event
}.

Definition start (file : option table) : process :=
  Process 0 true None false [] JNull file [].

(** One statement of [main] (lines 122-150). *)
Definition main (e : env) (p : process) : process :=
  match pc p with
  | 0 => (* initialize_database(): what it raises leaves main *)
      let r := initialize_database (db_fails e) (database p) in
      match init_result r with
      | Returned _ =>
          Process 1 true (polling p) (updating p) (update_queue p) (areas p)
            (init_file r) (history p ++ [InitDatabase])
      | Raised _ =>
          Process 1 false (polling p) (updating p) (update_queue p) (areas p)
            (init_file r) (history p ++ [InitFailed; Exited])
      end
  | 1 => (* if not os.path.exists(...): return *)
      if file_exists e then
        Process 2 true (polling p) (updating p) (update_queue p) (areas p)
          (database p) (history p ++ [FileChecked])
      else
        Process 2 false (polling p) (updating p) (update_queue p) (areas p)
          (database p) (history p ++ [FileChecked; Exited])
  | 2 => (* polling_thread.start() *)
      Process 3 true (Some None) (updating p) (update_queue p) (areas p)
        (database p) (history p ++ [PollingStarted])
  | 3 => (* updater_thread.start() *)
      Process 4 true (polling p) true (update_queue p) (areas p)
        (database p) (history p ++ [UpdaterStarted])
  | 4 => (* the initial sync reads; only KeyboardInterrupt is caught *)
      match read_areas (content e) with
      | Ok a =>
          Process 5 true (polling p) (updating p) (update_queue p) a
            (database p) (history p ++ [SyncRead])
      | Raise _ =>
          Process 5 false (polling p) (updating p) (update_queue p) (areas p)
            (database p) (history p ++ [Exited])
      end
  | 5 => (* update_database_with_new_areas(areas); without the table the
            id read raises and nothing is written *)
      Process 6 true (polling p) (updating p) (update_queue p) (areas p)
        ((fun t => db (update_database_with_new_areas (db_fails e) (areas p) t))
           <$> database p)
        (history p ++ [SyncApplied])
  | _ => p (* while True: time.sleep(1) *)
  end.

(** The polling thread takes a turn of its loop. *)
Definition polling_step (e : env) (p : process) : process :=
  match polling p with
  | None => p
  | Some last_modified_time =>
      let '(l, q, _) := poll_file_changes e last_modified_time (update_queue p) in
      Process (pc p) true (Some l) (updating p) q (areas p) (database p)
        (history p ++ [Observed])
  end.

(** The updater thread takes a turn of its loop. *)
Definition updater_step (e : env) (p : process) : process :=
  if updating p then
    match update_queue p with
    | [] => p
    | _ :: rest =>
        match database p with
        | Some t =>
            let '(q, t', _) := database_updater e (update_queue p) t in
            Process (pc p) true (polling p) true q (areas p) (Some t')
              (history p ++ [Consumed])
        | None => (* no table: the id read raises, the snapshot is gone *)
            Process (pc p) true (polling p) true rest (areas p) None
              (history p ++ [Consumed])
        end
    end
  else p.

(** The scheduler lets one thread take a step (a statement of [main], a
    whole turn of a loop); a thread that has not been started, or a
    process that has ended, does nothing. *)
Definition step (p : process) (te : thread * env) : process :=
  if alive p then
    match te.1 with
    | MainThread => main te.2 p
    | PollingThread => polling_step te.2 p
    | UpdaterThread => updater_step te.2 p
    end
  else p.

Definition exec (schedule : list (thread * env)) (p : process) : process :=
  foldl step p schedule.

(** In a history, [a] comes before every [b]. *)
Definition precedes (a b : event) (h : list event) : Prop :=
  ∀ h1 h2, h = h1 ++ b :: h2 -> a ∈ h1.

(** The file is there with no area in it; its time cannot be read. *)
Definition bare_file : env :=
  Env true (Raise OSError) (Document (JObj [])) true healthy.

(** What holds of the process at every moment. *)
Definition startup_order (p : process) : Prop :=
  let h := history p in
  (1 ≤ pc p -> alive p = true -> InitDatabase ∈ h)
  ∧ (2 ≤ pc p -> FileChecked ∈ h)
  ∧ (3 ≤ pc p -> PollingStarted ∈ h)
  ∧ (4 ≤ pc p -> UpdaterStarted ∈ h)
  ∧ (5 ≤ pc p -> alive p = true -> SyncRead ∈ h)
  ∧ (is_Some (polling p) -> 3 ≤ pc p)
  ∧ precedes InitDatabase Observed h
  ∧ precedes FileChecked Observed h
  ∧ precedes PollingStarted Observed h
  ∧ precedes PollingStarted SyncRead h
  ∧ precedes UpdaterStarted SyncRead h
  ∧ precedes SyncRead SyncApplied h.

End Monitor.

(** ** Reading a stored list back: [json.loads] on an array of strings *)

(** The program writes the columns [aliases] and [labels] and never reads
    them; what reads them back is the decoder of the format it writes,
    [json.loads], followed here as json.decoder does it. *)

Definition hex_value (c : N) : option N :=
  (if (48 <=? c) && (c <=? 57) then Some (c - 48)
   else if (97 <=? c) && (c <=? 102) then Some (c - 87)
   else if (65 <=? c) && (c <=? 70) then Some (c - 55)
   else None)%N.

(** The four hexadecimal digits of a [\uXXXX] escape. *)
Definition take_hex4 (s : str) : option (N * str) :=
  match s with
  | a :: b :: c :: d :: rest =>
      x ← hex_value a; y ← hex_value b; z ← hex_value c; w ← hex_value d;
      Some ((x * 4096 + y * 256 + z * 16 + w)%N, rest)
  | _ => None
  end.

(** BACKSLASH of json.decoder: the one-letter escapes. *)
Definition simple_escape (e : N) : option N :=
  (if e =? 34 then Some 34
   else if e =? 92 then Some 92
   else if e =? 47 then Some 47
   else if e =? 98 then Some 8
   else if e =? 102 then Some 12
   else if e =? 110 then Some 10
   else if e =? 114 then Some 13
   else if e =? 116 then Some 9
   else None)%N.

(** What follows the escape of a high surrogate: nothing of interest
    ([Some None]), another [\uXXXX] ([Some (Some _)]), or a broken one
    ([None]). *)
Definition next_escape (s : str) : option (option (N * str)) :=
  match s with
  | b1 :: s1 =>
      if (b1 =? 92)%N then
        match s1 with
        | b2 :: s2 =>
            if (b2 =? 117)%N then
              match take_hex4 s2 with
              | Some x => Some (Some x)
              | None => None
              end
            else Some None
        | [] => Some None
        end
      else Some None
  | [] => Some None
  end.

Definition push (c : N) (r : option (str * str)) : option (str * str) :=
  match r with
  | Some (x, rest) => Some (c :: x, rest)
  | None => None
  end.

(** [scanstring] of json.decoder (strict), from the character after the
    opening quote: the string, and what follows its closing quote.  Every
    turn eats at least one character; [fuel] bounds the turns. *)
Fixpoint scan (fuel : nat) (s : str) : option (str * str) :=
  match fuel with
  | 0 => None
  | S fuel =>
      match s with
      | [] => None                                  (* unterminated *)
      | c :: rest =>
          if (c =? 34)%N then Some ([], rest)
          else if (c =? 92)%N then
            match rest with
            | [] => None
            | e :: rest1 =>
                if (e =? 117)%N then
                  match take_hex4 rest1 with
                  | None => None
                  | Some (uni, rest2) =>
                      if is_high_surrogate uni then
                        match next_escape rest2 with
                        | None => None
                        | Some None => push uni (scan fuel rest2)
                        | Some (Some (uni2, rest3)) =>
                            if is_low_surrogate uni2 then
                              push (0x10000 +
                                    N.lor (N.shiftl (uni - 0xD800) 10)
                                          (uni2 - 0xDC00))%N
                                   (scan fuel rest3)
                            else push uni (scan fuel rest2)
                        end
                      else push uni (scan fuel rest2)
                  end
                else
                  match simple_escape e with
                  | Some ch => push ch (scan fuel rest1)
                  | None => None
                  end
            end
          else if (c <? 32)%N then None             (* control character *)
          else push c (scan fuel rest)
      end
  end.

Definition scanstring (s : str) : option (str * str) := scan (length s) s.

Definition is_whitespace (c : N) : bool :=
  ((c =? 32) || (c =? 9) || (c =? 10) || (c =? 13))%N.

Fixpoint skip_whitespace (s : str) : str :=
  match s with
  | c :: rest => if is_whitespace c then skip_whitespace rest else s
  | [] => []
  end.

(** The items of an array after the first: [, "..."] until the bracket. *)
Fixpoint scan_items (fuel : nat) (s : str) : option (list str * str) :=
  match fuel with
  | 0 => None
  | S fuel =>
      match skip_whitespace s with
      | c :: rest =>
          if (c =? 34)%N then
            match scanstring rest with
            | None => None
            | Some (x, rest1) =>
                match skip_whitespace rest1 with
                | d :: rest2 =>
                    if (d =? 93)%N then Some ([x], rest2)
                    else if (d =? 44)%N then
                      match scan_items fuel rest2 with
                      | Some (xs, rest3) => Some (x :: xs, rest3)
                      | None => None
                      end
                    else None
                | [] => None
                end
            end
          else None          (* not a string *)
      | [] => None
      end
  end.

(** Modelled from the spec: the decoding of a stored list ("a reversible
    list-of-strings encoding, e.g. JSON array", re-read from the store),
    which the program itself never does.  This is [json.loads(s)] when
    [s] is the text of an array of strings; [None] when it is no JSON
    text or the text of something else. *)
Definition loads_str_list (s : str) : option (list str) :=
  match skip_whitespace s with
  | c :: rest =>
      if (c =? 91)%N then
        match skip_whitespace rest with
        | d :: rest1 =>
            if (d =? 93)%N then
              match skip_whitespace rest1 with [] => Some [] | _ => None end
            else
              match scan_items (length rest) rest with
              | Some (xs, rest2) =>
                  match skip_whitespace rest2 with [] => Some xs | _ => None end
              | None => None
              end
        | [] => None
        end
      else None
  | [] => None
  end.

(** A string that [json.dumps] then [json.loads] gives back: its code
    points exist, and no high surrogate stands right before a low one
    (the escapes of such a pair read as one character). *)
Fixpoint no_split_pair (s : str) : bool :=
  match s with
  | c :: s' =>
      match s' with
      | c' :: _ => negb (is_high_surrogate c && is_low_surrogate c')
      | [] => true
      end && no_split_pair s'
  | [] => true
  end.

Definition decodable (s : str) : bool :=
  forallb (fun c => (c <? 0x110000)%N) s && no_split_pair s.

(** How [escape_char] writes a character. *)
Inductive written (c : N) : str -> Prop :=
| written_short e :
    e ≠ 117%N -> simple_escape e = Some c -> written c [92%N; e]
| written_plain :
    c ≠ 34%N -> c ≠ 92%N -> (32 <= c)%N -> written c [c]
| written_u :
    (c < 65536)%N -> written c (u_escape c)
| written_pair hi lo :
    (hi < 65536)%N -> (lo < 65536)%N ->
    is_high_surrogate hi = true -> is_low_surrogate lo = true ->
    (0x10000 + N.lor (N.shiftl (hi - 0xD800) 10) (lo - 0xDC00))%N = c ->
    written c (u_escape hi ++ u_escape lo).

(** What [scanstring] may find after the escape of a high surrogate
    without joining the two. *)
Definition no_low_ahead (s : str) : Prop :=
  match next_escape s with
  | None => False
  | Some None => True
  | Some (Some (u, _)) => is_low_surrogate u = false
  end.

(** The first character read is a low surrogate only if the text starts
    with its escape. *)
Definition low_from_escape (s x : str) : Prop :=
  match x with
  | c :: _ => is_low_surrogate c = true -> ∃ r, next_escape s = Some (Some (c, r))
  | [] => True
  end.

(** ** Sample data *)

Definition kitchen : json :=
  JObj [(py "id", JStr (py "A")); (py "name", JStr (py "Kitchen"));
        (py "aliases", JArr []); (py "labels", JArr [JStr (py "wet")])].

Definition old_kitchen : json :=
  JObj [(py "id", JStr (py "A")); (py "name", JStr (py "Scullery"));
        (py "floor_id", JStr (py "ground")); (py "icon", JNull)].

Definition attic : json :=
  JObj [(py "id", JStr (py "B")); (py "name", JStr (py "Attic"))].

Definition garage : json :=
  JObj [(py "id", JStr (py "C")); (py "name", JStr (py "Garage"));
        (py "aliases", JArr [JStr (py "shop")]); (py "labels", JArr [])].

(** A JSON text with escapes: a lone high surrogate, a letter, and a
    pair.  (34 is the quote.) *)
Definition escaped_text : str :=
  (91 :: 32 :: 34 :: py "\ud83d\u0041\ud83d\ude00" ++ [34; 32; 93])%N.

(** A table with the rows A and B. *)
Definition store_AB : table := mirror [old_kitchen; attic].

(** A run in which the id read fails, and one in which the INSERT fails
    after the two DELETEs. *)
Definition select_fails : run :=
  update_database_with_new_areas (fails_at 1) (JArr [kitchen]) store_AB.
Definition insert_fails : run :=
  update_database_with_new_areas (fails_at 4) (JArr [garage]) store_AB.

(** The registry file with two areas, and every call working. *)
Definition registry_file : env (T:=Z) :=
  Env true (Ok 1%Z)
    (Document (JObj [(py "version", JInt 1);
                     (py "data", JObj [(py "areas", JArr [kitchen; garage])])]))
    true healthy.

(** The file was touched and is not JSON at the moment. *)
Definition garbled_file : env (T:=Z) :=
  Env true (Ok 2%Z) Garbled true healthy.

(** [main] up to the start of the two threads, then a turn of the polling
    loop and a turn of the updater. *)
Definition early_poll : process (T:=Z) :=
  exec [(MainThread, registry_file); (MainThread, registry_file);
        (MainThread, registry_file); (MainThread, registry_file);
        (PollingThread, registry_file); (UpdaterThread, registry_file)]
    (start (Some store_AB)).

(** The same, and [main] goes on through the initial sync. *)
Definition full_startup : process (T:=Z) :=
  exec [(MainThread, registry_file); (MainThread, registry_file);
        (MainThread, registry_file); (MainThread, registry_file);
        (PollingThread, registry_file); (UpdaterThread, registry_file);
        (MainThread, registry_file); (MainThread, registry_file)]
    (start (Some store_AB)).

(** ** More of the program *)

(** *** What a turn of the upsert loop writes *)

(** The cell a parameter leaves in a TEXT column, if it can be bound. *)
Definition cell (v : json) : option (option str) :=
  match bind_param v with
  | Ok b => Some (text_affinity b)
  | Raise _ => None
  end.

(** The key and the row that the INSERT of line 64 writes for [area],
    when every step of the turn (lines 59-78) works: [id] and [name] are
    there, the nine parameters can be bound, the name is not NULL. *)
Definition written_row (area : json) : option (option str * row) :=
  match area with
  | JObj kvs =>
      a_id ← dict_lookup kvs (py "id");
      a_name ← dict_lookup kvs (py "name");
      i ← cell a_id;
      n ← cell a_name;
      f ← cell (default JNull (dict_lookup kvs (py "floor_id")));
      ic ← cell (default JNull (dict_lookup kvs (py "icon")));
      p ← cell (default JNull (dict_lookup kvs (py "picture")));
      c ← cell (default JNull (dict_lookup kvs (py "created_at")));
      m ← cell (default JNull (dict_lookup kvs (py "modified_at")));
      n' ← n;
      Some (i, Row n' f ic p c m
                 (Some (dumps (default (JArr []) (dict_lookup kvs (py "aliases")))))
                 (Some (dumps (default (JArr []) (dict_lookup kvs (py "labels"))))))
  | _ => None
  end.

(** The turn of the loop works on [area]. *)
Definition accepted (area : json) : bool :=
  match written_row area with Some _ => true | None => false end.

(** The table after the INSERT; an [area] that is refused writes
    nothing. *)
Definition write_row (t : table) (area : json) : table :=
  match written_row area with
  | Some (Some i, w) => Table (<[i := w]> (keyed t)) (null_rows t)
  | Some (None, w) => Table (keyed t) (null_rows t ++ [w])
  | None => t
  end.

(** The rows written for a list, on an empty table. *)
Definition rows_written (areas : list json) : table :=
  foldl write_row empty_table areas.

(** The line printed after the INSERT (line 78). *)
Definition written_line (area : json) : line :=
  Updated (default JNull (field area (py "name")))
          (default JNull (field area (py "id"))).

(** The ids the run finds in the table and not among the id fields of
    [areas] (line 55). *)
Definition stale_ids (areas : list json) (t : table) : list (option str) :=
  filter (fun x => id_in x (omap (fun a => field a (py "id")) areas) = false)
    (select_ids t).

Definition is_array (v : json) : bool :=
  match v with JArr _ => true | _ => false end.

(** *** More of what the steps of a run keep *)

(** At most one call failed, and it is the last one made. *)
Definition failed_last (cs : list (call * bool)) : Prop :=
  no_failed cs ∨ ∃ cs' k, cs = cs' ++ [(k, false)] ∧ no_failed cs'.

(** [m] makes no call after one that failed. *)
Definition halting {A} (m : M A) : Prop :=
  ∀ c, no_failed (calls c) ->
    match (m c).1 with
    | Ok _ => no_failed (calls (m c).2)
    | Raise _ => failed_last (calls (m c).2)
    end.

Definition is_error_line (l : line) : bool :=
  match l with DatabaseError _ => true | _ => false end.

(** The run printed "Database error: ...". *)
Definition reported (r : run) : bool := existsb is_error_line (printed r).

(** A [close] failed. *)
Definition close_failed (cs : list (call * bool)) : bool :=
  existsb (fun x => match x with (CClose, false) => true | _ => false end) cs.

(** [m] prints no "Database error". *)
Definition quiet {A} (m : M A) : Prop :=
  ∀ c, existsb is_error_line (out c) = false ->
       existsb is_error_line (out (m c).2) = false.

(** When [m] raises and no [close] failed, the database file is as
    before. *)
Definition rolls_back {A} (m : M A) : Prop :=
  ∀ c, ¬ is_Ok (m c).1 -> close_failed (calls (m c).2) = false ->
    committed (m c).2 = committed c.

(** [m] removes no row whose key is NULL, neither from the transaction
    nor from the file. *)
Definition hoards {A} (m : M A) : Prop :=
  ∀ l c, l `prefix_of` null_rows (committed c) ->
         l `prefix_of` null_rows (working c) ->
    l `prefix_of` null_rows (committed (m c).2)
    ∧ l `prefix_of` null_rows (working (m c).2).

(** *** The loops over several turns, and the process *)

(** The event is an update of the table. *)
Definition is_write (ev : event) : bool :=
  match ev with Consumed | SyncApplied => true | _ => false end.

(** The event may change the database file: [initialize_database], which
    makes the table (also in a run that raises after the CREATE), and
    the updates. *)
Definition touches_database (ev : event) : bool :=
  match ev with
  | InitDatabase | InitFailed | Consumed | SyncApplied => true
  | _ => false
  end.

(** The number of steps of [main] in a schedule. *)
Definition main_steps {E} (schedule : list (thread * E)) : nat :=
  count (fun te => match te.1 with MainThread => true | _ => false end) schedule.

(** The document has no list of areas: no key [data], or no key [areas]
    in the object under [data]. *)
Definition lacks_areas (data : json) : bool :=
  match data with
  | JObj kvs =>
      match dict_lookup kvs (py "data") with
      | None => true
      | Some (JObj kvs') =>
          match dict_lookup kvs' (py "areas") with
          | None => true
          | Some _ => false
          end
      | Some _ => false
      end
  | _ => false
  end.

Section Turns.
Context {T : Type} `{EqDecision T}.

(** The loop of [poll_file_changes] over several turns, each with what it
    finds around it. *)
Definition poll_turns (es : list (env (T:=T))) (last_modified_time : option T)
    (update_queue : list json) : option T * list json :=
  foldl (fun st e => (poll_file_changes e st.1 st.2).1)
    (last_modified_time, update_queue) es.

(** The loop of [database_updater] over several turns. *)
Definition updater_turns (es : list (env (T:=T))) (update_queue : list json)
    (t : table) : list json * table :=
  foldl (fun st e => (database_updater e st.1 st.2).1) (update_queue, t) es.

(** The turn can hand a snapshot to the queue: the file can be read and
    [put] works. *)
Definition can_publish (e : env (T:=T)) : bool :=
  match read_areas (content e) with
  | Ok _ => put_ok e
  | Raise _ => false
  end.

(** [os.path.getmtime] gives [m]. *)
Definition mtime_is (m : T) (e : env (T:=T)) : bool :=
  match getmtime e with
  | Ok x => bool_decide (x = m)
  | Raise _ => false
  end.

(** What holds while the registry file is missing, from the database
    file [file]. *)
Definition idle (file : option table) (p : process (T:=T)) : Prop :=
  (database p = file ∨ database p = Some (default empty_table file))
  ∧ polling p = None ∧ updating p = false
  ∧ update_queue p = [] ∧ pc p ≤ 2 ∧ (pc p = 2 -> alive p = false)
  ∧ existsb is_write (history p) = false.

(** What holds while the registry file stays as it is, with the snapshot
    [s] in it, and every call works; [n] steps of [main] were taken. *)
Definition settled (s : list json) (t : table) (n : nat) (p : process (T:=T)) : Prop :=
  alive p = true
  ∧ pc p = n `min` 6
  ∧ Forall (fun a => a = JArr s) (update_queue p)
  ∧ (pc p = 5 -> areas p = JArr s)
  ∧ database p
    = Some (if existsb is_write (history p) then mirrored s t else t)
  ∧ (6 ≤ pc p -> existsb is_write (history p) = true).


End Turns.

(** ** The paths (lines 9-11) *)

(** [p.startswith('/')] *)
Definition is_absolute (p : str) : bool :=
  match p with
  | c :: _ => (c =? 47)%N
  | [] => false
  end.

(** [p.endswith('/')] *)
Definition ends_with_sep (p : str) : bool :=
  match last p with
  | Some c => (c =? 47)%N
  | None => false
  end.

(** [os.path.join(a, b)] of posixpath: an absolute [b] drops [a]. *)
Definition path_join (a b : str) : str :=
  if is_absolute b then b
  else if bool_decide (a = []) || ends_with_sep a then a ++ b
  else a ++ 47%N :: b.

Definition HOME_DIR : str := py "/config".
Definition AREA_REGISTRY_FILE : str :=
  path_join HOME_DIR (py "/config/.storage/core.area_registry").
Definition DATABASE_FILE : str :=
  path_join HOME_DIR (py "/config/home-assistant_v2.db").

(** *** The list columns *)

(** The two list columns of the row hold a text, in plain ASCII. *)
Definition lists_stored (w : row) : bool :=
  match aliases w, labels w with
  | Some x, Some y => ascii_only x && ascii_only y
  | _, _ => false
  end.

(** Every row of the table does. *)
Definition lists_kept (t : table) : Prop :=
  map_Forall (fun _ w => lists_stored w = true) (keyed t)
  ∧ Forall (fun w => lists_stored w = true) (null_rows t).

(** ** More sample data *)

(** An area without an id, and one whose id is a number. *)
Definition stray : json :=
  JObj [(py "id", JNull); (py "name", JStr (py "Stray"))].
Definition numbered : json :=
  JObj [(py "id", JInt 7); (py "name", JStr (py "Seven"))].

(** The rows A and B, and a row without a key. *)
Definition store_AB_stray : table :=
  Table (keyed store_AB) [stored_row attic].

(** The registry file is not there. *)
Definition no_file : env (T:=Z) :=
  Env false (Raise OSError) Unreadable true healthy.

(** The registry file at the same time as [registry_file], not JSON any
    more, and the database out of reach. *)
Definition stale_file : env (T:=Z) :=
  Env true (Ok 1%Z) Garbled true (fails_at 0).

(** The registry file without its list of areas. *)
Definition bare_registry : env (T:=Z) :=
  Env true (Ok 3%Z) (Document (JObj [(py "version", JInt 1)])) true healthy.

(** [main] up to the initial sync. *)
Definition before_sync : process (T:=Z) :=
  exec [(MainThread, registry_file); (MainThread, registry_file);
        (MainThread, registry_file); (MainThread, registry_file)]
    (start (Some store_AB)).

(** * Properties *)

(** ** What [json.dumps] writes is ASCII *)

Lemma ascii_only_app s1 s2 : ascii_only (s1 ++ s2) = ascii_only s1 && ascii_only s2.
Proof. apply forallb_app. Qed.

Lemma ascii_only_cons c s : ascii_only (c :: s) = (c <? 128)%N && ascii_only s.
Proof. reflexivity. Qed.

Lemma ascii_only_utf8_ok s : ascii_only s = true -> utf8_ok s = true.
Proof.
  unfold ascii_only, utf8_ok. rewrite !forallb_forall. intros H c Hc.
  specialize (H c Hc). unfold is_scalar.
  apply N.ltb_lt in H. apply orb_true_iff. left. apply N.ltb_lt. lia.
Qed.

Lemma hex_digit_ascii d : (hex_digit (d mod 16) <? 128)%N = true.
Proof.
  unfold hex_digit. pose proof (N.mod_upper_bound d 16 ltac:(lia)).
  destruct (_ <? 10)%N; apply N.ltb_lt; lia.
Qed.

Lemma u_escape_ascii n : ascii_only (u_escape n) = true.
Proof.
  unfold u_escape, hex4. cbn [ascii_only forallb].
  rewrite !hex_digit_ascii. reflexivity.
Qed.

Lemma escape_char_ascii c : ascii_only (escape_char c) = true.
Proof.
  unfold escape_char.
  repeat (destruct (_ =? _)%N; [reflexivity|]).
  destruct ((32 <=? c) && (c <=? 126))%N eqn:E.
  - apply andb_true_iff in E as [_ E]. apply N.leb_le in E.
    cbn. rewrite andb_true_r. apply N.ltb_lt. lia.
  - destruct (_ <? _)%N; [apply u_escape_ascii|].
    rewrite ascii_only_app, !u_escape_ascii. reflexivity.
Qed.

Lemma dumps_str_ascii s : ascii_only (dumps_str s) = true.
Proof.
  unfold dumps_str. rewrite ascii_only_cons, ascii_only_app.
  cbn. rewrite andb_true_r.
  induction s as [|c s IH]; [reflexivity|].
  cbn [mbind list_bind]. rewrite ascii_only_app, escape_char_ascii. exact IH.
Qed.

Lemma uint_digits_ascii u : ascii_only (uint_digits u) = true.
Proof. induction u; cbn; auto. Qed.

Lemma decimal_ascii z : ascii_only (decimal z) = true.
Proof. unfold decimal. destruct (Z.to_int z); cbn; apply uint_digits_ascii. Qed.

Lemma join_ascii sep items :
  ascii_only sep = true -> Forall (fun x => ascii_only x = true) items ->
  ascii_only (join sep items) = true.
Proof.
  intros Hs H. induction H as [|x l Hx Hl IH]; [reflexivity|].
  destruct l as [|y l]; [exact Hx|].
  change (join sep (x :: y :: l)) with (x ++ sep ++ join sep (y :: l)).
  rewrite !ascii_only_app, Hx, Hs, IH. reflexivity.
Qed.

Lemma dumps_ascii v : ascii_only (dumps v) = true.
Proof.
  induction v as [| [] | z | s | l IH | kvs IH] using json_nested_ind; try reflexivity.
  - apply decimal_ascii.
  - apply dumps_str_ascii.
  - cbn [dumps]. rewrite ascii_only_cons, ascii_only_app, join_ascii;
      [reflexivity|reflexivity|].
    apply Forall_map. exact IH.
  - cbn [dumps]. rewrite ascii_only_cons, ascii_only_app, join_ascii;
      [reflexivity|reflexivity|].
    apply Forall_map. eapply Forall_impl; [exact IH|].
    intros [k v] H. cbn [fst snd] in *.
    rewrite !ascii_only_app, dumps_str_ascii, H. reflexivity.
Qed.

Lemma dumps_utf8_ok v : utf8_ok (dumps v) = true.
Proof. apply ascii_only_utf8_ok, dumps_ascii. Qed.

(** ** One record is written as its StoredRow *)

Lemma text_field_bind r k :
  is_text (field r k) = true ->
  ∃ s, field r k = Some (JStr s) ∧ text_field r k = Some s
       ∧ bind_param (JStr s) = Ok (SText s).
Proof.
  unfold is_text, text_field. destruct (field r k) as [[]|]; try discriminate.
  intros H. eexists. split; [reflexivity|]. split; [reflexivity|].
  cbn. rewrite H. reflexivity.
Qed.

Lemma optional_field_bind kvs k :
  is_optional_text (field (JObj kvs) k) = true ->
  ∃ v b, get (JObj kvs) k JNull = Ok v ∧ bind_param v = Ok b
         ∧ text_affinity b = text_field (JObj kvs) k.
Proof.
  unfold is_optional_text, text_field, get, field.
  destruct (dict_lookup kvs k) as [[]|]; try discriminate; intros H.
  - exists JNull, SNull. auto.
  - exists (JStr s), (SText s). cbn. rewrite H. auto.
  - exists JNull, SNull. auto.
Qed.

Lemma list_field_dumps kvs k :
  ∃ v, get (JObj kvs) k (JArr []) = Ok v
       ∧ v = default (JArr []) (field (JObj kvs) k)
       ∧ bind_param (JStr (dumps v)) = Ok (SText (dumps v)).
Proof.
  unfold get, field. 
  destruct (dict_lookup kvs k) as [v|]; eexists; (split; [reflexivity|split; [reflexivity|]]);
    cbn [bind_param]; rewrite dumps_utf8_ok; reflexivity.
Qed.

Lemma getitem_field kvs k v :
  field (JObj kvs) k = Some v -> getitem (JObj kvs) k = Ok v.
Proof. unfold field, getitem. intros ->. reflexivity. Qed.

Lemma is_record_fields r :
  is_record r = true ->
  ∃ kvs, r = JObj kvs
    ∧ is_text (field r (py "id")) = true ∧ is_text (field r (py "name")) = true
    ∧ is_optional_text (field r (py "floor_id")) = true
    ∧ is_optional_text (field r (py "icon")) = true
    ∧ is_optional_text (field r (py "picture")) = true
    ∧ is_optional_text (field r (py "created_at")) = true
    ∧ is_optional_text (field r (py "modified_at")) = true.
Proof.
  destruct r; try discriminate. unfold is_record.
  rewrite !andb_true_iff. intros [[[[[[[[? ?] ?] ?] ?] ?] ?] ?] ?].
  eexists. repeat split; eauto.
Qed.

(** One turn of the upsert loop on a Record writes its StoredRow. *)
Lemma upsert_record r c :
  is_record r = true ->
  ∃ i n, record_id r = Some i ∧ text_field r (py "name") = Some n ∧
    upsert healthy r c =
      (Ok tt,
       Conn (committed c)
            (Table (<[i := stored_row r]> (keyed (working c))) (null_rows (working c)))
            (calls c ++ [(CInsert, true)])
            (out c ++ [Updated (JStr n) (JStr i)])).
Proof.
  intros Hr. destruct (is_record_fields r Hr) as (kvs & -> & Hid & Hname & Hf & Hi & Hp & Hc & Hm).
  destruct (text_field_bind _ _ Hid) as (i & Hi1 & Hi2 & Hi3).
  destruct (text_field_bind _ _ Hname) as (n & Hn1 & Hn2 & Hn3).
  destruct (optional_field_bind _ _ Hf) as (vf & bf & Hf1 & Hf2 & Hf3).
  destruct (optional_field_bind _ _ Hi) as (vi & bi & Hi'1 & Hi'2 & Hi'3).
  destruct (optional_field_bind _ _ Hp) as (vp & bp & Hp1 & Hp2 & Hp3).
  destruct (optional_field_bind _ _ Hc) as (vc & bc & Hc1 & Hc2 & Hc3).
  destruct (optional_field_bind _ _ Hm) as (vm & bm & Hm1 & Hm2 & Hm3).
  destruct (list_field_dumps kvs (py "aliases")) as (va & Ha1 & Ha2 & Ha3).
  destruct (list_field_dumps kvs (py "labels")) as (vl & Hl1 & Hl2 & Hl3).
  exists i, n. split; [exact Hi2|]. split; [exact Hn2|].
  unfold upsert, lift, mbind, M_bind, fmap, res_fmap.
  rewrite Ha1, Hl1.
  rewrite (getitem_field _ _ _ Hi1), (getitem_field _ _ _ Hn1).
  rewrite Hf1, Hi'1, Hp1, Hc1, Hm1.
  unfold res_bind.
  rewrite Hi3, Hn3, Hf2, Hi'2, Hp2, Hc2, Hm2, Ha3, Hl3.
  unfold sql, healthy, insert_or_replace, print, stored_row.
  cbn -[py text_field field dumps insert].
  rewrite Hf3, Hi'3, Hp3, Hc3, Hm3, Hn2, <- Ha2, <- Hl2. reflexivity.
Qed.

(** ** A snapshot is applied as a whole *)

(** The first bind of the goal takes its step. *)
Ltac bind_step := unfold mbind at 1, M_bind at 1.

(** A run without failures on a list: [connect], the id read and the walk
    over the list are done, the set of current ids is next. *)
Ltac enter_reconcile :=
  unfold reconcile;
  bind_step; unfold connect, sql at 1, healthy at 1;
  cbn [working committed calls out length app];
  bind_step; unfold sql at 1, healthy at 1;
  cbn [working committed calls out length app];
  bind_step; unfold lift at 1; cbn [iter];
  bind_step; unfold lift at 1.

Lemma foreach_upsert s : ∀ c,
  is_snapshot s = true ->
  foreach s (upsert healthy) c =
    (Ok tt,
     Conn (committed c)
          (Table (foldl put_record (keyed (working c)) s) (null_rows (working c)))
          (calls c ++ replicate (length s) (CInsert, true))
          (out c ++ (updated_line <$> s))).
Proof.
  induction s as [|r s IH]; intros c Hs.
  - cbn. rewrite !app_nil_r. by destruct c as [? []].
  - cbn in Hs. apply andb_true_iff in Hs as [Hr Hs].
    destruct (upsert_record r c Hr) as (i & n & Hi & Hn & Hu).
    cbn [foreach]. unfold mbind at 1, M_bind at 1. rewrite Hu.
    rewrite IH by exact Hs. cbn [committed working calls out keyed null_rows].
    cbn [foldl length replicate fmap list_fmap].
    unfold put_record at 3, updated_line at 2. rewrite Hi, Hn.
    rewrite <- !app_assoc. reflexivity.
Qed.

Lemma foreach_delete (l : list (option str)) : ∀ c,
  foreach l (fun area_id =>
     sql healthy CDelete (fun t => Ok (tt, delete_where_id area_id t));;
     print (Deleted area_id)) c =
    (Ok tt,
     Conn (committed c)
          (foldl (fun t x => delete_where_id x t) (working c) l)
          (calls c ++ replicate (length l) (CDelete, true))
          (out c ++ (Deleted <$> l))).
Proof.
  induction l as [|x l IH]; intros c.
  - cbn. rewrite !app_nil_r. by destruct c.
  - cbn [foreach]. unfold mbind at 1, M_bind at 1.
    unfold mbind at 1, M_bind at 1. unfold sql at 1, healthy at 1, print at 1.
    cbn [committed working calls out]. rewrite IH.
    cbn [committed working calls out foldl length replicate fmap list_fmap].
    rewrite <- !app_assoc. reflexivity.
Qed.

Lemma current_ids_snapshot s :
  is_snapshot s = true ->
  traverse (fun area =>
      v ← getitem area (py "id");
      if hashable v then Ok v else Raise TypeError) s
  = Ok (JStr <$> omap record_id s).
Proof.
  induction s as [|r s IH]; intros Hs; [reflexivity|].
  cbn in Hs. apply andb_true_iff in Hs as [Hr Hs].
  destruct (is_record_fields r Hr) as (kvs & -> & Hid & _).
  destruct (text_field_bind _ _ Hid) as (i & Hi1 & Hi2 & _).
  change (text_field (JObj kvs) (py "id")) with (record_id (JObj kvs)) in Hi2.
  cbn [traverse omap list_omap]. rewrite Hi2.
  rewrite (getitem_field _ _ _ Hi1). cbn [mbind res_bind hashable].
  rewrite IH by exact Hs. reflexivity.
Qed.

Lemma id_in_texts i (ids : list str) :
  id_in (Some i) (JStr <$> ids) = true <-> i ∈ ids.
Proof.
  unfold id_in. rewrite existsb_exists. split.
  - intros (v & Hv & H). apply list_elem_of_In, list_elem_of_fmap in Hv as (j & -> & Hj).
    apply bool_decide_eq_true in H. by subst.
  - intros H. exists (JStr i). split.
    + apply list_elem_of_In, list_elem_of_fmap. eauto.
    + by apply bool_decide_eq_true.
Qed.

Lemma foldl_delete_keyed (l : list (option str)) : ∀ t i,
  keyed (foldl (fun t x => delete_where_id x t) t l) !! i
  = if decide (Some i ∈ l) then None else keyed t !! i.
Proof.
  induction l as [|x l IH]; intros t i; cbn [foldl].
  - case_decide as H; [by apply not_elem_of_nil in H|done].
  - rewrite IH.
    destruct (decide (Some i ∈ l)) as [H1|H1];
      destruct (decide (Some i ∈ x :: l)) as [H2|H2]; try done.
    + exfalso. apply H2. by right.
    + apply elem_of_cons in H2 as [<-|H2]; [|done].
      cbn. apply lookup_delete_eq.
    + destruct x as [j|]; [|done]. cbn.
      apply lookup_delete_ne. intros ->. apply H2. left.
Qed.

Lemma foldl_delete_null_rows (l : list (option str)) : ∀ t,
  null_rows (foldl (fun t x => delete_where_id x t) t l) = null_rows t.
Proof.
  induction l as [|x l IH]; intros t; cbn [foldl]; [done|].
  rewrite IH. by destruct x.
Qed.

Lemma last_record_snoc s r i :
  last_record (s ++ [r]) i
  = if decide (record_id r = Some i) then Some r else last_record s i.
Proof.
  unfold last_record. rewrite reverse_snoc, filter_cons.
  case_decide; reflexivity.
Qed.

Lemma last_record_None s i :
  last_record s i = None <-> i ∉ omap record_id s.
Proof.
  induction s as [|r s IH] using rev_ind.
  - split; [intros _; apply not_elem_of_nil|reflexivity].
  - rewrite last_record_snoc, omap_app, not_elem_of_app, <- IH. cbn [omap list_omap].
    case_decide as H.
    + rewrite H. split; [discriminate|]. intros [_ H']. exfalso. apply H'. left.
    + split; [|tauto]. intros H'. split; [done|].
      destruct (record_id r); [|apply not_elem_of_nil].
      intros ->%list_elem_of_singleton. done.
Qed.

Lemma last_record_Some s i r :
  last_record s i = Some r -> r ∈ s ∧ record_id r = Some i.
Proof.
  unfold last_record. intros H.
  apply head_Some_elem_of in H. apply list_elem_of_filter in H as [H1 H2].
  split; [apply elem_of_reverse, H2|exact H1].
Qed.

Lemma lookup_foldl_put_record s : ∀ m i,
  foldl put_record m s !! i
  = match last_record s i with
    | Some r => Some (stored_row r)
    | None => m !! i
    end.
Proof.
  induction s as [|r s IH] using rev_ind; intros m i; [reflexivity|].
  rewrite foldl_app, last_record_snoc. cbn [foldl]. unfold put_record at 1.
  case_decide as H.
  - rewrite H. apply lookup_insert_eq.
  - destruct (record_id r) as [j|]; [|apply IH].
    rewrite lookup_insert_ne by congruence. apply IH.
Qed.

(** The reconciliation of a snapshot, when no call fails: the keyed rows
    become the mirror of the snapshot. *)
Lemma reconcile_snapshot s t :
  is_snapshot s = true ->
  ∃ cs ls,
    reconcile healthy (JArr s) (Conn t t [] []) =
      (Ok tt, Conn (mirrored s t) (mirrored s t) cs ls)
    ∧ ∀ e, DatabaseError e ∉ ls.
Proof.
  intros Hs. enter_reconcile.
  rewrite current_ids_snapshot by exact Hs.
  bind_step. rewrite foreach_delete.
  bind_step. rewrite foreach_upsert by exact Hs.
  bind_step. unfold commit at 1, healthy at 1.
  cbn [working committed calls out].
  unfold close, sql, healthy. cbn [working committed calls out].
  set (l := filter _ (select_ids t)).
  assert (Hm : Table (foldl put_record (keyed (foldl (fun t x => delete_where_id x t) t l)) s)
                 (null_rows (foldl (fun t x => delete_where_id x t) t l)) = mirrored s t).
  { unfold mirrored, mirror. cbn [keyed]. f_equal.
    - apply map_eq. intros i. rewrite !lookup_foldl_put_record.
      destruct (last_record s i) eqn:E; [done|].
      rewrite foldl_delete_keyed, lookup_empty.
      case_decide as H; [done|].
      destruct (keyed t !! i) as [w|] eqn:Ew; [|done].
      exfalso. apply H. subst l. apply list_elem_of_filter. split.
      + apply not_true_iff_false. rewrite id_in_texts.
        by apply last_record_None.
      + unfold select_ids. apply elem_of_app. left.
        apply list_elem_of_fmap. exists i. split; [done|].
        apply list_elem_of_fmap. exists (i, w). split; [done|].
        by apply elem_of_map_to_list.
    - by rewrite foldl_delete_null_rows. }
  rewrite Hm. do 2 eexists. split; [reflexivity|].
  intros e He. cbn [app] in He.
  apply elem_of_app in He as [He|He].
  - apply list_elem_of_fmap in He as (? & ? & _). discriminate.
  - apply list_elem_of_fmap in He as (? & ? & _). discriminate.
Qed.

Lemma apply_snapshot s t :
  is_snapshot s = true ->
  let r := update_database_with_new_areas healthy (JArr s) t in
  db r = mirrored s t ∧ clean r.
Proof.
  intros Hs. destruct (reconcile_snapshot s t Hs) as (cs & ls & Hr & Hl).
  unfold update_database_with_new_areas, try_except. rewrite Hr. cbn. auto.
Qed.

Lemma lookup_mirror s i :
  keyed (mirror s) !! i = stored_row <$> last_record s i.
Proof.
  unfold mirror. cbn [keyed]. rewrite lookup_foldl_put_record, lookup_empty.
  by destruct (last_record s i).
Qed.

Lemma dom_mirror s : dom (keyed (mirror s)) = snapshot_ids s.
Proof.
  apply set_eq. intros i. rewrite elem_of_dom, lookup_mirror.
  unfold snapshot_ids. rewrite elem_of_list_to_set.
  destruct (last_record s i) eqn:E.
  - split; [intros _|by eexists].
    apply last_record_Some in E as [? ?]. apply list_elem_of_omap. eauto.
  - split; [by intros []|]. intros H. by apply last_record_None in E.
Qed.


(** The last record with a given id, by position. *)
Lemma last_record_middle s1 r s2 i :
  record_id r = Some i -> i ∉ snapshot_ids s2 ->
  last_record (s1 ++ r :: s2) i = Some r.
Proof.
  intros Hi. induction s2 as [|x s2 IH] using rev_ind; intros Hn.
  - rewrite last_record_snoc. by rewrite decide_True.
  - change (s1 ++ r :: s2 ++ [x]) with (s1 ++ (r :: s2) ++ [x]).
    rewrite app_assoc, last_record_snoc.
    unfold snapshot_ids in *. rewrite omap_app, list_to_set_app_L in Hn.
    apply not_elem_of_union in Hn as [Hn1 Hn2].
    case_decide as Hx; [|by apply IH].
    exfalso. apply Hn2. cbn [omap list_omap]. rewrite Hx.
    apply elem_of_list_to_set. left.
Qed.

(** ** Convergence, idempotence, duplicates *)

Lemma apply_to_snapshot t s :
  is_snapshot s = true -> apply_to t s = mirrored s t.
Proof. intros Hs. apply (apply_snapshot s t Hs). Qed.



Lemma record_id_is_Some r : is_record r = true -> is_Some (record_id r).
Proof.
  intros Hr. destruct (is_record_fields r Hr) as (kvs & -> & Hi & _).
  destruct (text_field_bind _ _ Hi) as (i & _ & Hi2 & _). by exists i.
Qed.





(** C2 (idempotence).  Applying a snapshot a second time, with no failing
    call, leaves the table exactly as the first apply left it: the same
    keys (the ids of the snapshot, one row each), the same rows, no row
    added; neither run prints an error. *)
Theorem idempotence (t : table) (s : list json) :
  is_snapshot s = true ->
  let r1 := update_database_with_new_areas healthy (JArr s) t in
  let r2 := update_database_with_new_areas healthy (JArr s) (db r1) in
  db r2 = db r1 ∧ clean r1 ∧ clean r2
  ∧ dom (keyed (db r2)) = snapshot_ids s
  ∧ null_rows (db r2) = null_rows t.
Proof.
  intros Hs r1 r2.
  destruct (apply_snapshot s t Hs) as [H1 C1].
  destruct (apply_snapshot s (db r1) Hs) as [H2 C2].
  fold r1 in H1, C1. fold r2 in H2, C2.
  rewrite H2, H1. unfold mirrored. cbn [keyed null_rows].
  repeat split; auto. apply dom_mirror.
Qed.

Lemma idempotence_witness :
  is_snapshot [kitchen; garage] = true
  ∧ let r1 := update_database_with_new_areas healthy (JArr [kitchen; garage]) store_AB in
    let r2 := update_database_with_new_areas healthy (JArr [kitchen; garage]) (db r1) in
    db r2 = db r1.
Proof.
  split; [reflexivity|].
  exact (proj1 (idempotence store_AB [kitchen; garage] eq_refl)).
Defined.

(** C9 (duplicate ids).  When several records of a snapshot carry the same
    id, the run still succeeds and the row of that id is the StoredRow of
    the last of them in snapshot order. *)
Theorem last_duplicate_wins (t : table) (s1 : list json) (r : json)
    (s2 : list json) (i : str) :
  is_snapshot (s1 ++ r :: s2) = true ->
  record_id r = Some i ->
  i ∉ snapshot_ids s2 ->
  let run := update_database_with_new_areas healthy (JArr (s1 ++ r :: s2)) t in
  clean run ∧ keyed (db run) !! i = Some (stored_row r).
Proof.
  intros Hs Hi Hn run. destruct (apply_snapshot _ t Hs) as [H C].
  fold run in H, C. split; [exact C|].
  rewrite H. unfold mirrored. cbn [keyed].
  by rewrite lookup_mirror, (last_record_middle s1 r s2 i Hi Hn).
Qed.

Lemma last_duplicate_wins_witness :
  is_snapshot ([old_kitchen; attic] ++ kitchen :: [garage]) = true
  ∧ record_id kitchen = Some (py "A")
  ∧ ((py "A") ∉ snapshot_ids [garage])
  ∧ keyed (db (update_database_with_new_areas healthy
                 (JArr ([old_kitchen; attic] ++ kitchen :: [garage])) empty_table))
      !! (py "A") = Some (stored_row kitchen).
Proof.
  assert (H : (py "A") ∉ snapshot_ids [garage]).
  { apply (bool_decide_unpack _). vm_compute. exact I. }
  split; [reflexivity|]. split; [reflexivity|]. split; [exact H|].
  exact (proj2 (last_duplicate_wins empty_table [old_kitchen; attic] kitchen
                  [garage] (py "A") eq_refl eq_refl H)).
Defined.

(** ** Failing calls *)

(** The steps of [reconcile] before [commit] leave the database file
    alone, a run returns normally only when every call worked, and what
    the file holds in the end is what it held before or what the run
    without failures leaves. *)

Lemma count_app {A} (f : A -> bool) l1 l2 :
  count f (l1 ++ l2) = count f l1 + count f l2.
Proof. unfold count. by rewrite List.filter_app, length_app. Qed.

Create HintDb recon.

Section Faults.
Variable fails : nat -> bool.

Lemma no_failed_snoc cs k : no_failed cs -> no_failed (cs ++ [(k, true)]).
Proof.
  intros H k' [Hk|Hk]%elem_of_app; [by apply (H k')|].
  apply list_elem_of_singleton in Hk. discriminate.
Qed.

Lemma keeps_lift {A} (r : res A) : keeps (lift r).
Proof. by intros c. Qed.

Lemma honest_lift {A} (r : res A) : honest (lift r).
Proof. by intros c. Qed.

Lemma keeps_print l : keeps (print l).
Proof. by intros c. Qed.

Lemma honest_print l : honest (print l).
Proof. by intros c. Qed.

Lemma keeps_ret {A} (a : A) : keeps (mret a : M A).
Proof. by intros c. Qed.

Lemma honest_ret {A} (a : A) : honest (mret a : M A).
Proof. by intros c. Qed.

Lemma keeps_sql {A} k (f : table -> res (A * table)) : keeps (sql fails k f).
Proof.
  intros c. unfold sql. destruct (fails _); [done|].
  by destruct (f (working c)) as [[a t]|e].
Qed.

Lemma honest_sql {A} k (f : table -> res (A * table)) : honest (sql fails k f).
Proof.
  intros c Hc. unfold sql. destruct (fails _); [done|].
  destruct (f (working c)) as [[a t]|e]; [|done].
  intros _. by apply no_failed_snoc.
Qed.

Lemma honest_commit : honest (commit fails).
Proof.
  intros c Hc. unfold commit. destruct (fails _); [done|].
  intros _. by apply no_failed_snoc.
Qed.

Lemma keeps_bind {A B} (m : M A) (f : A -> M B) :
  keeps m -> (∀ a, keeps (f a)) -> keeps (m ≫= f).
Proof.
  intros Hm Hf c. unfold mbind, M_bind. specialize (Hm c).
  destruct (m c) as [[a|e] c']; [|done].
  rewrite Hf. exact Hm.
Qed.

Lemma honest_bind {A B} (m : M A) (f : A -> M B) :
  honest m -> (∀ a, honest (f a)) -> honest (m ≫= f).
Proof.
  intros Hm Hf c Hc. unfold mbind, M_bind. specialize (Hm c Hc).
  destruct (m c) as [[a|e] c']; [|done].
  apply Hf. by apply Hm.
Qed.

Lemma keeps_foreach {A} (l : list A) (body : A -> M unit) :
  (∀ x, keeps (body x)) -> keeps (foreach l body).
Proof.
  intros Hb. induction l as [|x l IH]; [apply keeps_ret|].
  apply keeps_bind; auto.
Qed.

Lemma honest_foreach {A} (l : list A) (body : A -> M unit) :
  (∀ x, honest (body x)) -> honest (foreach l body).
Proof.
  intros Hb. induction l as [|x l IH]; [apply honest_ret|].
  apply honest_bind; auto.
Qed.

Hint Resolve keeps_lift honest_lift keeps_print honest_print keeps_ret honest_ret
  keeps_sql honest_sql honest_commit : recon.
Hint Extern 2 (keeps (_ ≫= _)) => apply keeps_bind; [|intros ?] : recon.
Hint Extern 2 (honest (_ ≫= _)) => apply honest_bind; [|intros ?] : recon.
Hint Extern 2 (keeps (foreach _ _)) => apply keeps_foreach; intros ? : recon.
Hint Extern 2 (honest (foreach _ _)) => apply honest_foreach; intros ? : recon.

Lemma keeps_upsert area : keeps (upsert fails area).
Proof. unfold upsert. auto 10 with recon. Qed.

Lemma honest_upsert area : honest (upsert fails area).
Proof. unfold upsert. auto 10 with recon. Qed.

Hint Resolve keeps_upsert honest_upsert : recon.

Lemma honest_reconcile area_data : honest (reconcile fails area_data).
Proof. unfold reconcile, connect, close. auto 20 with recon. Qed.

Lemma atomic_bind {A B} (m : M A) (f : A -> M B) :
  keeps m -> honest m -> (∀ a, atomic (f a)) -> atomic (m ≫= f).
Proof.
  intros Hk Hh Hf c Hc. unfold mbind, M_bind.
  specialize (Hk c). specialize (Hh c Hc).
  destruct (m c) as [[a|e] c']; cbn [fst snd] in *.
  - intros k Hin Hne. rewrite <- Hk. apply (Hf a c' (Hh I) k Hin Hne).
  - intros _ _ _. exact Hk.
Qed.

Lemma atomic_commit_close : atomic (commit fails;; close fails).
Proof.
  intros c Hc k. unfold mbind, M_bind, commit, close, sql.
  destruct (fails (length (calls c))); [done|].
  cbn [calls working committed].
  destruct (fails _); cbn [calls working committed snd].
  - intros [[H|H]%elem_of_app|H]%elem_of_app Hne.
    + by apply Hc in H.
    + apply list_elem_of_singleton in H. discriminate.
    + apply list_elem_of_singleton in H. congruence.
  - intros [[H|H]%elem_of_app|H]%elem_of_app Hne.
    + by apply Hc in H.
    + apply list_elem_of_singleton in H. discriminate.
    + apply list_elem_of_singleton in H. discriminate.
Qed.

Hint Extern 2 (atomic (_ ≫= _)) =>
  first [ apply atomic_commit_close
        | apply atomic_bind; [| |intros ?] ] : recon.

Lemma atomic_reconcile area_data : atomic (reconcile fails area_data).
Proof. unfold reconcile, connect. auto 30 with recon. Qed.

Lemma agrees_refl {A} (m : M A) : agrees m m.
Proof. by intros c. Qed.

Lemma agrees_sql {A} k (f : table -> res (A * table)) :
  agrees (sql fails k f) (sql healthy k f).
Proof. intros c. unfold sql, healthy. by destruct (fails _). Qed.

Lemma agrees_bind {A B} (m h : M A) (f g : A -> M B) :
  agrees m h -> (∀ a, agrees (f a) (g a)) -> agrees (m ≫= f) (h ≫= g).
Proof.
  intros Hm Hf c. unfold mbind, M_bind. specialize (Hm c).
  destruct (m c) as [[a|e] c'] eqn:E; [|done].
  rewrite (Hm I). apply Hf.
Qed.

Lemma agrees_foreach {A} (l : list A) (f g : A -> M unit) :
  (∀ x, agrees (f x) (g x)) -> agrees (foreach l f) (foreach l g).
Proof.
  intros H. induction l as [|x l IH]; [apply agrees_refl|].
  apply agrees_bind; auto.
Qed.

Lemma agrees_upsert area : agrees (upsert fails area) (upsert healthy area).
Proof.
  unfold upsert.
  repeat first [ apply agrees_sql | apply agrees_refl
               | apply agrees_bind; [|intros ?] ].
Qed.

Lemma whole_bind {A B} (m h : M A) (f g : A -> M B) :
  keeps m -> agrees m h -> (∀ a, whole (f a) (g a)) -> whole (m ≫= f) (h ≫= g).
Proof.
  intros Hk Hm Hf c. unfold mbind, M_bind.
  specialize (Hk c). specialize (Hm c).
  destruct (m c) as [[a|e] c'] eqn:E; cbn [fst snd] in *.
  - rewrite (Hm I), <- Hk. apply Hf.
  - by left.
Qed.

Lemma whole_commit_close :
  whole (commit fails;; close fails) (commit healthy;; close healthy).
Proof.
  intros c. unfold mbind, M_bind, commit, close, sql, healthy.
  destruct (fails (length (calls c))); [by left|].
  cbn [calls working committed]. right. by destruct (fails _).
Qed.

Lemma whole_reconcile area_data :
  whole (reconcile fails area_data) (reconcile healthy area_data).
Proof.
  unfold reconcile, connect.
  repeat first
    [ apply whole_commit_close
    | apply whole_bind;
        [ auto 10 using keeps_lift, keeps_sql, keeps_foreach, keeps_upsert,
            keeps_bind, keeps_print
        | repeat first [ apply agrees_sql | apply agrees_refl
                       | apply agrees_foreach; intros ?
                       | apply agrees_upsert
                       | apply agrees_bind; [|intros ?] ]
        | intros ? ] ].
Qed.

(** The lines printed tally with the calls that worked. *)

Lemma tallying_lift {A} (r : res A) : tallying (lift r).
Proof. by intros c. Qed.

Lemma tallying_ret {A} (a : A) : tallying (mret a : M A).
Proof. by intros c. Qed.

Lemma tallying_bind {A B} (m : M A) (f : A -> M B) :
  tallying m -> (∀ a, tallying (f a)) -> tallying (m ≫= f).
Proof.
  intros Hm Hf c Hc. unfold mbind, M_bind. specialize (Hm c Hc).
  destruct (m c) as [[a|e] c']; [|done]. by apply Hf.
Qed.

Lemma tallying_foreach {A} (l : list A) (body : A -> M unit) :
  (∀ x, tallying (body x)) -> tallying (foreach l body).
Proof.
  intros Hb. induction l as [|x l IH]; [apply tallying_ret|].
  apply tallying_bind; auto.
Qed.

(** A call other than DELETE and INSERT, or a line other than "Deleted"
    and "Updated", does not count. *)
Lemma tallying_sql_other {A} k (f : table -> res (A * table)) :
  k ≠ CDelete -> k ≠ CInsert -> tallying (sql fails k f).
Proof.
  intros H1 H2 c [Hd Hu]. unfold sql, tallies.
  destruct (fails _); [|destruct (f (working c)) as [[a t]|e]];
    cbn [out calls snd]; rewrite !count_app, Hd, Hu;
    destruct k; try done; cbn; lia.
Qed.

Lemma tallying_commit : tallying (commit fails).
Proof.
  intros c [Hd Hu]. unfold commit, tallies.
  destruct (fails _); cbn [out calls snd]; rewrite !count_app, Hd, Hu; cbn; lia.
Qed.

Lemma tallying_delete area_id :
  tallying (sql fails CDelete (fun t => Ok (tt, delete_where_id area_id t));;
            print (Deleted area_id)).
Proof.
  intros c [Hd Hu]. unfold mbind, M_bind, sql, print, tallies.
  destruct (fails _); cbn [out calls snd working committed];
    rewrite !count_app, Hd, Hu; cbn; lia.
Qed.

Lemma tallying_insert p a_name a_id :
  tallying (sql fails CInsert (fun t => t' ← insert_or_replace p t; Ok (tt, t'));;
            print (Updated a_name a_id)).
Proof.
  intros c [Hd Hu]. unfold mbind at 1, M_bind, sql, print, tallies.
  destruct (fails _); [|destruct (_ ≫= _) as [[a t]|e]];
    cbn [out calls snd working committed];
    rewrite !count_app, Hd, Hu; cbn; lia.
Qed.

Lemma tallying_upsert area : tallying (upsert fails area).
Proof.
  unfold upsert.
  apply tallying_bind; [apply tallying_lift|intros aliases].
  apply tallying_bind; [apply tallying_lift|intros labels].
  apply tallying_bind; [apply tallying_lift|intros p].
  apply tallying_insert.
Qed.

Lemma tallying_reconcile area_data : tallying (reconcile fails area_data).
Proof.
  unfold reconcile, connect, close.
  apply tallying_bind; [by apply tallying_sql_other|intros _].
  apply tallying_bind; [by apply tallying_sql_other|intros existing_ids].
  apply tallying_bind; [apply tallying_lift|intros areas].
  apply tallying_bind; [apply tallying_lift|intros current_ids].
  apply tallying_bind;
    [apply tallying_foreach; intros x; apply tallying_delete|intros _].
  apply tallying_bind;
    [apply tallying_foreach; intros x; apply tallying_upsert|intros _].
  apply tallying_bind; [apply tallying_commit|intros _].
  by apply tallying_sql_other.
Qed.

End Faults.

Lemma no_failed_nil : no_failed [].
Proof. intros k. apply not_elem_of_nil. Qed.

(** C3 (no partial commit).  Whatever the snapshot and whichever call
    fails, a run in which [connect], the id read, a delete, an upsert or
    [commit] failed leaves the database file exactly as it was; and in
    every case the file ends either as it was or as the run without any
    failure leaves it, never in between. *)
Theorem no_partial_commit (fails : nat -> bool) (area_data : json) (t : table) :
  let r := update_database_with_new_areas fails area_data t in
  (∀ k, (k, false) ∈ made r -> k ≠ CClose -> db r = t)
  ∧ (db r = t ∨ db r = db (update_database_with_new_areas healthy area_data t)).
Proof.
  intros r. subst r. unfold update_database_with_new_areas, try_except. split.
  - intros k.
    pose proof (atomic_reconcile fails area_data (Conn t t [] []) no_failed_nil k) as H.
    destruct (reconcile fails area_data (Conn t t [] [])) as [[[]|e] c];
      cbn [db made fst snd] in *; exact H.
  - pose proof (whole_reconcile fails area_data (Conn t t [] [])) as H.
    destruct (reconcile fails area_data (Conn t t [] [])) as [[[]|e] c];
      destruct (reconcile healthy area_data (Conn t t [] [])) as [[[]|e'] c'];
      cbn [db committed fst snd] in *; exact H.
Qed.

(** The upsert of the garage fails after the rows A and B were deleted. *)
Lemma no_partial_commit_witness :
  (CDelete, true) ∈ made insert_fails
  ∧ (CInsert, false) ∈ made insert_fails
  ∧ CInsert ≠ CClose
  ∧ db insert_fails = store_AB.
Proof.
  assert (H : (CInsert, false) ∈ made insert_fails)
    by (vm_compute; repeat constructor).
  split; [vm_compute; repeat constructor|].
  split; [exact H|]. split; [discriminate|].
  apply (proj1 (no_partial_commit (fails_at 4) (JArr [garage]) store_AB) CInsert H).
  discriminate.
Defined.

(** C4, as the code has it.  The call gives [None] back in every case: no
    counts are returned, and no exception leaves the function.  A failed
    call to SQLite ends the run with the line "Database error: ..." as
    the last line printed.  What was done is only printed: one line
    "Deleted ..." for each DELETE that worked and one line "Updated ..."
    for each INSERT OR REPLACE that worked, an insert and an update
    alike. *)
Theorem failure_is_swallowed (fails : nat -> bool) (area_data : json) (t : table) :
  let r := update_database_with_new_areas fails area_data t in
  result r = Returned JNull
  ∧ (∀ k, (k, false) ∈ made r -> ∃ e, last (printed r) = Some (DatabaseError e))
  ∧ count is_deleted_line (printed r) = count delete_worked (made r)
  ∧ count is_updated_line (printed r) = count insert_worked (made r).
Proof.
  intros r. subst r. unfold update_database_with_new_areas, try_except.
  pose proof (honest_reconcile fails area_data (Conn t t [] []) no_failed_nil) as H.
  assert (H0 : tallies (Conn t t [] [])) by done.
  pose proof (tallying_reconcile fails area_data _ H0) as [Hd Hu].
  destruct (reconcile fails area_data (Conn t t [] [])) as [[[]|e] c];
    cbn [result made printed print out calls fst snd] in *;
    (split; [reflexivity|]).
  - split; [|done]. intros k Hk. exfalso. by apply (H I k).
  - split; [intros k _; exists e; apply last_snoc|].
    rewrite !count_app, Hd, Hu. cbn. lia.
Qed.

Lemma failure_is_swallowed_witness :
  (CSelect, false) ∈ made select_fails
  ∧ ∃ e, last (printed select_fails) = Some (DatabaseError e).
Proof.
  assert (H : (CSelect, false) ∈ made select_fails)
    by (vm_compute; repeat constructor).
  split; [exact H|].
  exact (proj1 (proj2 (failure_is_swallowed (fails_at 1) (JArr [kitchen]) store_AB))
           CSelect H).
Defined.

(** C4 as stated does not hold: the id read fails, and yet the call
    returns, with [None], and raises nothing; a run that works returns
    [None] too, not counts. *)
Lemma swallowed_example :
  (CSelect, false) ∈ made select_fails
  ∧ result select_fails = Returned JNull
  ∧ ¬ (∃ e, result select_fails = Raised e)
  ∧ printed select_fails = [DatabaseError OperationalError]
  ∧ result (update_database_with_new_areas healthy (JArr [kitchen]) store_AB)
    = Returned JNull.
Proof.
  split; [vm_compute; repeat constructor|]. split; [reflexivity|].
  split; [intros [e He]; discriminate|]. split; reflexivity.
Qed.

(** ** Keys a record may omit *)

(** A record without the key [id] stops the run on line 51. *)
Lemma reconcile_no_id t kvs :
  dict_lookup kvs (py "id") = None ->
  let run := update_database_with_new_areas healthy (JArr [JObj kvs]) t in
  printed run = [DatabaseError (KeyError (py "id"))] ∧ db run = t.
Proof.
  intros H run.
  assert (Hr : reconcile healthy (JArr [JObj kvs]) (Conn t t [] [])
               = (Raise (KeyError (py "id")),
                  Conn t t [(CConnect, true); (CSelect, true)] [])).
  { enter_reconcile.
    cbn [traverse getitem]. rewrite H. reflexivity. }
  subst run. unfold update_database_with_new_areas, try_except. rewrite Hr. done.
Qed.

(** A record with an [id] but without the key [name] stops the run in the
    upsert loop; nothing is committed. *)
Lemma reconcile_no_name t kvs i :
  dict_lookup kvs (py "id") = Some (JStr i) ->
  dict_lookup kvs (py "name") = None ->
  let run := update_database_with_new_areas healthy (JArr [JObj kvs]) t in
  last (printed run) = Some (DatabaseError (KeyError (py "name"))) ∧ db run = t.
Proof.
  intros Hi Hn run.
  assert (Hu : ∀ c, upsert healthy (JObj kvs) c = (Raise (KeyError (py "name")), c)).
  { intros c. unfold upsert, lift, mbind, M_bind, fmap, res_fmap, get, getitem.
    rewrite Hi, Hn.
    destruct (dict_lookup kvs (py "aliases"));
      destruct (dict_lookup kvs (py "labels")); reflexivity. }
  assert (Hr : ∃ cs ls, reconcile healthy (JArr [JObj kvs]) (Conn t t [] [])
               = (Raise (KeyError (py "name")), Conn t cs.1 cs.2 ls)).
  { enter_reconcile.
    cbn [traverse getitem]. rewrite Hi. cbn [mbind res_bind hashable].
    bind_step. rewrite foreach_delete.
    cbn [working committed calls out].
    bind_step. cbn [foreach]. bind_step. rewrite Hu.
    eexists (_, _), _. reflexivity. }
  destruct Hr as (cs & ls & Hr).
  subst run. unfold update_database_with_new_areas, try_except. rewrite Hr.
  cbn [db printed]. split; [apply last_snoc|reflexivity].
Qed.

Lemma field_absent_text r k : field r k = None -> text_field r k = None.
Proof. unfold text_field. by intros ->. Qed.

(** C10 (optional keys).  A record that omits [floor_id], [icon],
    [picture], [created_at] or [modified_at] gets NULL in that column, and
    one that omits [aliases] or [labels] gets the JSON text of the empty
    list; a record with nothing but a text [id] and a text [name] is
    written; without the key [id], or without the key [name], the run
    stops with a KeyError and the table is left as it was. *)
Theorem optional_keys_default :
  (∀ (t : table) (r : json),
     is_record r = true ->
     let run := update_database_with_new_areas healthy (JArr [r]) t in
     clean run ∧
     ∃ i w, record_id r = Some i ∧ keyed (db run) !! i = Some w
       ∧ (field r (py "floor_id") = None -> floor_id w = None)
       ∧ (field r (py "icon") = None -> icon w = None)
       ∧ (field r (py "picture") = None -> picture w = None)
       ∧ (field r (py "created_at") = None -> created_at w = None)
       ∧ (field r (py "modified_at") = None -> modified_at w = None)
       ∧ (field r (py "aliases") = None -> aliases w = Some (dumps (JArr [])))
       ∧ (field r (py "labels") = None -> labels w = Some (dumps (JArr []))))
  ∧ (∀ (t : table) (i n : str),
       utf8_ok i = true -> utf8_ok n = true ->
       let r := JObj [(py "id", JStr i); (py "name", JStr n)] in
       let run := update_database_with_new_areas healthy (JArr [r]) t in
       clean run ∧
       keyed (db run) !! i =
         Some (Row n None None None None None (Some (py "[]")) (Some (py "[]"))))
  ∧ (∀ (t : table) (kvs : list (str * json)),
       dict_lookup kvs (py "id") = None ->
       let run := update_database_with_new_areas healthy (JArr [JObj kvs]) t in
       printed run = [DatabaseError (KeyError (py "id"))] ∧ db run = t)
  ∧ (∀ (t : table) (kvs : list (str * json)) (i : str),
       dict_lookup kvs (py "id") = Some (JStr i) ->
       dict_lookup kvs (py "name") = None ->
       let run := update_database_with_new_areas healthy (JArr [JObj kvs]) t in
       last (printed run) = Some (DatabaseError (KeyError (py "name")))
       ∧ db run = t).
Proof.
  split; [|split; [|split]].
  - intros t r Hr run.
    assert (Hs : is_snapshot [r] = true) by (cbn; by rewrite Hr).
    destruct (apply_snapshot [r] t Hs) as [H C]. fold run in H, C.
    split; [exact C|].
    destruct (record_id_is_Some r Hr) as [i Hi].
    exists i, (stored_row r). split; [exact Hi|]. split.
    { rewrite H. unfold mirrored. cbn [keyed]. rewrite lookup_mirror.
      change [r] with ([] ++ r :: []).
      rewrite (last_record_middle [] r [] i Hi); [done|].
      apply not_elem_of_empty. }
    unfold stored_row. cbn [floor_id icon picture created_at modified_at aliases labels].
    repeat split; intros E; rewrite ?E; try by apply field_absent_text.
    all: reflexivity.
  - intros t i n Hi Hn r run.
    assert (Hr : is_record r = true).
    { subst r. cbv -[utf8_ok]. by rewrite Hi, Hn. }
    assert (Hid : record_id r = Some i) by reflexivity.
    assert (Hrow : stored_row r
                   = Row n None None None None None (Some (py "[]")) (Some (py "[]")))
      by reflexivity.
    clearbody r.
    assert (Hs : is_snapshot [r] = true) by (cbn; by rewrite Hr).
    destruct (apply_snapshot [r] t Hs) as [H C]. fold run in H, C.
    split; [exact C|].
    rewrite H. unfold mirrored. cbn [keyed]. rewrite lookup_mirror.
    change [r] with ([] ++ r :: []).
    rewrite (last_record_middle [] r [] i Hid); [by rewrite <- Hrow|].
    apply not_elem_of_empty.
  - apply reconcile_no_id.
  - apply reconcile_no_name.
Qed.

Lemma optional_keys_default_witness :
  (is_record old_kitchen = true
   ∧ field old_kitchen (py "picture") = None
   ∧ field old_kitchen (py "labels") = None
   ∧ ∃ w, keyed (db (update_database_with_new_areas healthy (JArr [old_kitchen])
                       store_AB)) !! (py "A") = Some w
          ∧ picture w = None ∧ labels w = Some (py "[]"))
  ∧ (utf8_ok (py "B") = true ∧ utf8_ok (py "Attic") = true
     ∧ keyed (db (update_database_with_new_areas healthy (JArr [attic]) store_AB))
         !! (py "B")
       = Some (Row (py "Attic") None None None None None
                 (Some (py "[]")) (Some (py "[]"))))
  ∧ (dict_lookup [(py "name", JStr (py "Attic"))] (py "id") = None
     ∧ printed (update_database_with_new_areas healthy
                  (JArr [JObj [(py "name", JStr (py "Attic"))]]) store_AB)
       = [DatabaseError (KeyError (py "id"))])
  ∧ (dict_lookup [(py "id", JStr (py "B"))] (py "id") = Some (JStr (py "B"))
     ∧ dict_lookup [(py "id", JStr (py "B"))] (py "name") = None
     ∧ db (update_database_with_new_areas healthy
             (JArr [JObj [(py "id", JStr (py "B"))]]) store_AB)
       = store_AB).
Proof.
  destruct optional_keys_default as (H1 & H2 & H3 & H4).
  split; [|split; [|split]].
  - split; [reflexivity|]. split; [reflexivity|]. split; [reflexivity|].
    destruct (H1 store_AB old_kitchen eq_refl)
      as (_ & i & w & Hi & Hw & _ & _ & Hp & _ & _ & _ & Hl).
    injection Hi as <-. exists w. split; [exact Hw|].
    split; [exact (Hp eq_refl)|exact (Hl eq_refl)].
  - split; [reflexivity|]. split; [reflexivity|].
    exact (proj2 (H2 store_AB (py "B") (py "Attic") eq_refl eq_refl)).
  - split; [reflexivity|].
    exact (proj1 (H3 store_AB [(py "name", JStr (py "Attic"))] eq_refl)).
  - split; [reflexivity|]. split; [reflexivity|].
    exact (proj2 (H4 store_AB [(py "id", JStr (py "B"))] (py "B") eq_refl eq_refl)).
Defined.

(** ** The reader *)

(** C5, as the code has it.  A document that is an object without the key
    [data], or whose [data] is an object without the key [areas], reads
    as the empty list; an [areas] value that is there is handed on as it
    is; a document that is not an object at the top, or whose [data] is
    not an object, raises AttributeError. *)
Theorem reader_missing_segment (data : json) :
  (is_object data = true -> field data (py "data") = None ->
     read_areas (Document data) = Ok (JArr []))
  ∧ (∀ d, field data (py "data") = Some d -> is_object d = true ->
       field d (py "areas") = None ->
       read_areas (Document data) = Ok (JArr []))
  ∧ (∀ d a, field data (py "data") = Some d -> field d (py "areas") = Some a ->
       read_areas (Document data) = Ok a)
  ∧ (is_object data = false -> read_areas (Document data) = Raise AttributeError)
  ∧ (∀ d, field data (py "data") = Some d -> is_object d = false ->
       read_areas (Document data) = Raise AttributeError).
Proof.
  repeat split.
  - destruct data; try discriminate. cbn. by intros _ ->.
  - intros d. destruct data; try discriminate. cbn. intros ->.
    destruct d; try discriminate. cbn. by intros _ ->.
  - intros d a. destruct data; try discriminate. cbn. intros ->.
    destruct d; try discriminate. cbn. by intros ->.
  - by destruct data.
  - intros d. destruct data; try discriminate. cbn. intros ->. by destruct d.
Qed.

Lemma reader_missing_segment_witness :
  (is_object (JObj [(py "version", JInt 1)]) = true
   ∧ field (JObj [(py "version", JInt 1)]) (py "data") = None
   ∧ read_areas (Document (JObj [(py "version", JInt 1)])) = Ok (JArr []))
  ∧ (field (JObj [(py "data", JObj [])]) (py "data") = Some (JObj [])
     ∧ is_object (JObj []) = true
     ∧ field (JObj []) (py "areas") = None
     ∧ read_areas (Document (JObj [(py "data", JObj [])])) = Ok (JArr []))
  ∧ (field (JObj [(py "data", JObj [(py "areas", JInt 7)])]) (py "data")
       = Some (JObj [(py "areas", JInt 7)])
     ∧ field (JObj [(py "areas", JInt 7)]) (py "areas") = Some (JInt 7)
     ∧ read_areas (Document (JObj [(py "data", JObj [(py "areas", JInt 7)])]))
       = Ok (JInt 7))
  ∧ (is_object (JStr (py "areas")) = false
     ∧ read_areas (Document (JStr (py "areas"))) = Raise AttributeError)
  ∧ (field (JObj [(py "data", JNull)]) (py "data") = Some JNull
     ∧ is_object JNull = false
     ∧ read_areas (Document (JObj [(py "data", JNull)])) = Raise AttributeError).
Proof.
  split; [|split; [|split; [|split]]].
  - split; [reflexivity|]. split; [reflexivity|].
    exact (proj1 (reader_missing_segment (JObj [(py "version", JInt 1)]))
             eq_refl eq_refl).
  - split; [reflexivity|]. split; [reflexivity|]. split; [reflexivity|].
    destruct (reader_missing_segment (JObj [(py "data", JObj [])]))
      as (_ & H & _).
    exact (H (JObj []) eq_refl eq_refl eq_refl).
  - split; [reflexivity|]. split; [reflexivity|].
    destruct (reader_missing_segment
                (JObj [(py "data", JObj [(py "areas", JInt 7)])]))
      as (_ & _ & H & _).
    exact (H (JObj [(py "areas", JInt 7)]) (JInt 7) eq_refl eq_refl).
  - split; [reflexivity|].
    destruct (reader_missing_segment (JStr (py "areas"))) as (_ & _ & _ & H & _).
    exact (H eq_refl).
  - split; [reflexivity|]. split; [reflexivity|].
    destruct (reader_missing_segment (JObj [(py "data", JNull)]))
      as (_ & _ & _ & _ & H).
    exact (H JNull eq_refl eq_refl).
Defined.

(** C5 as stated does not hold: a document that is a list, and one whose
    [data] is a number, are well-formed JSON without the path, and reading
    them raises. *)
Lemma reader_raises_on_a_list :
  provides_areas (JArr []) = false
  ∧ read_areas (Document (JArr [])) = Raise AttributeError
  ∧ read_areas (Document (JArr [])) ≠ Ok (JArr [])
  ∧ provides_areas (JObj [(py "data", JInt 1)]) = false
  ∧ read_areas (Document (JObj [(py "data", JInt 1)])) = Raise AttributeError
  ∧ read_areas (Document (JObj [(py "data", JInt 1)])) ≠ Ok (JArr []).
Proof. repeat split; discriminate. Qed.

(** ** The polling loop *)

Section Poll.
Context {T : Type} `{EqDecision T}.

(** C7 (the signal is kept on failure).  In a turn of the loop in which
    [getmtime], the read of the snapshot or the [put] on the queue fails,
    [last_modified_time] and the queue are as before; the variable
    changes only in a turn that read the snapshot and put it on the
    queue, and then to the time just observed; and a change that was
    detected in a failed turn is detected again while the file keeps that
    time. *)
Theorem failed_tick_keeps_signal (e : env (T:=T)) (last : option T) (q : list json) :
  let '(last', q', _) := poll_file_changes e last q in
  ((∃ x, getmtime e = Raise x) ∨ (∃ x, read_areas (content e) = Raise x)
     ∨ put_ok e = false ->
     last' = last ∧ q' = q)
  ∧ (last' ≠ last ->
       ∃ current a, getmtime e = Ok current ∧ read_areas (content e) = Ok a
         ∧ put_ok e = true ∧ last' = Some current ∧ q' = q ++ [a])
  ∧ (∀ current, getmtime e = Ok current -> modified last current = true ->
       last' = last -> modified last' current = true).
Proof.
  unfold poll_file_changes.
  destruct (getmtime e) as [current|x].
  - destruct (modified last current) eqn:Hm.
    + destruct (read_areas (content e)) as [a|x].
      * destruct (put_ok e) eqn:Hp.
        -- split; [|split].
           ++ intros [[x Hx]|[[x Hx]|Hx]]; discriminate.
           ++ intros _. by exists current, a.
           ++ intros c [= <-] _ <-. exact Hm.
        -- split; [done|]. split; [done|]. by intros c [= <-] _ _.
      * split; [done|]. split; [done|]. by intros c [= <-] _ _.
    + split; [done|]. split; [done|]. intros c [= <-]. by rewrite Hm.
  - split; [done|]. split; [done|]. done.
Qed.

End Poll.

(** The file changed (time 2 after time 1) and is not JSON: the turn
    keeps the time 1, and the change is seen again in the next turn.  A
    first turn on the good file takes its time and publishes its areas. *)
Lemma failed_tick_keeps_signal_witness :
  ((∃ x, read_areas (content garbled_file) = Raise x)
   ∧ (poll_file_changes garbled_file (Some 1%Z) [JArr []]).1
     = (Some 1%Z, [JArr []])
   ∧ modified (Some 1%Z) 2%Z = true)
  ∧ ((poll_file_changes registry_file None []).1.1 ≠ None
     ∧ ∃ current a,
         getmtime registry_file = Ok current
         ∧ read_areas (content registry_file) = Ok a
         ∧ (poll_file_changes registry_file None []).1 = (Some current, [] ++ [a])).
Proof.
  split.
  - pose proof (failed_tick_keeps_signal garbled_file (Some 1%Z) [JArr []]) as H.
    cbn in H. destruct H as (H1 & _ & H3).
    assert (Hx : ∃ x, Raise (A:=json) JSONDecodeError = Raise x) by by eexists.
    split; [exact Hx|].
    destruct (H1 (or_intror (or_introl Hx))) as [E1 E2].
    split; [reflexivity|].
    exact (H3 2%Z eq_refl eq_refl eq_refl).
  - pose proof (failed_tick_keeps_signal registry_file None []) as H.
    cbn in H. destruct H as (_ & H2 & _).
    assert (Hne : Some 1%Z ≠ None) by discriminate.
    split; [exact Hne|].
    destruct (H2 Hne) as (current & a & E1 & E2 & _ & E4 & E5).
    exists current, a. split; [exact E1|]. split; [exact E2|].
    injection E1 as <-. injection E2 as <-. reflexivity.
Defined.

(** ** The threads at startup *)

Lemma precedes_nil a b : precedes a b [].
Proof. intros h1 h2 H. by destruct h1. Qed.

Lemma precedes_snoc a b x h :
  precedes a b h -> (x = b -> a ∈ h) -> precedes a b (h ++ [x]).
Proof.
  intros Hp Hx h1 h2 E.
  destruct h2 as [|y h2 _] using rev_ind.
  - apply app_inj_tail in E as [-> ->]. by apply Hx.
  - change (h1 ++ b :: h2 ++ [y]) with (h1 ++ (b :: h2) ++ [y]) in E.
    rewrite app_assoc in E. apply app_inj_tail in E as [-> ->].
    by apply (Hp h1 h2).
Qed.

Section Threads.
Context {T : Type} `{EqDecision T}.

Lemma startup_order_start t : startup_order (T:=T) (start t).
Proof.
  unfold startup_order, start. cbn.
  repeat split; try (intros; lia); try apply precedes_nil.
  by intros [].
Qed.

Ltac mem :=
  match goal with
  | |- _ ∈ _ ++ _ =>
      apply elem_of_app; first [ right; solve [repeat constructor] | left; mem ]
  | |- _ ∈ history _ => solve [auto with lia]
  end.

Ltac order_goal :=
  intros;
  match goal with
  | |- _ ≤ _ =>
      first [ lia
            | match goal with
              | H6 : is_Some _ -> _, H : is_Some _ |- _ => apply H6 in H; lia
              end ]
  | |- _ ∈ _ => mem
  | |- precedes _ _ (?h ++ [?a; ?b]) =>
      change (h ++ [a; b]) with (h ++ [a] ++ [b]); rewrite app_assoc; order_goal
  | |- precedes _ _ (_ ++ [_]) =>
      apply precedes_snoc;
        [ first [assumption | order_goal]
        | intros; first [discriminate | mem] ]
  end.

Lemma startup_order_step (p : process (T:=T)) te :
  startup_order p -> startup_order (step p te).
Proof.
  intros Hp. unfold step. destruct (alive p) eqn:Ha; [|exact Hp].
  pose proof Hp as Hp0.
  destruct Hp as (H1 & H2 & H3 & H4 & H5 & H6 & P1 & P2 & P3 & P4 & P5 & P6).
  destruct te as [[] e]; cbn [fst snd].
  - (* main *)
    unfold main.
    destruct (pc p) as [|[|[|[|[|[|n]]]]]] eqn:Hpc; [| | | | | |exact Hp0].
    + cbv zeta.
      destruct (init_result (initialize_database (db_fails e) (database p)));
        unfold startup_order; cbn [history pc alive polling];
        repeat split; first [order_goal | discriminate].
    + destruct (file_exists e); unfold startup_order; cbn [history pc alive polling];
        repeat split; first [order_goal | discriminate].
    + unfold startup_order; cbn [history pc alive polling].
      repeat split; order_goal.
    + unfold startup_order; cbn [history pc alive polling].
      repeat split; order_goal.
    + destruct (read_areas (content e)); unfold startup_order;
        cbn [history pc alive polling];
        repeat split; first [order_goal | discriminate].
    + unfold startup_order; cbn [history pc alive polling].
      repeat split; order_goal.
  - (* polling *)
    unfold polling_step. destruct (polling p) as [l|] eqn:Hl; [|exact Hp0].
    destruct (poll_file_changes e l (update_queue p)) as [[l' q'] ?].
    assert (3 ≤ pc p) by (apply H6; by eexists).
    unfold startup_order; cbn [history pc alive polling].
    repeat split; order_goal.
  - (* updater *)
    unfold updater_step. destruct (updating p) eqn:Hu; [|exact Hp0].
    destruct (update_queue p) as [|a q] eqn:Hq; [exact Hp0|].
    destruct (database p) as [t|];
      [destruct (database_updater e (a :: q) t) as [[q' t'] ?]|];
      unfold startup_order; cbn [history pc alive polling];
      repeat split; order_goal.
Qed.

Lemma startup_order_exec schedule : ∀ p : process (T:=T),
  startup_order p -> startup_order (exec schedule p).
Proof.
  induction schedule as [|te s IH]; intros p Hp; [exact Hp|].
  apply IH, startup_order_step, Hp.
Qed.

(** C6, as the code has it.  [main] starts the polling thread and the
    updater thread before the initial sync: in every run, under every
    scheduling, the polling loop looks at the file only after the table
    was initialised, the file was checked and the thread was started, and
    the initial sync reads the file only after both threads were started,
    and applies what it read after reading it.  Nothing orders the first
    look of the polling loop and the initial sync: there is a run in
    which the loop has looked and the sync has not begun, and a run in
    which the sync is done and the loop has not looked. *)
Theorem workers_start_before_sync (file : option table) :
  (∀ schedule : list (thread * env (T:=T)),
     let h := history (exec schedule (start file)) in
     precedes InitDatabase Observed h
     ∧ precedes FileChecked Observed h
     ∧ precedes PollingStarted Observed h
     ∧ precedes PollingStarted SyncRead h
     ∧ precedes UpdaterStarted SyncRead h
     ∧ precedes SyncRead SyncApplied h)
  ∧ (∃ schedule : list (thread * env (T:=T)),
       let h := history (exec schedule (start file)) in
       Observed ∈ h ∧ (SyncRead ∉ h) ∧ (SyncApplied ∉ h))
  ∧ (∃ schedule : list (thread * env (T:=T)),
       let h := history (exec schedule (start file)) in
       SyncApplied ∈ h ∧ (Observed ∉ h)).
Proof.
  split; [|split].
  - intros schedule h.
    destruct (startup_order_exec schedule (start file) (startup_order_start file))
      as (_ & _ & _ & _ & _ & _ & H).
    exact H.
  - exists [(MainThread, bare_file); (MainThread, bare_file);
            (MainThread, bare_file); (PollingThread, bare_file)].
    cbn. split; [repeat constructor|].
    split; intros H; repeat (apply elem_of_cons in H as [H|H]; [discriminate|]);
      by apply elem_of_nil in H.
  - exists [(MainThread, bare_file); (MainThread, bare_file);
            (MainThread, bare_file); (MainThread, bare_file);
            (MainThread, bare_file); (MainThread, bare_file)].
    cbn. split; [repeat constructor|].
    intros H; repeat (apply elem_of_cons in H as [H|H]; [discriminate|]);
      by apply elem_of_nil in H.
Qed.

End Threads.

Lemma workers_start_before_sync_witness :
  history full_startup
  = [InitDatabase; FileChecked; PollingStarted; UpdaterStarted; Observed;
     Consumed; SyncRead; SyncApplied]
  ∧ precedes PollingStarted Observed (history full_startup)
  ∧ precedes PollingStarted SyncRead (history full_startup)
  ∧ precedes SyncRead SyncApplied (history full_startup).
Proof.
  split; [reflexivity|].
  pose proof (proj1 (workers_start_before_sync (Some store_AB))
                [(MainThread, registry_file); (MainThread, registry_file);
                 (MainThread, registry_file); (MainThread, registry_file);
                 (PollingThread, registry_file); (UpdaterThread, registry_file);
                 (MainThread, registry_file); (MainThread, registry_file)])
    as (_ & _ & H3 & H4 & _ & H6).
  split; [exact H3|]. split; [exact H4|exact H6].
Defined.

(** C6 as stated does not hold: once [main] has started the two threads,
    the polling loop may look at the file and publish the snapshot, and
    the updater may apply it, before the initial sync has read anything. *)
Lemma poller_runs_before_sync :
  history early_poll
  = [InitDatabase; FileChecked; PollingStarted; UpdaterStarted; Observed; Consumed]
  ∧ database early_poll = Some (mirror [kitchen; garage])
  ∧ ¬ precedes SyncApplied Observed (history early_poll).
Proof.
  split; [reflexivity|]. split; [by vm_compute|].
  intros H.
  specialize (H [InitDatabase; FileChecked; PollingStarted; UpdaterStarted]
                [Consumed] eq_refl).
  repeat (apply elem_of_cons in H as [H|H]; [discriminate|]).
  by apply elem_of_nil in H.
Qed.

(** ** The escapes of [json.dumps] read back *)

Lemma hex_value_digit d : (d < 16)%N -> hex_value (hex_digit d) = Some d.
Proof.
  intros Hd. unfold hex_digit, hex_value.
  destruct (d <? 10)%N eqn:E.
  - apply N.ltb_lt in E.
    replace ((48 <=? 48 + d) && (48 + d <=? 57))%N with true.
    + f_equal. lia.
    + symmetry. apply andb_true_iff. split; apply N.leb_le; lia.
  - apply N.ltb_ge in E.
    replace ((48 <=? 87 + d) && (87 + d <=? 57))%N with false.
    + replace ((97 <=? 87 + d) && (87 + d <=? 102))%N with true.
      * f_equal. lia.
      * symmetry. apply andb_true_iff. split; apply N.leb_le; lia.
    + symmetry. apply andb_false_iff. right. apply N.leb_gt. lia.
Qed.

Lemma hex4_sum n :
  (n < 65536)%N ->
  (n / 4096 mod 16 * 4096 + n / 256 mod 16 * 256 + n / 16 mod 16 * 16 + n mod 16 = n)%N.
Proof.
  intros Hn.
  assert (D1 : (n / 16 / 16 = n / 256)%N) by (by rewrite N.Div0.div_div).
  assert (D2 : (n / 256 / 16 = n / 4096)%N) by (by rewrite N.Div0.div_div).
  pose proof (N.div_mod n 16 ltac:(lia)) as E0.
  pose proof (N.div_mod (n / 16) 16 ltac:(lia)) as E1.
  pose proof (N.div_mod (n / 256) 16 ltac:(lia)) as E2.
  rewrite D1 in E1. rewrite D2 in E2.
  assert (n / 4096 < 16)%N by (apply N.Div0.div_lt_upper_bound; lia).
  rewrite (N.mod_small (n / 4096) 16) by assumption.
  lia.
Qed.

Lemma take_hex4_hex4 n rest :
  (n < 65536)%N -> take_hex4 (hex4 n ++ rest) = Some (n, rest).
Proof.
  intros Hn. unfold hex4, take_hex4. cbn [app].
  rewrite !hex_value_digit by (apply N.mod_upper_bound; lia).
  cbn [mbind option_bind]. by rewrite hex4_sum.
Qed.

Lemma lor_shiftl_small a b k :
  (b < 2 ^ k)%N -> N.lor (N.shiftl a k) b = (N.shiftl a k + b)%N.
Proof.
  intros Hb.
  assert (Hl : N.land (N.shiftl a k) b = 0%N).
  { apply N.bits_inj_0. intros i. rewrite N.land_spec.
    destruct (N.lt_ge_cases i k) as [Hi|Hi].
    - by rewrite N.shiftl_spec_low.
    - rewrite <- (N.mod_small b (2 ^ k)) by exact Hb.
      rewrite N.mod_pow2_bits_high by exact Hi. apply andb_false_r. }
  by rewrite N.add_nocarry_lxor, N.lxor_lor.
Qed.

(** The two halves of a character outside the basic plane. *)
Lemma surrogate_pair c :
  (0x10000 <= c)%N -> (c < 0x110000)%N ->
  let n := (c - 0x10000)%N in
  let hi := N.lor 0xD800 (N.land (N.shiftr n 10) 0x3FF) in
  let lo := N.lor 0xDC00 (N.land n 0x3FF) in
  is_high_surrogate hi = true ∧ is_low_surrogate lo = true
  ∧ (0x10000 + N.lor (N.shiftl (hi - 0xD800) 10) (lo - 0xDC00))%N = c.
Proof.
  intros H1 H2 n hi lo.
  assert (Hn : (n < 1048576)%N) by (subst n; lia).
  assert (Hq : (n / 1024 < 1024)%N) by (apply N.Div0.div_lt_upper_bound; lia).
  assert (Hr : (n mod 1024 < 1024)%N) by (apply N.mod_upper_bound; lia).
  assert (Hhi : hi = (0xD800 + n / 1024)%N).
  { subst hi. change 0x3FF%N with (N.ones 10). rewrite N.land_ones.
    rewrite N.shiftr_div_pow2. change (2 ^ 10)%N with 1024%N.
    rewrite (N.mod_small (n / 1024)) by exact Hq.
    change 0xD800%N with (N.shiftl 54 10).
    apply lor_shiftl_small. exact Hq. }
  assert (Hlo : lo = (0xDC00 + n mod 1024)%N).
  { subst lo. change 0x3FF%N with (N.ones 10). rewrite N.land_ones.
    change (2 ^ 10)%N with 1024%N.
    change 0xDC00%N with (N.shiftl 55 10).
    apply lor_shiftl_small. exact Hr. }
  assert (Hc : c = (0x10000 + n)%N) by (unfold n; lia).
  rewrite Hhi, Hlo. clear Hhi Hlo. clearbody hi lo n.
  pose proof (N.le_0_l (n / 1024)). pose proof (N.le_0_l (n mod 1024)).
  split; [|split].
  - unfold is_high_surrogate. apply andb_true_iff. split; apply N.leb_le; lia.
  - unfold is_low_surrogate. apply andb_true_iff. split; apply N.leb_le; lia.
  - replace (0xD800 + n / 1024 - 0xD800)%N with (n / 1024)%N by lia.
    replace (0xDC00 + n mod 1024 - 0xDC00)%N with (n mod 1024)%N by lia.
    rewrite lor_shiftl_small by exact Hr.
    rewrite N.shiftl_mul_pow2. change (2 ^ 10)%N with 1024%N.
    pose proof (N.div_mod n 1024 ltac:(lia)). lia.
Qed.

Lemma escape_char_written c : (c < 0x110000)%N -> written c (escape_char c).
Proof.
  intros Hc. unfold escape_char.
  destruct (N.eqb_spec c 34) as [->|H34]; [by apply written_short|].
  destruct (N.eqb_spec c 92) as [->|H92]; [by apply written_short|].
  destruct (N.eqb_spec c 10) as [->|?]; [by apply written_short|].
  destruct (N.eqb_spec c 13) as [->|?]; [by apply written_short|].
  destruct (N.eqb_spec c 9) as [->|?]; [by apply written_short|].
  destruct (N.eqb_spec c 8) as [->|?]; [by apply written_short|].
  destruct (N.eqb_spec c 12) as [->|?]; [by apply written_short|].
  destruct ((32 <=? c) && (c <=? 126))%N eqn:E.
  - apply andb_true_iff in E as [E _]. apply N.leb_le in E.
    by apply written_plain.
  - destruct (N.ltb_spec c 0x10000) as [Hlt|Hge]; [by apply written_u|].
    destruct (surrogate_pair c Hge Hc) as (Hh & Hl & Hj).
    apply written_pair; try done.
    + unfold is_high_surrogate in Hh. apply andb_true_iff in Hh as [_ Hh].
      apply N.leb_le in Hh. lia.
    + unfold is_low_surrogate in Hl. apply andb_true_iff in Hl as [_ Hl].
      apply N.leb_le in Hl. lia.
Qed.

Lemma high_not_low u : is_high_surrogate u = true -> is_low_surrogate u = false.
Proof.
  unfold is_high_surrogate, is_low_surrogate. intros [_ H]%andb_true_iff.
  apply N.leb_le in H. apply andb_false_iff. left. apply N.leb_gt. lia.
Qed.

Lemma no_low_ahead_written c w tail :
  written c w -> is_low_surrogate c = false -> no_low_ahead (w ++ tail).
Proof.
  intros Hw Hc. unfold no_low_ahead. destruct Hw as [e He _| H34 H92 _ | Hlt | hi lo Hhi _ Hh _ _].
  - cbn [app next_escape]. apply N.eqb_neq in He. by rewrite N.eqb_refl, He.
  - cbn [app next_escape]. apply N.eqb_neq in H92. by rewrite H92.
  - unfold u_escape. cbn [app next_escape]. rewrite !N.eqb_refl.
    by rewrite take_hex4_hex4.
  - unfold u_escape. cbn [app next_escape]. rewrite !N.eqb_refl.
    rewrite <- app_assoc, take_hex4_hex4 by exact Hhi.
    by apply high_not_low.
Qed.

(** One turn of [scan] reads what [escape_char] wrote. *)
Lemma scan_written c w tail fuel :
  written c w ->
  (is_high_surrogate c = true -> no_low_ahead tail) ->
  scan (S fuel) (w ++ tail) = push c (scan fuel tail).
Proof.
  intros Hw Hahead. destruct Hw as [e He Hs| H34 H92 H32 | Hlt | hi lo Hhi Hlo Hh Hl Hj].
  - cbn [app scan]. apply N.eqb_neq in He.
    change (92 =? 34)%N with false. change (92 =? 92)%N with true.
    cbn match. by rewrite He, Hs.
  - cbn [app scan]. apply N.eqb_neq in H34, H92.
    rewrite H34, H92. apply N.ltb_ge in H32. by rewrite H32.
  - unfold u_escape. cbn [app scan].
    change (92 =? 34)%N with false. change (92 =? 92)%N with true.
    change (117 =? 117)%N with true. cbn match.
    rewrite take_hex4_hex4 by exact Hlt.
    destruct (is_high_surrogate c) eqn:Hc; [|done].
    specialize (Hahead eq_refl). unfold no_low_ahead in Hahead.
    destruct (next_escape tail) as [[[u r]|]|]; [|done|done].
    by rewrite Hahead.
  - unfold u_escape. cbn [app scan].
    change (92 =? 34)%N with false. change (92 =? 92)%N with true.
    change (117 =? 117)%N with true. cbn match.
    rewrite <- app_assoc, take_hex4_hex4 by exact Hhi.
    rewrite Hh. cbn [app next_escape].
    change (92 =? 92)%N with true. change (117 =? 117)%N with true. cbn match.
    rewrite take_hex4_hex4 by exact Hlo. by rewrite Hl, Hj.
Qed.

Lemma length_written c w : written c w -> 1 ≤ length w.
Proof. intros []; cbn; lia. Qed.

Lemma decodable_cons c s :
  decodable (c :: s) = true ->
  (c < 0x110000)%N ∧ decodable s = true
  ∧ (is_high_surrogate c = true ->
       match s with c' :: _ => is_low_surrogate c' = false | [] => True end).
Proof.
  unfold decodable. cbn [forallb no_split_pair].
  rewrite !andb_true_iff. intros [[Hc Hs] [Hp Hn]].
  apply N.ltb_lt in Hc. repeat split; auto.
  intros Hh. destruct s as [|c' s']; [done|].
  rewrite Hh in Hp. cbn in Hp. by destruct (is_low_surrogate c').
Qed.

(** [scan] undoes the escaping of [dumps_str], up to the closing quote. *)
Lemma scan_escaped s : ∀ fuel rest,
  decodable s = true ->
  length ((s ≫= escape_char) ++ 34%N :: rest) ≤ fuel ->
  scan fuel ((s ≫= escape_char) ++ 34%N :: rest) = Some (s, rest).
Proof.
  induction s as [|c s IH]; intros fuel rest Hd Hf.
  - destruct fuel as [|fuel]; [cbn in Hf; lia|]. reflexivity.
  - apply decodable_cons in Hd as (Hc & Hd & Hp).
    pose proof (escape_char_written c Hc) as Hw.
    cbn [mbind list_bind] in *. rewrite <- app_assoc in *.
    rewrite length_app in Hf. pose proof (length_written _ _ Hw).
    destruct fuel as [|fuel]; [lia|].
    rewrite (scan_written c _ _ fuel Hw).
    + rewrite IH; [done|exact Hd|lia].
    + intros Hh. specialize (Hp Hh). destruct s as [|c' s'].
      * done.
      * apply decodable_cons in Hd as (Hc' & _ & _).
        cbn [mbind list_bind]. rewrite <- app_assoc.
        apply (no_low_ahead_written c'); [by apply escape_char_written|exact Hp].
Qed.

Lemma scanstring_dumps_str s rest :
  decodable s = true ->
  ∃ tail, dumps_str s ++ rest = 34%N :: tail ∧ scanstring tail = Some (s, rest).
Proof.
  intros Hd. unfold dumps_str. eexists. split.
  - cbn [app]. rewrite <- app_assoc. reflexivity.
  - unfold scanstring. cbn [app]. by apply scan_escaped.
Qed.

(** ** Arrays of strings *)

Lemma dumps_str_list v :
  dumps (JArr (JStr <$> v)) = 91%N :: join (py ", ") (dumps_str <$> v) ++ [93%N].
Proof.
  cbn [dumps]. do 3 f_equal. induction v as [|x v IH]; [done|].
  cbn [fmap list_fmap map dumps]. f_equal. exact IH.
Qed.

Lemma scan_items_space fuel s : scan_items fuel (32%N :: s) = scan_items fuel s.
Proof. by destruct fuel. Qed.

Lemma scan_items_join v : ∀ x fuel tail,
  forallb decodable (x :: v) = true ->
  length (x :: v) ≤ fuel ->
  scan_items fuel (join (py ", ") (dumps_str <$> x :: v) ++ 93%N :: tail)
  = Some (x :: v, tail).
Proof.
  induction v as [|y v IH]; intros x fuel tail Hd Hf.
  - cbn in Hd. rewrite andb_true_r in Hd.
    destruct fuel as [|fuel]; [cbn in Hf; lia|].
    cbn [fmap list_fmap join].
    destruct (scanstring_dumps_str x (93%N :: tail) Hd) as (body & -> & Hs).
    cbn [scan_items skip_whitespace]. change (is_whitespace 34) with false.
    cbn match. change (34 =? 34)%N with true. cbn match.
    rewrite Hs. reflexivity.
  - cbn [forallb] in Hd. apply andb_true_iff in Hd as [Hx Hd].
    destruct fuel as [|fuel]; [cbn in Hf; lia|].
    change (join (py ", ") (dumps_str <$> x :: y :: v))
      with (dumps_str x ++ py ", " ++ join (py ", ") (dumps_str <$> y :: v)).
    rewrite <- !app_assoc.
    destruct (scanstring_dumps_str x
                (py ", " ++ join (py ", ") (dumps_str <$> y :: v) ++ 93%N :: tail) Hx)
      as (body & -> & Hs).
    cbn [scan_items skip_whitespace]. change (is_whitespace 34) with false.
    cbn match. change (34 =? 34)%N with true. cbn match.
    rewrite Hs. change (py ", ") with [44%N; 32%N]. cbn [app skip_whitespace].
    change (is_whitespace 44) with false. cbn match.
    change (44 =? 93)%N with false. change (44 =? 44)%N with true. cbn match.
    rewrite scan_items_space, IH; [done|exact Hd|cbn in *; lia].
Qed.

Lemma length_join_ge sep (items : list str) :
  Forall (fun x => 1 ≤ length x) items -> length items ≤ length (join sep items).
Proof.
  induction 1 as [|x l Hx Hl IH]; [done|].
  destruct l as [|y l]; [cbn; lia|].
  change (join sep (x :: y :: l)) with (x ++ sep ++ join sep (y :: l)).
  rewrite !length_app. cbn [length] in *. lia.
Qed.

Lemma loads_dumps_str_list v :
  forallb decodable v = true ->
  loads_str_list (dumps (JArr (JStr <$> v))) = Some v.
Proof.
  intros Hd. rewrite dumps_str_list. destruct v as [|x v]; [reflexivity|].
  unfold loads_str_list. cbn [skip_whitespace].
  change (is_whitespace 91) with false. cbn match.
  change (91 =? 91)%N with true. cbn match.
  assert (Hx : decodable x = true) by (cbn in Hd; by apply andb_true_iff in Hd as [? _]).
  assert (Hj : ∃ body, join (py ", ") (dumps_str <$> x :: v) = 34%N :: body).
  { destruct v; cbn; eauto. }
  destruct Hj as (body & Hj).
  assert (Hlen : length (x :: v) ≤ length (join (py ", ") (dumps_str <$> x :: v) ++ [93%N])).
  { rewrite length_app. etrans; [|apply Nat.le_add_r].
    etrans; [|apply length_join_ge].
    - by rewrite length_fmap.
    - apply Forall_fmap, Forall_forall. intros s _. cbn. lia. }
  pose proof (scan_items_join v x _ [] Hd Hlen) as Hs.
  rewrite Hj in *. cbn [app skip_whitespace] in *.
  change (is_whitespace 34) with false. cbn match.
  change (34 =? 93)%N with false. cbn match.
  cbn [app length] in Hs. cbn [length]. rewrite Hs. reflexivity.
Qed.


(** ** Every string read from a JSON text can be written and read back *)

Lemma hex_value_lt c d : hex_value c = Some d -> (d < 16)%N.
Proof.
  unfold hex_value.
  destruct ((48 <=? c) && (c <=? 57))%N eqn:E1.
  { apply andb_true_iff in E1 as [H1 H2]. apply N.leb_le in H1, H2.
    intros [= <-]. lia. }
  destruct ((97 <=? c) && (c <=? 102))%N eqn:E2.
  { apply andb_true_iff in E2 as [H1 H2]. apply N.leb_le in H1, H2.
    intros [= <-]. lia. }
  destruct ((65 <=? c) && (c <=? 70))%N eqn:E3; [|done].
  apply andb_true_iff in E3 as [H1 H2]. apply N.leb_le in H1, H2.
  intros [= <-]. lia.
Qed.

Lemma take_hex4_Some s u rest :
  take_hex4 s = Some (u, rest) ->
  (u < 65536)%N ∧ ∃ a b c d, s = a :: b :: c :: d :: rest.
Proof.
  destruct s as [|a [|b [|c [|d s]]]]; try discriminate. cbn [take_hex4].
  destruct (hex_value a) as [x|] eqn:Ea; [|discriminate].
  destruct (hex_value b) as [y|] eqn:Eb; [|discriminate].
  destruct (hex_value c) as [z|] eqn:Ec; [|discriminate].
  destruct (hex_value d) as [w|] eqn:Ed; [|discriminate].
  cbn. intros [= <- <-].
  apply hex_value_lt in Ea, Eb, Ec, Ed. split; [lia|]. by exists a, b, c, d.
Qed.

Lemma push_Some c r x rest :
  push c r = Some (x, rest) -> ∃ x', r = Some (x', rest) ∧ x = c :: x'.
Proof. destruct r as [[x' rest']|]; [|done]. intros [= <- <-]. eauto. Qed.

Lemma decodable_cons_intro c x :
  (c < 0x110000)%N -> decodable x = true ->
  (is_high_surrogate c = true ->
     match x with c' :: _ => is_low_surrogate c' = false | [] => True end) ->
  decodable (c :: x) = true.
Proof.
  unfold decodable. cbn [forallb no_split_pair].
  rewrite !andb_true_iff. intros Hc [Hx Hn] Hp.
  apply N.ltb_lt in Hc. repeat split; auto.
  destruct x as [|c' x']; [done|].
  destruct (is_high_surrogate c); [|done]. by rewrite Hp.
Qed.

Lemma scalar_facts c :
  is_scalar c = true ->
  (c < 0x110000)%N ∧ is_high_surrogate c = false ∧ is_low_surrogate c = false.
Proof.
  unfold is_scalar, is_high_surrogate, is_low_surrogate.
  intros [H|[H1 H2]%andb_true_iff]%orb_true_iff.
  - apply N.ltb_lt in H. repeat split; [lia| |]; apply andb_false_iff; left;
      apply N.leb_gt; lia.
  - apply N.ltb_lt in H1, H2. repeat split; [lia| |]; apply andb_false_iff; right;
      apply N.leb_gt; lia.
Qed.

Lemma simple_escape_facts e c :
  simple_escape e = Some c ->
  (c < 0x110000)%N ∧ is_high_surrogate c = false ∧ is_low_surrogate c = false.
Proof.
  unfold simple_escape.
  repeat (destruct (_ =? _)%N; [intros [= <-]; by repeat split|]). done.
Qed.

Lemma joined_facts hi lo :
  is_high_surrogate hi = true -> is_low_surrogate lo = true ->
  let c := (0x10000 + N.lor (N.shiftl (hi - 0xD800) 10) (lo - 0xDC00))%N in
  (c < 0x110000)%N ∧ is_high_surrogate c = false ∧ is_low_surrogate c = false.
Proof.
  unfold is_high_surrogate, is_low_surrogate.
  intros [H1 H2]%andb_true_iff [H3 H4]%andb_true_iff.
  apply N.leb_le in H1, H2, H3, H4. cbv zeta.
  rewrite lor_shiftl_small by (change (2 ^ 10)%N with 1024%N; lia).
  rewrite N.shiftl_mul_pow2. change (2 ^ 10)%N with 1024%N.
  repeat split; [lia| |]; apply andb_false_iff; right; apply N.leb_gt; lia.
Qed.

Lemma scan_decodable fuel : ∀ s x rest,
  utf8_ok s = true -> scan fuel s = Some (x, rest) ->
  decodable x = true ∧ low_from_escape s x ∧ utf8_ok rest = true.
Proof.
  induction fuel as [|fuel IH]; intros s x rest Hs; [done|].
  destruct s as [|c s]; [done|]. cbn [scan].
  cbn [utf8_ok forallb] in Hs. apply andb_true_iff in Hs as [Hc Hs].
  destruct (N.eqb_spec c 34) as [->|H34].
  { intros [= <- <-]. by repeat split. }
  destruct (N.eqb_spec c 92) as [->|H92].
  - destruct s as [|e s1]; [done|].
    cbn [forallb] in Hs. apply andb_true_iff in Hs as [He Hs1].
    destruct (N.eqb_spec e 117) as [->|H117].
    + destruct (take_hex4 s1) as [[uni s2]|] eqn:Eu; [|done].
      destruct (take_hex4_Some _ _ _ Eu) as (Hu & a & b & c & d & ->).
      assert (Hs2 : utf8_ok s2 = true).
      { cbn [forallb] in Hs1. by repeat apply andb_true_iff in Hs1 as [_ Hs1]. }
      assert (Hlone : ∀ x rest,
                 (is_high_surrogate uni = true ->
                    match next_escape s2 with
                    | Some (Some (u2, _)) => is_low_surrogate u2 = false
                    | _ => True
                    end) ->
                 push uni (scan fuel s2) = Some (x, rest) ->
                 decodable x = true
                 ∧ low_from_escape (92%N :: 117%N :: a :: b :: c :: d :: s2) x
                 ∧ utf8_ok rest = true).
      { intros x0 rest0 Hnext (x' & Hx' & ->)%push_Some.
        destruct (IH _ _ _ Hs2 Hx') as (Hd & Hl & Hr).
        split; [|split; [|exact Hr]].
        - apply decodable_cons_intro; [lia|exact Hd|].
          intros Hh. specialize (Hnext Hh). destruct x' as [|c' x'']; [done|].
          destruct (is_low_surrogate c') eqn:Hc'; [|done].
          destruct (Hl Hc') as (r & Hr'). rewrite Hr' in Hnext. congruence.
        - intros _. exists s2. cbn [next_escape].
          change (92 =? 92)%N with true. change (117 =? 117)%N with true.
          cbn match. by rewrite Eu. }
      destruct (is_high_surrogate uni) eqn:Hh; [|by apply Hlone].
      destruct (next_escape s2) as [[[uni2 s3]|]|] eqn:En; [| |done].
      * destruct (is_low_surrogate uni2) eqn:Hl2.
        -- intros (x' & Hx' & ->)%push_Some.
           destruct (joined_facts uni uni2 Hh Hl2) as (J1 & J2 & J3).
           assert (Hs3 : utf8_ok s3 = true).
           { unfold next_escape in En.
             destruct s2 as [|b1 [|b2 s2']]; try done;
               destruct (b1 =? 92)%N; try done.
             destruct (b2 =? 117)%N; [|done].
             destruct (take_hex4 s2') as [[u r]|] eqn:Et; [|done].
             injection En as <- <-.
             destruct (take_hex4_Some _ _ _ Et) as (_ & a' & b' & c' & d' & ->).
             cbn [utf8_ok forallb] in Hs2.
             by repeat apply andb_true_iff in Hs2 as [_ Hs2]. }
           destruct (IH _ _ _ Hs3 Hx') as (Hd & _ & Hr).
           split; [|split; [|exact Hr]].
           ++ apply decodable_cons_intro; [exact J1|exact Hd|].
              intros Hh'. congruence.
           ++ intros Hl'. cbn in J3. congruence.
        -- apply Hlone. by intros _.
      * apply Hlone. by intros _.
    + destruct (simple_escape e) as [ch|] eqn:Ee; [|done].
      intros (x' & Hx' & ->)%push_Some.
      destruct (simple_escape_facts _ _ Ee) as (E1 & E2 & E3).
      destruct (IH _ _ _ Hs1 Hx') as (Hd & _ & Hr).
      split; [|split; [|exact Hr]].
      * apply decodable_cons_intro; [exact E1|exact Hd|]. intros Hh. congruence.
      * intros Hl. cbn in Hl. congruence.
  - destruct (c <? 32)%N; [done|].
    intros (x' & Hx' & ->)%push_Some.
    destruct (scalar_facts _ Hc) as (E1 & E2 & E3).
    destruct (IH _ _ _ Hs Hx') as (Hd & _ & Hr).
    split; [|split; [|exact Hr]].
    + apply decodable_cons_intro; [exact E1|exact Hd|]. intros Hh. congruence.
    + intros Hl. cbn in Hl. congruence.
Qed.

Lemma utf8_ok_decodable s : utf8_ok s = true -> decodable s = true.
Proof.
  induction s as [|c s IH]; [done|].
  cbn [utf8_ok forallb]. intros [Hc Hs]%andb_true_iff.
  destruct (scalar_facts c Hc) as (H1 & H2 & _).
  apply decodable_cons_intro; [exact H1|by apply IH|]. congruence.
Qed.

Lemma utf8_ok_skip_whitespace s :
  utf8_ok s = true -> utf8_ok (skip_whitespace s) = true.
Proof.
  induction s as [|c s IH]; [done|]. cbn [skip_whitespace].
  destruct (is_whitespace c); [|done].
  cbn [utf8_ok forallb]. intros [_ H]%andb_true_iff. by apply IH.
Qed.

Lemma scan_items_decodable fuel : ∀ s xs rest,
  utf8_ok s = true -> scan_items fuel s = Some (xs, rest) ->
  forallb decodable xs = true ∧ utf8_ok rest = true.
Proof.
  induction fuel as [|fuel IH]; intros s xs rest Hs; [done|].
  cbn [scan_items]. apply utf8_ok_skip_whitespace in Hs.
  destruct (skip_whitespace s) as [|c r]; [done|].
  cbn [utf8_ok forallb] in Hs. apply andb_true_iff in Hs as [_ Hr].
  destruct (c =? 34)%N; [|done].
  destruct (scanstring r) as [[x r1]|] eqn:Ex; [|done].
  destruct (scan_decodable _ _ _ _ Hr Ex) as (Hx & _ & Hr1).
  apply utf8_ok_skip_whitespace in Hr1.
  destruct (skip_whitespace r1) as [|d r2]; [done|].
  cbn [utf8_ok forallb] in Hr1. apply andb_true_iff in Hr1 as [_ Hr2].
  destruct (d =? 93)%N.
  { intros [= <- <-]. cbn. by rewrite Hx. }
  destruct (d =? 44)%N; [|done].
  destruct (scan_items fuel r2) as [[ys r3]|] eqn:Ey; [|done].
  intros [= <- <-]. destruct (IH _ _ _ Hr2 Ey) as [Hys Hr3].
  cbn. by rewrite Hx, Hys.
Qed.

(** A list of strings read from a JSON text holds decodable strings. *)
Lemma loads_str_list_decodable text xs :
  utf8_ok text = true -> loads_str_list text = Some xs ->
  forallb decodable xs = true.
Proof.
  intros Ht. unfold loads_str_list. apply utf8_ok_skip_whitespace in Ht.
  destruct (skip_whitespace text) as [|c r]; [done|].
  cbn [utf8_ok forallb] in Ht. apply andb_true_iff in Ht as [_ Hr].
  destruct (c =? 91)%N; [|done].
  pose proof (utf8_ok_skip_whitespace r Hr) as Hr'.
  destruct (skip_whitespace r) as [|d r1]; [done|].
  destruct (d =? 93)%N.
  { destruct (skip_whitespace r1); [|done]. by intros [= <-]. }
  destruct (scan_items (length r) r) as [[ys r2]|] eqn:Ey; [|done].
  destruct (scan_items_decodable _ _ _ _ Hr Ey) as [Hys _].
  destruct (skip_whitespace r2); [|done]. by intros [= <-].
Qed.

Lemma forallb_utf8_ok_decodable v :
  forallb utf8_ok v = true -> forallb decodable v = true.
Proof.
  rewrite !forallb_forall. intros H s Hs. by apply utf8_ok_decodable, H.
Qed.

Lemma stored_row_of_single t r i :
  is_record r = true -> record_id r = Some i ->
  keyed (apply_to t [r]) !! i = Some (stored_row r).
Proof.
  intros Hr Hi.
  assert (Hs : is_snapshot [r] = true) by (cbn; by rewrite Hr).
  rewrite apply_to_snapshot by exact Hs.
  unfold mirrored. cbn [keyed]. rewrite lookup_mirror.
  change [r] with ([] ++ r :: []).
  rewrite (last_record_middle [] r [] i Hi); [done|]. apply not_elem_of_empty.
Qed.

(** C8 (round trip of the list fields).  The JSON text that [json.dumps]
    writes for a list of strings reads back, with [json.loads], as the
    same list in the same order.  This holds for every list of decodable
    strings: strings of code points in which no high surrogate stands
    right before a low surrogate.  Every Unicode text is decodable, and
    so is every string that was itself read from a JSON text, which is
    where the lists of a record come from.  The text the Reconciler
    stores in the columns [aliases] and [labels] for a record is that
    JSON text. *)
Theorem list_round_trip :
  (∀ v : list str, forallb decodable v = true ->
     loads_str_list (dumps (JArr (JStr <$> v))) = Some v)
  ∧ (∀ v : list str, forallb utf8_ok v = true ->
       loads_str_list (dumps (JArr (JStr <$> v))) = Some v)
  ∧ (∀ (text : str) (v : list str),
       utf8_ok text = true -> loads_str_list text = Some v ->
       loads_str_list (dumps (JArr (JStr <$> v))) = Some v)
  ∧ (∀ (t : table) (r : json) (i : str) (v : list str),
       is_record r = true -> record_id r = Some i ->
       forallb decodable v = true ->
       (field r (py "aliases") = Some (JArr (JStr <$> v)) ->
          ∃ w, keyed (apply_to t [r]) !! i = Some w
               ∧ aliases w ≫= loads_str_list = Some v)
       ∧ (field r (py "labels") = Some (JArr (JStr <$> v)) ->
            ∃ w, keyed (apply_to t [r]) !! i = Some w
                 ∧ labels w ≫= loads_str_list = Some v)).
Proof.
  split; [exact loads_dumps_str_list|].
  split; [intros v Hv; by apply loads_dumps_str_list, forallb_utf8_ok_decodable|].
  split.
  { intros text v Ht Hv.
    by apply loads_dumps_str_list, (loads_str_list_decodable text). }
  intros t r i v Hr Hi Hv.
  pose proof (stored_row_of_single t r i Hr Hi) as Hw.
  split; intros Hf; exists (stored_row r); (split; [exact Hw|]);
    unfold stored_row; cbn [aliases labels]; rewrite Hf;
    cbn [default mbind option_bind]; by apply loads_dumps_str_list.
Qed.

(** The lists of the specification's example, and one with characters
    that are escaped. *)
Lemma list_round_trip_witness :
  (forallb decodable [py "a"; py "b"] = true
   ∧ loads_str_list (dumps (JArr (JStr <$> [py "a"; py "b"])))
     = Some [py "a"; py "b"])
  ∧ (forallb utf8_ok [[0x1F600; 10; 0xE9; 34; 92; 127]%N; []] = true
     ∧ loads_str_list
         (dumps (JArr (JStr <$> [[0x1F600; 10; 0xE9; 34; 92; 127]%N; []])))
       = Some [[0x1F600; 10; 0xE9; 34; 92; 127]%N; []])
  ∧ (utf8_ok escaped_text = true
     ∧ loads_str_list escaped_text
       = Some [[0xD83D; 65; 0x1F600]%N]
     ∧ loads_str_list (dumps (JArr (JStr <$> [[0xD83D; 65; 0x1F600]%N])))
       = Some [[0xD83D; 65; 0x1F600]%N])
  ∧ (is_record garage = true ∧ record_id garage = Some (py "C")
     ∧ forallb decodable [py "shop"] = true
     ∧ field garage (py "aliases") = Some (JArr (JStr <$> [py "shop"]))
     ∧ field garage (py "labels") = Some (JArr (JStr <$> []))
     ∧ (∃ w, keyed (apply_to store_AB [garage]) !! (py "C") = Some w
             ∧ aliases w ≫= loads_str_list = Some [py "shop"])
     ∧ (∃ w, keyed (apply_to store_AB [garage]) !! (py "C") = Some w
             ∧ labels w ≫= loads_str_list = Some [])).
Proof.
  destruct list_round_trip as (H1 & H2 & H3 & H4).
  split; [|split; [|split]].
  - split; [reflexivity|]. exact (H1 [py "a"; py "b"] eq_refl).
  - split; [reflexivity|].
    exact (H2 [[0x1F600; 10; 0xE9; 34; 92; 127]%N; []] eq_refl).
  - split; [reflexivity|]. split; [reflexivity|].
    exact (H3 escaped_text [[0xD83D; 65; 0x1F600]%N]
             eq_refl eq_refl).
  - split; [reflexivity|]. split; [reflexivity|]. split; [reflexivity|].
    split; [reflexivity|]. split; [reflexivity|].
    split.
    + exact (proj1 (H4 store_AB garage (py "C") [py "shop"] eq_refl eq_refl eq_refl)
               eq_refl).
    + exact (proj2 (H4 store_AB garage (py "C") [] eq_refl eq_refl eq_refl)
               eq_refl).
Defined.

(** Why the strings have to be decodable: a [str] that holds a surrogate
    pair as two code points is written as two escapes, which read as one
    character.  No JSON text decodes to such a string. *)
Remark split_pair_is_joined :
  decodable [0xD83D; 0xDE00]%N = false
  ∧ loads_str_list (dumps (JArr [JStr [0xD83D; 0xDE00]%N])) = Some [[0x1F600%N]].
Proof. split; reflexivity. Qed.

(** ** The example scenario of the specification *)

(** The table holds A and B; the snapshot holds A (Kitchen) and C
    (Garage).  Afterwards the table holds exactly A and C, A is named
    Kitchen, B is gone, and the aliases of C read back as ["shop"]. *)
Example scenario :
  let r := update_database_with_new_areas healthy (JArr [kitchen; garage]) store_AB in
  dom (keyed store_AB) = {[py "A"; py "B"]}
  ∧ dom (keyed (db r)) = {[py "A"; py "C"]}
  ∧ name <$> keyed (db r) !! (py "A") = Some (py "Kitchen")
  ∧ keyed (db r) !! (py "B") = None
  ∧ (keyed (db r) !! (py "C") ≫= aliases) ≫= loads_str_list = Some [py "shop"]
  ∧ printed r = [Deleted (Some (py "B"));
                 Updated (JStr (py "Kitchen")) (JStr (py "A"));
                 Updated (JStr (py "Garage")) (JStr (py "C"))].
Proof. vm_compute. repeat split. Qed.

(** ** A run on any list *)

Lemma get_default kvs k d :
  get (JObj kvs) k d = Ok (default d (dict_lookup kvs k)).
Proof. unfold get. by destruct (dict_lookup kvs k). Qed.

Lemma upsert_healthy area c :
  match written_row area with
  | Some _ =>
      upsert healthy area c =
        (Ok tt, Conn (committed c) (write_row (working c) area)
                  (calls c ++ [(CInsert, true)])
                  (out c ++ [written_line area]))
  | None => ¬ is_Ok (upsert healthy area c).1
  end.
Proof.
  destruct area as [| | | | |kvs]; try (cbn; tauto).
  unfold write_row, written_line, written_row, upsert, field.
  rewrite !get_default. unfold lift, fmap, res_fmap.
  bind_step. bind_step. bind_step.
  unfold getitem.
  destruct (dict_lookup kvs (py "id")) as [a_id|]; [|cbn; tauto].
  destruct (dict_lookup kvs (py "name")) as [a_name|]; [|cbn; tauto].
  cbn [mbind option_bind res_bind default].
  unfold cell.
  destruct (bind_param a_id) as [b_id|]; [|cbn; tauto].
  destruct (bind_param a_name) as [b_name|]; [|cbn; tauto].
  destruct (bind_param (default JNull (dict_lookup kvs (py "floor_id")))) as [b_f|]; [|cbn; tauto].
  destruct (bind_param (default JNull (dict_lookup kvs (py "icon")))) as [b_i|]; [|cbn; tauto].
  destruct (bind_param (default JNull (dict_lookup kvs (py "picture")))) as [b_p|]; [|cbn; tauto].
  destruct (bind_param (default JNull (dict_lookup kvs (py "created_at")))) as [b_c|]; [|cbn; tauto].
  destruct (bind_param (default JNull (dict_lookup kvs (py "modified_at")))) as [b_m|]; [|cbn; tauto].
  unfold mbind, M_bind, option_bind, res_bind, option_ret, mret.
  cbn -[py dumps utf8_ok insert text_affinity default].
  rewrite !dumps_utf8_ok.
  unfold sql, healthy, insert_or_replace, print.
  cbn -[py dumps utf8_ok insert text_affinity default].
  destruct (text_affinity b_name) as [n|]; [|cbn; tauto].
  destruct (text_affinity b_id) as [i|]; reflexivity.
Qed.

Lemma foreach_accepted l : ∀ c,
  forallb accepted l = true ->
  foreach l (upsert healthy) c =
    (Ok tt, Conn (committed c) (foldl write_row (working c) l)
              (calls c ++ replicate (length l) (CInsert, true))
              (out c ++ (written_line <$> l))).
Proof.
  induction l as [|a l IH]; intros c Hl.
  - cbn. rewrite !app_nil_r. by destruct c.
  - cbn in Hl. apply andb_true_iff in Hl as [Ha Hl].
    pose proof (upsert_healthy a c) as Hu. unfold accepted in Ha.
    destruct (written_row a) as [kw|] eqn:E; [|discriminate].
    cbn [foreach]. bind_step. rewrite Hu, IH by exact Hl.
    cbn [committed working calls out foldl length replicate fmap list_fmap].
    rewrite <- !app_assoc. reflexivity.
Qed.

Lemma foreach_refused l : ∀ c,
  forallb accepted l = false -> ¬ is_Ok (foreach l (upsert healthy) c).1.
Proof.
  induction l as [|a l IH]; intros c Hl; [discriminate|].
  cbn in Hl. cbn [foreach]. bind_step.
  pose proof (upsert_healthy a c) as Hu. unfold accepted in Hl.
  destruct (written_row a) as [kw|] eqn:E.
  - rewrite Hu. apply IH. exact Hl.
  - destruct (upsert healthy a c) as [[[]|e] c']; [|tauto].
    exfalso. by apply Hu.
Qed.

Lemma accepted_id a :
  accepted a = true ->
  ∃ v, field a (py "id") = Some v ∧ getitem a (py "id") = Ok v
       ∧ hashable v = true.
Proof.
  unfold accepted, written_row. destruct a as [| | | | |kvs]; try discriminate.
  unfold field, getitem.
  destruct (dict_lookup kvs (py "id")) as [v|]; [|discriminate].
  destruct (dict_lookup kvs (py "name")) as [n|]; [|discriminate].
  cbn [mbind option_bind].
  destruct (cell v) eqn:E; [|discriminate]. intros _.
  exists v. repeat split. by destruct v.
Qed.

Lemma current_ids_accepted l :
  forallb accepted l = true ->
  traverse (fun area =>
      v ← getitem area (py "id");
      if hashable v then Ok v else Raise TypeError) l
  = Ok (omap (fun a => field a (py "id")) l).
Proof.
  induction l as [|a l IH]; intros Hl; [reflexivity|].
  cbn in Hl. apply andb_true_iff in Hl as [Ha Hl].
  destruct (accepted_id a Ha) as (v & Hf & Hg & Hh).
  cbn [traverse omap list_omap]. rewrite Hf, Hg.
  cbn [mbind res_bind]. rewrite Hh, IH by exact Hl. reflexivity.
Qed.

(** A run on the items of [area_data], all accepted, when no call
    fails. *)
Lemma reconcile_accepted area_data l t :
  iter area_data = Ok l ->
  forallb accepted l = true ->
  let t' := foldl write_row
              (foldl (fun t x => delete_where_id x t) t (stale_ids l t)) l in
  reconcile healthy area_data (Conn t t [] []) =
    (Ok tt,
     Conn t' t'
       ([(CConnect, true); (CSelect, true)]
          ++ replicate (length (stale_ids l t)) (CDelete, true)
          ++ replicate (length l) (CInsert, true)
          ++ [(CCommit, true); (CClose, true)])
       ((Deleted <$> stale_ids l t) ++ (written_line <$> l))).
Proof.
  intros Hi Hl. cbv zeta. unfold reconcile.
  bind_step. unfold connect, sql at 1, healthy at 1.
  cbn [working committed calls out length app].
  bind_step. unfold sql at 1, healthy at 1.
  cbn [working committed calls out length app].
  bind_step. unfold lift at 1. rewrite Hi.
  bind_step. unfold lift at 1.
  rewrite current_ids_accepted by exact Hl.
  bind_step. rewrite foreach_delete.
  bind_step. rewrite foreach_accepted by exact Hl.
  bind_step. unfold commit at 1, healthy at 1.
  cbn [working committed calls out].
  unfold close, sql, healthy. cbn [working committed calls out].
  unfold stale_ids. rewrite <- !app_assoc. reflexivity.
Qed.

(** A run on a list with an item that is refused, when no call fails. *)
Lemma reconcile_refused l t :
  forallb accepted l = false ->
  ∃ e c, reconcile healthy (JArr l) (Conn t t [] []) = (Raise e, c)
         ∧ committed c = t.
Proof.
  intros Hl. enter_reconcile.
  destruct (traverse _ l) as [ids|e]; [|by eauto].
  bind_step. rewrite foreach_delete. bind_step.
  match goal with |- context [foreach l (upsert healthy) ?c] =>
    pose proof (foreach_refused l c Hl) as Hr;
    pose proof (keeps_foreach l (upsert healthy) (keeps_upsert healthy) c) as Hk;
    destruct (foreach l (upsert healthy) c) as [[[]|e] c']
  end; [by exfalso; apply Hr|].
  exists e, c'. split; [reflexivity|exact Hk].
Qed.

Create HintDb trace.

Section Trace.
Variable fails : nat -> bool.

Lemma failed_last_snoc cs k b : no_failed cs -> failed_last (cs ++ [(k, b)]).
Proof.
  intros H. destruct b; [left; by apply no_failed_snoc|right; eauto].
Qed.

Lemma halting_lift {A} (r : res A) : halting (lift r).
Proof. intros c Hc. destruct r; [done|by left]. Qed.

Lemma halting_print l : halting (print l).
Proof. by intros c Hc. Qed.

Lemma halting_ret {A} (a : A) : halting (mret a : M A).
Proof. by intros c Hc. Qed.

Lemma halting_sql {A} k (f : table -> res (A * table)) : halting (sql fails k f).
Proof.
  intros c Hc. unfold sql. destruct (fails _).
  - by apply failed_last_snoc.
  - destruct (f (working c)) as [[a t]|e].
    + by apply no_failed_snoc.
    + by apply failed_last_snoc.
Qed.

Lemma halting_commit : halting (commit fails).
Proof.
  intros c Hc. unfold commit. destruct (fails _).
  - by apply failed_last_snoc.
  - by apply no_failed_snoc.
Qed.

Lemma halting_bind {A B} (m : M A) (f : A -> M B) :
  halting m -> (∀ a, halting (f a)) -> halting (m ≫= f).
Proof.
  intros Hm Hf c Hc. unfold mbind, M_bind. specialize (Hm c Hc).
  destruct (m c) as [[a|e] c']; [|exact Hm].
  apply Hf. exact Hm.
Qed.

Lemma halting_foreach {A} (l : list A) (body : A -> M unit) :
  (∀ x, halting (body x)) -> halting (foreach l body).
Proof.
  intros Hb. induction l as [|x l IH]; [apply halting_ret|].
  apply halting_bind; auto.
Qed.

Lemma quiet_lift {A} (r : res A) : quiet (lift r).
Proof. by intros c Hc. Qed.

Lemma quiet_print l : is_error_line l = false -> quiet (print l).
Proof.
  intros Hl c Hc. unfold print. cbn [snd out].
  rewrite existsb_app, Hc. cbn [existsb]. by rewrite Hl.
Qed.

Lemma quiet_ret {A} (a : A) : quiet (mret a : M A).
Proof. by intros c Hc. Qed.

Lemma quiet_sql {A} k (f : table -> res (A * table)) : quiet (sql fails k f).
Proof.
  intros c Hc. unfold sql. destruct (fails _); [done|].
  by destruct (f (working c)) as [[a t]|e].
Qed.

Lemma quiet_commit : quiet (commit fails).
Proof. intros c Hc. unfold commit. by destruct (fails _). Qed.

Lemma quiet_bind {A B} (m : M A) (f : A -> M B) :
  quiet m -> (∀ a, quiet (f a)) -> quiet (m ≫= f).
Proof.
  intros Hm Hf c Hc. unfold mbind, M_bind. specialize (Hm c Hc).
  destruct (m c) as [[a|e] c']; [|exact Hm].
  apply Hf. exact Hm.
Qed.

Lemma quiet_foreach {A} (l : list A) (body : A -> M unit) :
  (∀ x, quiet (body x)) -> quiet (foreach l body).
Proof.
  intros Hb. induction l as [|x l IH]; [apply quiet_ret|].
  apply quiet_bind; auto.
Qed.

Lemma hoards_lift {A} (r : res A) : hoards (lift r).
Proof. by intros l c. Qed.

Lemma hoards_print x : hoards (print x).
Proof. by intros l c. Qed.

Lemma hoards_ret {A} (a : A) : hoards (mret a : M A).
Proof. by intros l c. Qed.

Lemma hoards_sql {A} k (f : table -> res (A * table)) :
  (∀ t a t', f t = Ok (a, t') -> null_rows t `prefix_of` null_rows t') ->
  hoards (sql fails k f).
Proof.
  intros Hf l c H1 H2. unfold sql. destruct (fails _); [done|].
  destruct (f (working c)) as [[a t]|e] eqn:E; [|done].
  split; [done|]. cbn. etrans; [exact H2|]. by eapply Hf.
Qed.

Lemma hoards_commit : hoards (commit fails).
Proof. intros l c H1 H2. unfold commit. by destruct (fails _). Qed.

Lemma hoards_bind {A B} (m : M A) (f : A -> M B) :
  hoards m -> (∀ a, hoards (f a)) -> hoards (m ≫= f).
Proof.
  intros Hm Hf l c H1 H2. unfold mbind, M_bind.
  destruct (Hm l c H1 H2) as [H3 H4].
  destruct (m c) as [[a|e] c']; [|done].
  by apply Hf.
Qed.

Lemma hoards_foreach {A} (l : list A) (body : A -> M unit) :
  (∀ x, hoards (body x)) -> hoards (foreach l body).
Proof.
  intros Hb. induction l as [|x l IH]; [apply hoards_ret|].
  apply hoards_bind; auto.
Qed.

Lemma insert_or_replace_null_rows p t t' :
  insert_or_replace p t = Ok t' -> null_rows t `prefix_of` null_rows t'.
Proof.
  unfold insert_or_replace.
  destruct (text_affinity (p_name p)); [|discriminate].
  destruct (text_affinity (p_id p)); intros [= <-]; cbn; [done|].
  by apply prefix_app_r.
Qed.

Lemma rolls_back_bind {A B} (m : M A) (f : A -> M B) :
  keeps m -> (∀ a, rolls_back (f a)) -> rolls_back (m ≫= f).
Proof.
  intros Hk Hf c. unfold mbind, M_bind. specialize (Hk c).
  destruct (m c) as [[a|e] c']; cbn [fst snd] in *.
  - intros H1 H2. rewrite <- Hk. by apply Hf.
  - intros _ _. exact Hk.
Qed.

Lemma rolls_back_commit_close : rolls_back (commit fails;; close fails).
Proof.
  intros c. unfold mbind, M_bind, commit, close, sql.
  destruct (fails (length (calls c))); [done|].
  cbn [calls working committed].
  destruct (fails _); cbn [calls working committed fst snd].
  - unfold close_failed. rewrite existsb_app. cbn. rewrite orb_true_r. done.
  - intros H. exfalso. by apply H.
Qed.

Hint Resolve halting_lift halting_print halting_ret halting_sql halting_commit
  quiet_lift quiet_ret quiet_sql quiet_commit
  hoards_lift hoards_print hoards_ret hoards_commit : trace.
Hint Resolve keeps_lift keeps_print keeps_ret keeps_sql : trace.
Hint Extern 2 (keeps (_ ≫= _)) => apply keeps_bind; [|intros ?] : trace.
Hint Extern 2 (keeps (foreach _ _)) => apply keeps_foreach; intros ? : trace.
Hint Extern 2 (halting (_ ≫= _)) => apply halting_bind; [|intros ?] : trace.
Hint Extern 2 (halting (foreach _ _)) => apply halting_foreach; intros ? : trace.
Hint Extern 2 (quiet (_ ≫= _)) => apply quiet_bind; [|intros ?] : trace.
Hint Extern 2 (quiet (foreach _ _)) => apply quiet_foreach; intros ? : trace.
Hint Extern 2 (quiet (print _)) => apply quiet_print; reflexivity : trace.
Hint Extern 2 (hoards (_ ≫= _)) => apply hoards_bind; [|intros ?] : trace.
Hint Extern 2 (hoards (foreach _ _)) => apply hoards_foreach; intros ? : trace.
Hint Extern 2 (rolls_back (_ ≫= _)) =>
  first [ apply rolls_back_commit_close
        | apply rolls_back_bind; [|intros ?] ] : trace.

Lemma halting_upsert area : halting (upsert fails area).
Proof. unfold upsert. auto 10 with trace. Qed.

Lemma quiet_upsert area : quiet (upsert fails area).
Proof. unfold upsert. auto 10 with trace. Qed.

Lemma hoards_upsert area : hoards (upsert fails area).
Proof.
  unfold upsert. do 3 (apply hoards_bind; [by auto with trace|intros ?]).
  apply hoards_bind; [|auto with trace].
  apply hoards_sql. intros t [] t' H.
  destruct (insert_or_replace _ t) as [t''|] eqn:E; [|discriminate].
  injection H as <-. by eapply insert_or_replace_null_rows.
Qed.

Hint Resolve halting_upsert quiet_upsert hoards_upsert : trace.
Hint Resolve keeps_upsert : trace.

Lemma halting_reconcile area_data : halting (reconcile fails area_data).
Proof. unfold reconcile, connect, close. auto 20 with trace. Qed.

Lemma quiet_reconcile area_data : quiet (reconcile fails area_data).
Proof. unfold reconcile, connect, close. auto 20 with trace. Qed.

Lemma rolls_back_reconcile area_data : rolls_back (reconcile fails area_data).
Proof. unfold reconcile, connect. auto 30 with trace. Qed.

Lemma hoards_reconcile area_data : hoards (reconcile fails area_data).
Proof.
  unfold reconcile, connect, close.
  apply hoards_bind; [apply hoards_sql; by intros ??? [= _ <-]|intros _].
  apply hoards_bind; [apply hoards_sql; by intros ??? [= _ <-]|intros ?].
  apply hoards_bind; [auto with trace|intros ?].
  apply hoards_bind; [auto with trace|intros ?].
  apply hoards_bind.
  { apply hoards_foreach. intros x. apply hoards_bind; [|auto with trace].
    apply hoards_sql. intros ??? [= _ <-]. by destruct x. }
  intros _. apply hoards_bind; [auto with trace|intros _].
  apply hoards_bind; [auto with trace|intros _].
  apply hoards_sql. by intros ??? [= _ <-].
Qed.

End Trace.

Lemma reported_clean r : reported r = false <-> clean r.
Proof.
  unfold reported, clean. induction (printed r) as [|x l IH]; cbn [existsb].
  - split; [intros _ e; apply not_elem_of_nil|done].
  - rewrite orb_false_iff, IH. split.
    + intros [Hx Hl] e [H|H]%elem_of_cons; [|by apply (Hl e)].
      rewrite <- H in Hx. discriminate.
    + intros H. split.
      * destruct x; try done. exfalso. apply (H e). left.
      * intros e He. apply (H e). by right.
Qed.

Lemma keyed_write_row t a :
  keyed (write_row t a) = keyed (write_row empty_table a) ∪ keyed t.
Proof.
  unfold write_row. destruct (written_row a) as [[[i|] w]|]; cbn [keyed empty_table].
  - by rewrite <- insert_union_l, (left_id_L ∅ (∪)).
  - by rewrite (left_id_L ∅ (∪)).
  - by rewrite (left_id_L ∅ (∪)).
Qed.

Lemma null_rows_write_row t a :
  null_rows (write_row t a) = null_rows t ++ null_rows (write_row empty_table a).
Proof.
  unfold write_row. destruct (written_row a) as [[[i|] w]|]; cbn [null_rows empty_table];
    by rewrite ?app_nil_r.
Qed.

Lemma keyed_foldl_write_row l : ∀ t,
  keyed (foldl write_row t l) = keyed (rows_written l) ∪ keyed t.
Proof.
  unfold rows_written. induction l as [|a l IH]; intros t; cbn [foldl].
  - cbn. by rewrite (left_id_L ∅ (∪)).
  - rewrite IH, (IH (write_row empty_table a)), keyed_write_row.
    by rewrite (assoc_L (∪)).
Qed.

Lemma null_rows_foldl_write_row l : ∀ t,
  null_rows (foldl write_row t l) = null_rows t ++ null_rows (rows_written l).
Proof.
  unfold rows_written. induction l as [|a l IH]; intros t; cbn [foldl].
  - cbn. by rewrite app_nil_r.
  - rewrite IH, (IH (write_row empty_table a)), null_rows_write_row.
    by rewrite (assoc_L (++)).
Qed.

Lemma written_key l a i w :
  a ∈ l -> written_row a = Some (Some i, w) -> is_Some (keyed (rows_written l) !! i).
Proof.
  intros Ha Hw. induction l as [|b l IH]; [by apply not_elem_of_nil in Ha|].
  unfold rows_written. cbn [foldl]. rewrite keyed_foldl_write_row.
  apply elem_of_cons in Ha as [<-|Ha].
  - destruct (keyed (rows_written l) !! i) as [w'|] eqn:E.
    + exists w'. by apply lookup_union_Some_l.
    + exists w. rewrite lookup_union_r by exact E.
      unfold write_row. rewrite Hw. cbn. apply lookup_insert_eq.
  - destruct (IH Ha) as [w' Hw']. exists w'. by apply lookup_union_Some_l.
Qed.

Lemma accepted_key a v :
  accepted a = true -> field a (py "id") = Some v ->
  ∃ k w, cell v = Some k ∧ written_row a = Some (k, w).
Proof.
  unfold accepted. destruct (written_row a) as [[k w]|] eqn:E; [|discriminate].
  intros _ Hi. exists k, w. split; [|reflexivity].
  destruct a as [| | | | |kvs]; try discriminate.
  unfold written_row in E. cbn [field] in Hi. rewrite Hi in E.
  cbn [mbind option_bind] in E.
  destruct (dict_lookup kvs (py "name")) as [n|]; [|discriminate].
  cbn [mbind option_bind] in E.
  destruct (cell v) as [k'|]; [|discriminate].
  cbn [mbind option_bind] in E.
  repeat (match type of E with
          | context [cell ?v] => destruct (cell v) as [?|]; [|discriminate]
          end; cbn [mbind option_bind] in E).
  destruct o; [|discriminate]. cbn in E. congruence.
Qed.

Lemma accepted_text_id a i :
  accepted a = true -> field a (py "id") = Some (JStr i) ->
  ∃ w, written_row a = Some (Some i, w).
Proof.
  intros Ha Hi. destruct (accepted_key a _ Ha Hi) as (k & w & Hk & Hw).
  exists w. rewrite Hw. unfold cell in Hk. cbn in Hk.
  destruct (utf8_ok i); [|discriminate]. cbn in Hk. congruence.
Qed.

Lemma id_in_field i (l : list json) :
  id_in (Some i) (omap (fun a => field a (py "id")) l) = true ->
  ∃ a, a ∈ l ∧ field a (py "id") = Some (JStr i).
Proof.
  unfold id_in. rewrite existsb_exists. intros (v & Hv & H).
  apply list_elem_of_In, list_elem_of_omap in Hv as (a & Ha & Hf).
  destruct v; try discriminate. apply bool_decide_eq_true in H as ->.
  eauto.
Qed.

(** A run on a list of accepted items, when no call fails: the table
    that comes out. *)
Lemma accepted_table l t :
  forallb accepted l = true ->
  foldl write_row (foldl (fun t x => delete_where_id x t) t (stale_ids l t)) l
  = Table (keyed (rows_written l)) (null_rows t ++ null_rows (rows_written l)).
Proof.
  intros Hl.
  set (d := foldl (fun t x => delete_where_id x t) t (stale_ids l t)).
  assert (Hk : keyed (foldl write_row d l) = keyed (rows_written l)).
  { rewrite keyed_foldl_write_row. apply map_eq. intros i.
    destruct (keyed (rows_written l) !! i) as [w|] eqn:E.
    - by apply lookup_union_Some_l.
    - rewrite lookup_union_r by exact E. subst d.
      rewrite foldl_delete_keyed. case_decide as H; [done|].
      destruct (keyed t !! i) as [w|] eqn:Ew; [|done].
      exfalso.
      destruct (id_in (Some i) (omap (fun a => field a (py "id")) l)) eqn:Ei.
      + apply id_in_field in Ei as (a & Ha & Hf).
        assert (Hacc : accepted a = true).
        { rewrite forallb_forall in Hl. apply Hl. by apply list_elem_of_In. }
        destruct (accepted_text_id a i Hacc Hf) as [w' Hw'].
        destruct (written_key l a i w' Ha Hw') as [? ?]. congruence.
      + apply H. unfold stale_ids. apply list_elem_of_filter. split; [exact Ei|].
        unfold select_ids. apply elem_of_app. left.
        apply list_elem_of_fmap. exists i. split; [done|].
        apply list_elem_of_fmap. exists (i, w). split; [done|].
        by apply elem_of_map_to_list. }
  assert (Hn : null_rows (foldl write_row d l) = null_rows t ++ null_rows (rows_written l)).
  { rewrite null_rows_foldl_write_row. subst d. by rewrite foldl_delete_null_rows. }
  destruct (foldl write_row d l) as [k n]. cbn in Hk, Hn. by subst.
Qed.

Lemma run_reported fails area_data t :
  let r := update_database_with_new_areas fails area_data t in
  reported r = match (reconcile fails area_data (Conn t t [] [])).1 with
               | Ok _ => false
               | Raise _ => true
               end.
Proof.
  cbv zeta. unfold update_database_with_new_areas, try_except, reported.
  pose proof (quiet_reconcile fails area_data (Conn t t [] []) eq_refl) as H.
  destruct (reconcile fails area_data (Conn t t [] [])) as [[[]|e] c];
    cbn [printed fst snd print out] in *; [exact H|].
  rewrite existsb_app. cbn. by rewrite orb_true_r.
Qed.

Lemma run_accepted l t :
  forallb accepted l = true ->
  db (update_database_with_new_areas healthy (JArr l) t)
  = Table (keyed (rows_written l)) (null_rows t ++ null_rows (rows_written l)).
Proof.
  intros Hl. unfold update_database_with_new_areas, try_except.
  rewrite (reconcile_accepted (JArr l) l t eq_refl Hl).
  cbn [fst snd committed db]. by apply accepted_table.
Qed.

Lemma run_printed l t :
  forallb accepted l = true ->
  printed (update_database_with_new_areas healthy (JArr l) t)
  = (Deleted <$> stale_ids l t) ++ (written_line <$> l).
Proof.
  intros Hl. unfold update_database_with_new_areas, try_except.
  by rewrite (reconcile_accepted (JArr l) l t eq_refl Hl).
Qed.

Lemma is_record_accepted r : is_record r = true -> accepted r = true.
Proof.
  intros Hr. unfold accepted.
  pose proof (upsert_healthy r (Conn empty_table empty_table [] [])) as H.
  destruct (written_row r); [done|].
  destruct (upsert_record r (Conn empty_table empty_table [] []) Hr)
    as (i & n & _ & _ & Hu).
  rewrite Hu in H. exfalso. by apply H.
Qed.

Lemma is_snapshot_accepted s : is_snapshot s = true -> forallb accepted s = true.
Proof.
  unfold is_snapshot. rewrite !forallb_forall. intros H r Hr.
  apply is_record_accepted. by apply H.
Qed.

(** X1.  A run in which no call fails, on a list: it ends without
    "Database error" exactly when every item of the list is accepted (a
    dict with [id] and [name], nine parameters that can be bound, a name
    that is not null).  Then the keyed rows of the table are the rows
    written for the list, whatever the table held, and the rows written
    with a NULL key come after those already there; otherwise the
    database file is as before. *)
Theorem run_succeeds_iff_accepted (l : list json) (t : table) :
  let r := update_database_with_new_areas healthy (JArr l) t in
  reported r = negb (forallb accepted l)
  ∧ db r = if forallb accepted l
           then Table (keyed (rows_written l)) (null_rows t ++ null_rows (rows_written l))
           else t.
Proof.
  cbv zeta. rewrite run_reported.
  unfold update_database_with_new_areas, try_except.
  destruct (forallb accepted l) eqn:Hl.
  - rewrite (reconcile_accepted (JArr l) l t eq_refl Hl).
    cbn [fst snd committed db]. split; [done|]. by apply accepted_table.
  - destruct (reconcile_refused l t Hl) as (e & c & -> & Hc).
    cbn [fst snd committed db print]. split; [done|exact Hc].
Qed.

Lemma stale_ids_Some l t i :
  Some i ∈ stale_ids l t
  <-> is_Some (keyed t !! i) ∧ ∀ a, a ∈ l -> field a (py "id") ≠ Some (JStr i).
Proof.
  unfold stale_ids. rewrite list_elem_of_filter. unfold select_ids.
  rewrite elem_of_app. split.
  - intros [Hi [H|H]].
    + split.
      * apply list_elem_of_fmap in H as (j & [= <-] & H).
        apply list_elem_of_fmap in H as ([j w] & -> & H).
        apply elem_of_map_to_list in H. by exists w.
      * intros a Ha Hf. apply not_true_iff_false in Hi. apply Hi.
        unfold id_in. apply existsb_exists. exists (JStr i). split.
        -- apply list_elem_of_In, list_elem_of_omap. eauto.
        -- by apply bool_decide_eq_true.
    + destruct (null_rows t); [by apply not_elem_of_nil in H|].
      apply list_elem_of_singleton in H. discriminate.
  - intros [[w Hw] Hl]. split.
    + apply not_true_iff_false. intros (a & Ha & Hf)%id_in_field. by apply (Hl a).
    + left. apply list_elem_of_fmap. exists i. split; [done|].
      apply list_elem_of_fmap. exists (i, w). split; [done|].
      by apply elem_of_map_to_list.
Qed.

Lemma NoDup_stale_ids l t : NoDup (stale_ids l t).
Proof.
  unfold stale_ids, select_ids. apply NoDup_filter, NoDup_app.
  split; [|split].
  - apply (NoDup_fmap_2 Some), NoDup_fst_map_to_list.
  - intros x (i & -> & _)%list_elem_of_fmap Hx.
    destruct (null_rows t); [by apply not_elem_of_nil in Hx|].
    by apply list_elem_of_singleton in Hx.
  - destruct (null_rows t); [apply NoDup_nil_2|apply NoDup_singleton].
Qed.

(** X2.  The calls and the lines of a run that works: the ids of the
    table that no item carries as a string are deleted, each one once
    (in the order in which the set of line 55 gives them), then every
    item is written, changed or not, and each of the two loops prints
    its line per turn. *)
Theorem run_trace (l : list json) (t : table) :
  forallb accepted l = true ->
  let r := update_database_with_new_areas healthy (JArr l) t in
  made r = [(CConnect, true); (CSelect, true)]
             ++ replicate (length (stale_ids l t)) (CDelete, true)
             ++ replicate (length l) (CInsert, true)
             ++ [(CCommit, true); (CClose, true)]
  ∧ (∃ ds, ds ≡ₚ stale_ids l t ∧ NoDup ds
           ∧ printed r = (Deleted <$> ds) ++ (written_line <$> l))
  ∧ ∀ i, Some i ∈ stale_ids l t
         <-> is_Some (keyed t !! i)
             ∧ ∀ a, a ∈ l -> field a (py "id") ≠ Some (JStr i).
Proof.
  intros Hl. cbv zeta. unfold update_database_with_new_areas, try_except.
  rewrite (reconcile_accepted (JArr l) l t eq_refl Hl).
  cbn [made printed calls out]. split; [done|]. split.
  - exists (stale_ids l t). split; [done|]. split; [apply NoDup_stale_ids|done].
  - intros i. apply stale_ids_Some.
Qed.

Lemma run_trace_witness :
  forallb accepted [kitchen; garage] = true
  ∧ made (update_database_with_new_areas healthy (JArr [kitchen; garage]) store_AB)
    = [(CConnect, true); (CSelect, true); (CDelete, true); (CInsert, true);
       (CInsert, true); (CCommit, true); (CClose, true)].
Proof.
  split; [reflexivity|].
  rewrite (proj1 (run_trace [kitchen; garage] store_AB eq_refl)).
  reflexivity.
Defined.

(** X3.  Whatever fails and whatever the data: when the run printed
    "Database error" and no [close] failed, the database file is as it
    was before the run; an exception of Python (a missing key, a value
    that cannot be bound) undoes the deletes as a failed call does. *)
Theorem rollback_on_any_error (fails : nat -> bool) (area_data : json) (t : table) :
  let r := update_database_with_new_areas fails area_data t in
  reported r = true -> close_failed (made r) = false -> db r = t.
Proof.
  cbv zeta. rewrite run_reported.
  unfold update_database_with_new_areas, try_except.
  pose proof (rolls_back_reconcile fails area_data (Conn t t [] [])) as H.
  destruct (reconcile fails area_data (Conn t t [] [])) as [[[]|e] c];
    cbn [fst snd db made committed calls print] in *.
  - discriminate.
  - intros _ Hc. apply H; [tauto|exact Hc].
Qed.

Lemma rollback_on_any_error_witness :
  let r := update_database_with_new_areas healthy (JArr [attic; JObj []]) store_AB in
  reported r = true ∧ close_failed (made r) = false ∧ db r = store_AB.
Proof.
  cbv zeta. split; [reflexivity|]. split; [reflexivity|].
  apply (rollback_on_any_error healthy (JArr [attic; JObj []]) store_AB); reflexivity.
Defined.

(** X4.  No call is made after a call that failed: in every run at most
    one call failed, and it is the last one of the run. *)
Theorem failure_ends_the_calls (fails : nat -> bool) (area_data : json) (t : table) :
  failed_last (made (update_database_with_new_areas fails area_data t)).
Proof.
  unfold update_database_with_new_areas, try_except.
  pose proof (halting_reconcile fails area_data (Conn t t [] []) no_failed_nil) as H.
  destruct (reconcile fails area_data (Conn t t [] [])) as [[[]|e] c];
    cbn [fst snd made calls print] in *; [by left|exact H].
Qed.

(** X5.  A run prints "Database error" at most once, and as its last
    line. *)
Theorem error_line_is_last (fails : nat -> bool) (area_data : json) (t : table) :
  let r := update_database_with_new_areas fails area_data t in
  reported r = false
  ∨ ∃ e ls, printed r = ls ++ [DatabaseError e]
            ∧ existsb is_error_line ls = false.
Proof.
  cbv zeta. unfold update_database_with_new_areas, try_except, reported.
  pose proof (quiet_reconcile fails area_data (Conn t t [] []) eq_refl) as H.
  destruct (reconcile fails area_data (Conn t t [] [])) as [[[]|e] c];
    cbn [fst snd printed out print] in *; [by left|].
  right. by exists e, (out c).
Qed.

(** X6.  No run removes a row whose key is NULL, whatever fails and
    whatever the data: the rows without a key that were in the database
    file are still there, in front of those the run added. *)
Theorem null_key_rows_stay (fails : nat -> bool) (area_data : json) (t : table) :
  null_rows t `prefix_of`
    null_rows (db (update_database_with_new_areas fails area_data t)).
Proof.
  unfold update_database_with_new_areas, try_except.
  destruct (hoards_reconcile fails area_data (null_rows t) (Conn t t [] []))
    as [H _]; [done|done|].
  destruct (reconcile fails area_data (Conn t t [] [])) as [[[]|e] c];
    cbn [fst snd db committed print] in *; exact H.
Qed.

(** X7.  When [area_data] is not a list: a dict or a string without
    items empties the keyed rows of the table, as the empty list does;
    anything else ends the run with TypeError right after the id read,
    with the database file as before and the connection never closed. *)
Theorem not_a_list (area_data : json) (t : table) :
  is_array area_data = false ->
  let r := update_database_with_new_areas healthy area_data t in
  match iter area_data with
  | Ok [] => reported r = false ∧ db r = Table ∅ (null_rows t)
  | _ => printed r = [DatabaseError TypeError] ∧ db r = t
         ∧ made r = [(CConnect, true); (CSelect, true)]
  end.
Proof.
  intros Ha. cbv zeta.
  assert (He : ∀ d, iter d = Ok [] ->
            let r := update_database_with_new_areas healthy d t in
            reported r = false ∧ db r = Table ∅ (null_rows t)).
  { intros d Hd. cbv zeta. unfold update_database_with_new_areas, try_except, reported.
    rewrite (reconcile_accepted d [] t Hd eq_refl).
    cbn [fst snd committed db printed out]. split.
    - rewrite app_nil_r. by induction (stale_ids [] t).
    - rewrite (accepted_table [] t eq_refl). cbn. by rewrite app_nil_r. }
  destruct area_data as [| | |s|l|kvs]; try discriminate; try by repeat split.
  - destruct s as [|c s]; [by apply He|]. by repeat split.
  - destruct kvs as [|kv kvs]; [by apply He|]. by repeat split.
Qed.

Lemma not_a_list_witness :
  is_array (JObj [(py "areas", JArr [kitchen])]) = false
  ∧ db (update_database_with_new_areas healthy
          (JObj [(py "areas", JArr [kitchen])]) store_AB) = store_AB.
Proof.
  split; [reflexivity|].
  apply (not_a_list (JObj [(py "areas", JArr [kitchen])]) store_AB eq_refl).
Defined.

(** X8.  Applying a list of accepted items a second time changes
    nothing exactly when no item is written with a NULL key: an item
    whose id is null adds its row again on every run. *)
Theorem idempotent_iff_no_null_id (l : list json) (t : table) :
  forallb accepted l = true ->
  let t1 := db (update_database_with_new_areas healthy (JArr l) t) in
  let t2 := db (update_database_with_new_areas healthy (JArr l) t1) in
  (t2 = t1 <-> null_rows (rows_written l) = [])
  ∧ null_rows t2 = null_rows t ++ null_rows (rows_written l) ++ null_rows (rows_written l).
Proof.
  intros Hl. cbv zeta. rewrite !run_accepted by exact Hl.
  cbn [null_rows]. split; [|by rewrite <- app_assoc].
  split.
  - intros [= H]. rewrite <- (app_nil_r (null_rows t ++ _)) in H at 2.
    by apply app_inv_head in H.
  - intros ->. by rewrite !app_nil_r.
Qed.

Lemma idempotent_iff_no_null_id_witness :
  let t1 := db (update_database_with_new_areas healthy (JArr [kitchen; stray]) store_AB) in
  let t2 := db (update_database_with_new_areas healthy (JArr [kitchen; stray]) t1) in
  forallb accepted [kitchen; stray] = true
  ∧ length (null_rows t1) = 1 ∧ length (null_rows t2) = 2.
Proof.
  cbv zeta. split; [reflexivity|]. split; [reflexivity|].
  rewrite (proj2 (idempotent_iff_no_null_id [kitchen; stray] store_AB eq_refl)).
  reflexivity.
Defined.

Lemma cell_JInt z k : cell (JInt z) = Some k -> k = Some (decimal z).
Proof.
  unfold cell. cbn [bind_param].
  destruct (_ && _); [|discriminate]. cbn. congruence.
Qed.

(** X9.  An id that is a number is stored as its decimal text, which
    the next run does not find among the ids of the list: the run on the
    same single item deletes the row, prints "Deleted ...", and writes
    the row again. *)
Theorem integer_id_is_relisted (a : json) (z : Z) (t : table) :
  field a (py "id") = Some (JInt z) ->
  accepted a = true ->
  let t1 := db (update_database_with_new_areas healthy (JArr [a]) t) in
  let r := update_database_with_new_areas healthy (JArr [a]) t1 in
  is_Some (keyed t1 !! decimal z)
  ∧ Deleted (Some (decimal z)) ∈ printed r
  ∧ last (printed r) = Some (written_line a)
  ∧ keyed (db r) = keyed t1.
Proof.
  intros Hi Ha. cbv zeta.
  assert (Hl : forallb accepted [a] = true) by (cbn; by rewrite Ha).
  destruct (accepted_key a _ Ha Hi) as (k & w & Hk & Hw).
  apply cell_JInt in Hk as ->.
  assert (Hwr : keyed (rows_written [a]) = {[decimal z := w]}).
  { unfold rows_written. cbn [foldl]. unfold write_row. rewrite Hw. cbn.
    by rewrite insert_empty. }
  rewrite run_printed, !run_accepted by exact Hl. cbn [keyed null_rows].
  rewrite Hwr. split; [rewrite lookup_singleton_eq; eauto|].
  split; [|split; [|done]].
  - apply elem_of_app. left. apply list_elem_of_fmap.
    exists (Some (decimal z)). split; [done|].
    apply stale_ids_Some. cbn [keyed]. split.
    + rewrite lookup_singleton_eq. eauto.
    + intros b ->%list_elem_of_singleton. by rewrite Hi.
  - cbn [fmap list_fmap]. apply last_snoc.
Qed.

Lemma integer_id_is_relisted_witness :
  field numbered (py "id") = Some (JInt 7)
  ∧ accepted numbered = true
  ∧ is_Some (keyed (db (update_database_with_new_areas healthy (JArr [numbered])
                          store_AB)) !! decimal 7).
Proof.
  split; [reflexivity|]. split; [reflexivity|].
  apply (integer_id_is_relisted numbered 7 store_AB); reflexivity.
Defined.

Lemma is_record_id r :
  is_record r = true -> ∃ i, field r (py "id") = Some (JStr i).
Proof.
  intros Hr. destruct (is_record_fields r Hr) as (kvs & -> & Hid & _).
  destruct (text_field_bind _ _ Hid) as (i & Hi & _). eauto.
Qed.

(** X10.  When the table holds a row whose key is NULL, every run on a
    snapshot makes a DELETE for the id None and prints "Deleted area
    with ID: None", and the rows without a key are all still there. *)
Theorem null_row_is_reported_deleted (s : list json) (t : table) (w : row)
    (ws : list row) :
  is_snapshot s = true ->
  null_rows t = w :: ws ->
  let r := update_database_with_new_areas healthy (JArr s) t in
  None ∈ stale_ids s t
  ∧ Deleted None ∈ printed r
  ∧ null_rows (db r) = w :: ws.
Proof.
  intros Hs Hn. cbv zeta.
  pose proof (is_snapshot_accepted s Hs) as Hl.
  rewrite run_printed by exact Hl.
  destruct (apply_snapshot s t Hs) as [-> _]. cbn [mirrored null_rows].
  assert (Hin : None ∈ stale_ids s t).
  { unfold stale_ids, select_ids. rewrite Hn. apply list_elem_of_filter. split.
    - clear Hl Hn. unfold is_snapshot in Hs. induction s as [|r s IH]; [done|].
      cbn in Hs. apply andb_true_iff in Hs as [Hr Hs].
      destruct (is_record_id r Hr) as [i Hi].
      cbn [omap list_omap]. rewrite Hi. cbn. by apply IH.
    - apply elem_of_app. right. left. }
  split; [exact Hin|]. split; [|exact Hn].
  apply elem_of_app. left. apply list_elem_of_fmap. by exists None.
Qed.

Lemma null_row_is_reported_deleted_witness :
  is_snapshot [kitchen] = true
  ∧ null_rows store_AB_stray = [stored_row attic]
  ∧ null_rows (db (update_database_with_new_areas healthy (JArr [kitchen])
                     store_AB_stray)) = [stored_row attic].
Proof.
  split; [reflexivity|]. split; [reflexivity|].
  exact (proj2 (proj2 (null_row_is_reported_deleted [kitchen] store_AB_stray
                         (stored_row attic) [] eq_refl eq_refl))).
Defined.

(** ** The two loops over several turns *)

Section Loops.
Context {T : Type} `{EqDecision T}.

Lemma poll_cannot_publish (e : env (T:=T)) last q :
  can_publish e = false -> (poll_file_changes e last q).1 = (last, q).
Proof.
  unfold can_publish, poll_file_changes. intros H.
  destruct (getmtime e) as [m|]; [|done].
  destruct (modified last m); [|done].
  destruct (read_areas (content e)); [|done]. by rewrite H.
Qed.

Lemma poll_same_time (e : env (T:=T)) m q :
  mtime_is m e = true -> (poll_file_changes e (Some m) q).1 = (Some m, q).
Proof.
  unfold mtime_is, poll_file_changes.
  destruct (getmtime e) as [x|]; [|done].
  intros ->%bool_decide_eq_true. unfold modified.
  by rewrite bool_decide_eq_true_2.
Qed.

Lemma poll_turns_idle (es : list (env (T:=T))) : ∀ last q,
  forallb (fun e => negb (can_publish e)) es = true ->
  poll_turns es last q = (last, q).
Proof.
  unfold poll_turns. induction es as [|e es IH]; intros last q Hes; [done|].
  cbn in Hes. apply andb_true_iff in Hes as [He Hes].
  cbn [foldl fst snd]. rewrite poll_cannot_publish by by apply negb_true_iff.
  by apply IH.
Qed.

Lemma poll_turns_steady (es : list (env (T:=T))) m : ∀ q,
  forallb (mtime_is m) es = true ->
  poll_turns es (Some m) q = (Some m, q).
Proof.
  unfold poll_turns. induction es as [|e es IH]; intros q Hes; [done|].
  cbn in Hes. apply andb_true_iff in Hes as [He Hes].
  cbn [foldl fst snd]. rewrite poll_same_time by exact He.
  by apply IH.
Qed.

(** X11.  The polling loop keeps trying: through any number of turns in
    which the file cannot be read or the queue refuses the item nothing
    is recorded; the first turn that can read the changed file puts its
    areas on the queue, once; and as long as the file keeps that
    modification time no later turn reads it again, whatever it holds. *)
Theorem poll_retries_until_read (before after : list (env (T:=T)))
    (e : env (T:=T)) (m : T) (areas : json) (last : option T) (q : list json) :
  forallb (fun e => negb (can_publish e)) before = true ->
  getmtime e = Ok m -> modified last m = true ->
  read_areas (content e) = Ok areas -> put_ok e = true ->
  forallb (mtime_is m) after = true ->
  poll_turns (before ++ e :: after) last q = (Some m, q ++ [areas]).
Proof.
  intros Hb Hm Hmod Hr Hp Ha. unfold poll_turns. rewrite foldl_app.
  fold (poll_turns before last q). rewrite poll_turns_idle by exact Hb.
  cbn [foldl fst snd]. unfold poll_file_changes at 2.
  rewrite Hm, Hmod, Hr, Hp. cbn [fst].
  by apply (poll_turns_steady after m).
Qed.

Lemma poll_turn_cases (e : env (T:=T)) last q :
  (poll_file_changes e last q).1 = (last, q)
  ∨ ∃ m a, (poll_file_changes e last q).1 = (Some m, q ++ [a])
           ∧ read_areas (content e) = Ok a.
Proof.
  unfold poll_file_changes.
  destruct (getmtime e) as [m|]; [|by left].
  destruct (modified last m); [|by left].
  destruct (read_areas (content e)) as [a|]; [|by left].
  destruct (put_ok e); [|by left]. right. by exists m, a.
Qed.

(** X12.  Whatever the turns find, the polling loop only ever appends to
    the queue, at most one item per turn, each one read from the file in
    one of the turns; and starting without a recorded time, it has a
    recorded time exactly when it has put something on the queue. *)
Theorem poll_only_appends (es : list (env (T:=T))) (last : option T)
    (q : list json) :
  ∃ added,
    (poll_turns es last q).2 = q ++ added
    ∧ length added ≤ length es
    ∧ Forall (fun a => ∃ e, e ∈ es ∧ read_areas (content e) = Ok a) added
    ∧ (last = None -> ((poll_turns es last q).1 = None <-> added = [])).
Proof.
  induction es as [|e es IH] using rev_ind.
  - exists []. cbn. rewrite app_nil_r. repeat split; auto.
  - destruct IH as (added & Hq & Hlen & Hall & Hnone).
    unfold poll_turns in *. rewrite foldl_app. cbn [foldl].
    destruct (foldl _ (last, q) es) as [l' q'] eqn:E. cbn [fst snd] in *.
    destruct (poll_turn_cases e l' q') as [->|(m & a & -> & Hr)]; cbn [fst snd].
    + exists added. split; [exact Hq|]. split; [rewrite length_app; lia|].
      split; [|exact Hnone].
      eapply Forall_impl; [exact Hall|]. intros x (e' & He' & Hx).
      exists e'. split; [apply elem_of_app; by left|exact Hx].
    + exists (added ++ [a]). split; [by rewrite Hq, app_assoc|].
      split; [rewrite !length_app; cbn; lia|]. split.
      * apply Forall_app. split.
        -- eapply Forall_impl; [exact Hall|]. intros x (e' & He' & Hx).
           exists e'. split; [apply elem_of_app; by left|exact Hx].
        -- constructor; [|constructor]. exists e. split; [|exact Hr].
           apply elem_of_app. right. left.
      * intros _. split; [discriminate|].
        intros Hn. by apply app_eq_nil in Hn as [_ ?].
Qed.

Lemma updater_turns_nil (es : list (env (T:=T))) : ∀ t, updater_turns es [] t = ([], t).
Proof.
  unfold updater_turns. induction es as [|e es IH]; intros t; [done|].
  cbn [foldl]. apply IH.
Qed.

(** X13.  The updater empties the queue in the order of arrival: with
    snapshots on the queue, at least as many turns as snapshots, and no
    failing call, the table ends as the snapshots applied one after the
    other, and the queue is empty. *)
Theorem updater_drains_in_order (es : list (env (T:=T))) (ss : list (list json))
    (t : table) :
  Forall (fun e => db_fails e = healthy) es ->
  length ss ≤ length es ->
  updater_turns es (JArr <$> ss) t = ([], foldl apply_to t ss).
Proof.
  revert ss t. induction es as [|e es IH]; intros ss t Hes Hlen.
  - destruct ss; [done|cbn in Hlen; lia].
  - destruct ss as [|s ss]; [apply updater_turns_nil|].
    apply Forall_cons in Hes as [He Hes]. cbn in Hlen.
    unfold updater_turns. cbn [foldl fmap list_fmap fst snd database_updater].
    rewrite He. fold (apply_to t s).
    apply (IH ss (apply_to t s)); [exact Hes|lia].
Qed.

(** X14.  A turn of the updater takes the first snapshot off the queue
    whether or not the update works: after a failure the snapshot is
    gone, the database file is as before or as the whole update leaves
    it, and the line "Database update completed successfully" follows
    the line "Database error". *)
Theorem updater_drops_a_failed_snapshot (e : env (T:=T)) (areas : json)
    (q : list json) (t : table) :
  let r := update_database_with_new_areas (db_fails e) areas t in
  let o := database_updater e (areas :: q) t in
  o.1.1 = q
  ∧ (o.1.2 = t ∨ o.1.2 = db (update_database_with_new_areas healthy areas t))
  ∧ o.2 = printed r ++ [Completed]
  ∧ (reported r = true ->
     ∃ x ls', o.2 = ls' ++ [DatabaseError x; Completed]
              ∧ (close_failed (made r) = false -> o.1.2 = t)).
Proof.
  cbv zeta. cbn [database_updater fst snd]. split; [done|].
  rewrite run_reported.
  pose proof (whole_reconcile (db_fails e) areas (Conn t t [] [])) as Hw.
  pose proof (rolls_back_reconcile (db_fails e) areas (Conn t t [] [])) as Hr.
  unfold update_database_with_new_areas, try_except.
  destruct (reconcile (db_fails e) areas (Conn t t [] [])) as [[[]|x] c];
    destruct (reconcile healthy areas (Conn t t [] [])) as [[[]|x'] c'];
    cbn [db printed made committed calls out fst snd print] in *;
    (split; [exact Hw|]); (split; [done|]); try discriminate;
    intros _; exists x, (out c); (split; [by rewrite <- app_assoc|]);
    intros Hc; apply Hr; tauto.
Qed.

End Loops.


Lemma poll_retries_until_read_witness :
  forallb (fun e => negb (can_publish e)) [garbled_file] = true
  ∧ forallb (mtime_is 1%Z) [stale_file] = true
  ∧ poll_turns [garbled_file; registry_file; stale_file] None []
    = (Some 1%Z, [JArr [kitchen; garage]]).
Proof.
  split; [reflexivity|]. split; [reflexivity|].
  exact (poll_retries_until_read [garbled_file] [stale_file] registry_file 1%Z
           (JArr [kitchen; garage]) None [] eq_refl eq_refl eq_refl eq_refl
           eq_refl eq_refl).
Defined.

Lemma poll_only_appends_witness :
  ∃ added,
    (poll_turns [garbled_file; registry_file] None []).2 = [] ++ added
    ∧ length added ≤ 2
    ∧ ((poll_turns [garbled_file; registry_file] None []).1 = None
       <-> added = []).
Proof.
  destruct (poll_only_appends [garbled_file; registry_file] None [])
    as (added & H1 & H2 & _ & H4).
  exists added. split; [exact H1|]. split; [exact H2|]. exact (H4 eq_refl).
Defined.

Lemma updater_drains_in_order_witness :
  Forall (fun e => db_fails e = healthy) [registry_file; registry_file]
  ∧ updater_turns [registry_file; registry_file]
      (JArr <$> [[kitchen]; [garage]]) store_AB
    = ([], foldl apply_to store_AB [[kitchen]; [garage]]).
Proof.
  assert (H : Forall (fun e : env (T:=Z) => db_fails e = healthy)
                [registry_file; registry_file]) by (repeat constructor).
  split; [exact H|].
  apply (updater_drains_in_order [registry_file; registry_file]
           [[kitchen]; [garage]] store_AB H).
  cbn. lia.
Defined.

Lemma updater_drops_a_failed_snapshot_witness :
  reported (update_database_with_new_areas (db_fails stale_file)
              (JArr [kitchen]) store_AB) = true
  ∧ (database_updater stale_file [JArr [kitchen]; JArr [garage]] store_AB).1.1
    = [JArr [garage]]
  ∧ (database_updater stale_file [JArr [kitchen]; JArr [garage]] store_AB).1.2
    = store_AB.
Proof.
  split; [reflexivity|].
  destruct (updater_drops_a_failed_snapshot stale_file (JArr [kitchen])
              [JArr [garage]] store_AB) as (H1 & _ & _ & H4).
  split; [exact H1|].
  destruct (H4 eq_refl) as (x & ls' & _ & Ht).
  exact (Ht eq_refl).
Defined.

(** ** The process under every schedule *)

Section Process.
Context {T : Type} `{EqDecision T}.

Lemma exec_dead schedule : ∀ p : process (T:=T),
  alive p = false -> exec schedule p = p.
Proof.
  induction schedule as [|te s IH]; intros p Hp; [done|].
  cbn [exec foldl]. unfold step at 2. rewrite Hp. by apply IH.
Qed.

Lemma init_file_cases fails file :
  init_file (initialize_database fails file) = file
  ∨ init_file (initialize_database fails file) = Some (default empty_table file).
Proof.
  unfold initialize_database. cbn [init_calls].
  destruct (fails 0), (fails 1), (fails 2), (fails 3); cbn; auto.
Qed.

(** What a step adds to the history, and what it may do to the database
    file. *)
Lemma step_history (p : process (T:=T)) te :
  ∃ h, history (step p te) = history p ++ h
       ∧ (existsb touches_database h = false ->
          database (step p te) = database p).
Proof.
  unfold step. destruct (alive p); [|exists []; by rewrite app_nil_r].
  destruct te as [[] e]; cbn [fst snd].
  - unfold main.
    destruct (pc p) as [|[|[|[|[|[|n]]]]]]; cbv zeta;
      try destruct (init_result (initialize_database (db_fails e) (database p)));
      try destruct (file_exists e); try destruct (read_areas (content e));
      cbn [history database];
      try (eexists; split; [reflexivity|]; cbn; done).
    all: exists []; by rewrite app_nil_r.
  - unfold polling_step. destruct (polling p); [|exists []; by rewrite app_nil_r].
    destruct (poll_file_changes e o (update_queue p)) as [[l q] ?].
    cbn [history database]. eexists; split; [reflexivity|done].
  - unfold updater_step. destruct (updating p); [|exists []; by rewrite app_nil_r].
    destruct (update_queue p) as [|a q]; [exists []; by rewrite app_nil_r|].
    destruct (database p) as [t|];
      [destruct (database_updater e (a :: q) t) as [[q' t'] ?]|];
      cbn [history database]; (eexists; split; [reflexivity|]); cbn; done.
Qed.

(** X15.  The database file changes only in [initialize_database] (which
    makes the table, also when it raises after the CREATE), in a step of
    the updater that takes a snapshot off the queue, and in the initial
    sync: over any schedule that adds none of these events to the
    history the file is as before.  The polling thread never writes it,
    nor do the file check and the starts of the threads. *)
Theorem writers_of_the_database (schedule : list (thread * env (T:=T)))
    (p : process (T:=T)) :
  ∃ h, history (exec schedule p) = history p ++ h
       ∧ (existsb touches_database h = false ->
          database (exec schedule p) = database p).
Proof.
  revert p. induction schedule as [|te s IH]; intros p.
  - exists []. by rewrite app_nil_r.
  - cbn [exec foldl]. destruct (step_history p te) as (h1 & Hh1 & Hd1).
    destruct (IH (step p te)) as (h2 & Hh2 & Hd2). fold (exec s (step p te)).
    exists (h1 ++ h2). split.
    + by rewrite Hh2, Hh1, app_assoc.
    + rewrite existsb_app. intros [H1 H2]%orb_false_iff.
      by rewrite Hd2, Hd1.
Qed.

Lemma idle_step file (p : process (T:=T)) te :
  file_exists te.2 = false -> idle file p -> idle file (step p te).
Proof.
  intros He Hp. pose proof Hp as (H1 & H2 & H3 & H4 & H5 & H6 & H7).
  unfold step. destruct (alive p) eqn:Ha; [|exact Hp].
  destruct te as [[] e]; cbn [fst snd] in *.
  - unfold main. destruct (pc p) as [|[|n]] eqn:Hpc.
    + cbv zeta.
      assert (Hf : init_file (initialize_database (db_fails e) (database p)) = file
                   ∨ init_file (initialize_database (db_fails e) (database p))
                     = Some (default empty_table file)).
      { destruct (init_file_cases (db_fails e) (database p)) as [->| ->];
          destruct H1 as [->| ->]; auto. }
      destruct (init_result (initialize_database (db_fails e) (database p)));
        unfold idle; cbn [database polling updating update_queue pc alive history];
        rewrite existsb_app, H7; cbn; repeat split; auto; try lia; discriminate.
    + rewrite He. unfold idle. cbn. rewrite existsb_app, H7. cbn.
      repeat split; auto.
    + assert (n = 0) as -> by lia. by specialize (H6 eq_refl).
  - unfold polling_step. by rewrite H2.
  - unfold updater_step. by rewrite H3.
Qed.

(** X16.  While the registry file does not exist, [main] ends at
    [initialize_database], when that raises, or returns at the check of
    line 127: under every schedule no thread is started, nothing is put
    on the queue and no update is made; the database file is as it was,
    or holds the table that [initialize_database] made; and after two
    steps of [main] the process has ended. *)
Theorem missing_file_ends_main (schedule : list (thread * env (T:=T)))
    (file : option table) :
  forallb (fun te => negb (file_exists te.2)) schedule = true ->
  let p := exec schedule (start file) in
  (database p = file ∨ database p = Some (default empty_table file))
  ∧ polling p = None ∧ updating p = false
  ∧ update_queue p = [] ∧ existsb is_write (history p) = false
  ∧ (2 ≤ main_steps schedule -> alive p = false).
Proof.
  intros Hs. cbv zeta.
  assert (Hi : ∀ s (p : process (T:=T)),
            forallb (fun te => negb (file_exists te.2)) s = true ->
            idle file p -> idle file (exec s p)
            ∧ (alive (exec s p) = true -> pc (exec s p) = pc p + main_steps s)).
  { clear. induction s as [|te s IH]; intros p Hs Hp.
    - split; [exact Hp|]. intros _. unfold main_steps. cbn. lia.
    - cbn in Hs. apply andb_true_iff in Hs as [He Hs].
      apply negb_true_iff in He.
      destruct (IH (step p te) Hs (idle_step file p te He Hp)) as [Hi Hpc].
      split; [exact Hi|]. intros Ha. cbn [exec foldl]. fold (exec s (step p te)).
      rewrite (Hpc Ha). clear Hpc.
      assert (Hal : alive p = true).
      { destruct (alive p) eqn:E; [done|].
        rewrite (exec_dead (te :: s) p E) in Ha. congruence. }
      unfold main_steps, count. cbn [List.filter].
      unfold step. rewrite Hal. destruct te as [[] e]; cbn [fst snd length].
      + unfold main. destruct Hp as (_ & _ & _ & _ & H5 & H6 & _).
        destruct (pc p) as [|[|n]] eqn:Hpc; cbn [pc].
        * cbv zeta.
          destruct (init_result (initialize_database (db_fails e) (database p)));
            cbn [pc]; lia.
        * cbn in He. rewrite He. cbn [pc]. lia.
        * assert (n = 0) as -> by lia. specialize (H6 eq_refl). congruence.
      + destruct Hp as (_ & H2 & _). unfold polling_step. by rewrite H2.
      + destruct Hp as (_ & _ & H3 & _). unfold updater_step. by rewrite H3. }
  assert (H0 : idle (T:=T) file (start file)).
  { unfold idle, start. cbn. repeat split; auto; lia. }
  destruct (Hi schedule (start file) Hs H0)
    as [(H1 & H2 & H3 & H4 & H5 & H6 & H7) Hpc].
  repeat split; auto.
  intros Hn. destruct (alive (exec schedule (start file))) eqn:Ha; [|done].
  specialize (Hpc eq_refl). cbn in Hpc.
  apply H6. lia.
Qed.

Lemma init_healthy file :
  initialize_database healthy file
  = InitRun (Returned JNull) (Some (default empty_table file))
      [(IConnect, true); (ICreate, true); (ICommit, true); (IClose, true)]
      [Initialized].
Proof. reflexivity. Qed.

Lemma settled_step s t n (p : process (T:=T)) (th : thread) (e : env (T:=T)) :
  file_exists e = true -> read_areas (content e) = Ok (JArr s) ->
  is_snapshot s = true -> db_fails e = healthy ->
  settled s t n p ->
  settled s t (match th with MainThread => S n | _ => n end) (step p (th, e)).
Proof.
  intros Hf Hr Hs Hd (Ha & Hpc & Hq & Har & Hdb & H6).
  assert (Hw : ∀ t', (t' = mirrored s t ∨ t' = t) ->
             db (update_database_with_new_areas healthy (JArr s) t') = mirrored s t).
  { intros t' [->| ->].
    - exact (proj1 (apply_snapshot s (mirrored s t) Hs)).
    - exact (proj1 (apply_snapshot s t Hs)). }
  assert (Hdb' : ∃ t', database p = Some t' ∧ (t' = mirrored s t ∨ t' = t)).
  { rewrite Hdb. destruct (existsb _ _); eauto. }
  destruct Hdb' as (t' & Et & Ht').
  unfold step. rewrite Ha. destruct th; cbn [fst snd].
  - unfold main.
    destruct (pc p) as [|[|[|[|[|[|k]]]]]] eqn:Ep;
      rewrite ?Hd, ?init_healthy, ?Hf, ?Hr; cbv zeta;
      cbn [init_result init_file]; unfold settled;
      cbn [alive pc update_queue areas database history];
      rewrite ?existsb_app; cbn [existsb is_write orb];
      rewrite ?orb_false_r, ?orb_true_r.
    + rewrite Et in Hdb |- *. cbn [default]. repeat split; auto; try lia; discriminate.
    + repeat split; auto; try lia; discriminate.
    + repeat split; auto; try lia; discriminate.
    + repeat split; auto; try lia; discriminate.
    + repeat split; auto; try lia; discriminate.
    + rewrite Har, Et by done. cbn [fmap option_fmap option_map].
      rewrite Hw by exact Ht'. repeat split; auto; try lia.
    + rewrite Ha, Ep. repeat split; auto; try lia.
  - unfold polling_step. destruct (polling p) as [l|]; [|by repeat split].
    pose proof (poll_turn_cases e l (update_queue p)) as Hc.
    destruct (poll_file_changes e l (update_queue p)) as [[l' q'] ?].
    unfold settled. cbn [alive pc update_queue areas database history].
    rewrite existsb_app. cbn [existsb is_write orb]. rewrite orb_false_r.
    repeat split; auto.
    cbn [fst] in Hc. destruct Hc as [[= -> ->]|(m & a & [= -> ->] & Ha')]; [done|].
    apply Forall_app. split; [done|]. constructor; [congruence|constructor].
  - unfold updater_step. destruct (updating p); [|by repeat split].
    destruct (update_queue p) as [|a q] eqn:Eq;
      [unfold settled; rewrite Eq; by repeat split|].
    apply Forall_cons in Hq as [-> Hq]. rewrite Et.
    cbn [database_updater]. unfold settled.
    cbn [alive pc update_queue areas database history].
    rewrite existsb_app. cbn [existsb is_write orb]. rewrite orb_true_r.
    rewrite Hd, Hw by exact Ht'. repeat split; auto.
Qed.

(** X17.  While the registry file stays as it is, with a snapshot in it,
    and no call fails, then under every interleaving of the three
    threads (an update taken as one step) the table is the one found at
    the start until the first update and the mirror of the snapshot from
    then on; and once [main] has taken its six steps the table mirrors
    the snapshot. *)
Theorem steady_file_is_mirrored (e : env (T:=T)) (s : list json) (t : table)
    (threads : list thread) :
  file_exists e = true -> read_areas (content e) = Ok (JArr s) ->
  is_snapshot s = true -> db_fails e = healthy ->
  let schedule := (fun th => (th, e)) <$> threads in
  let p := exec schedule (start (Some t)) in
  alive p = true
  ∧ database p
    = Some (if existsb is_write (history p) then mirrored s t else t)
  ∧ (6 ≤ main_steps schedule -> database p = Some (mirrored s t)).
Proof.
  intros Hf Hr Hs Hd. cbv zeta.
  assert (Hi : ∀ ths n (p : process (T:=T)), settled s t n p ->
            settled s t (n + main_steps ((fun th => (th, e)) <$> ths))
              (exec ((fun th => (th, e)) <$> ths) p)).
  { induction ths as [|th ths IH]; intros n p Hp.
    - unfold main_steps, count. cbn. by rewrite Nat.add_0_r.
    - cbn [fmap list_fmap exec foldl].
      pose proof (settled_step s t n p th e Hf Hr Hs Hd Hp) as Hp'.
      apply IH in Hp'. unfold main_steps, count in *.
      cbn [List.filter fst]. destruct th; cbn [length];
        [rewrite Nat.add_succ_r|..]; exact Hp'. }
  assert (H0 : settled (T:=T) s t 0 (start (Some t))).
  { unfold settled, start. cbn. repeat split; auto; try lia; discriminate. }
  destruct (Hi threads 0 (start (Some t)) H0) as (Ha & Hpc & _ & _ & Hdb & H6).
  split; [exact Ha|]. split; [exact Hdb|].
  intros Hn. rewrite Hdb, H6; [done|]. rewrite Hpc. cbn [Nat.add]. lia.
Qed.


(** X19.  A registry file that cannot be read ends the process when the
    initial sync meets it, since [main] catches KeyboardInterrupt only;
    from then on no thread does anything.  The same file is survived by
    the polling loop, which prints the error and goes on. *)
Theorem unreadable_file_at_sync (p : process (T:=T)) (e : env (T:=T))
    (x : exn) (schedule : list (thread * env (T:=T))) :
  alive p = true -> pc p = 4 -> read_areas (content e) = Raise x ->
  let p' := step p (MainThread, e) in
  alive p' = false ∧ database p' = database p
  ∧ exec schedule p' = p'
  ∧ alive (step p (PollingThread, e)) = true
  ∧ update_queue (step p (PollingThread, e)) = update_queue p.
Proof.
  intros Ha Hpc Hr. cbv zeta. unfold step. rewrite Ha. cbn [fst snd].
  assert (Hm : main e p =
            Process 5 false (polling p) (updating p) (update_queue p) (areas p)
              (database p) (history p ++ [Exited]))
    by (unfold main; by rewrite Hpc, Hr).
  rewrite Hm. cbn [alive database].
  split; [done|]. split; [done|]. split; [by apply exec_dead|].
  unfold polling_step. destruct (polling p) as [l|]; [|done].
  assert (Hc : can_publish e = false) by (unfold can_publish; by rewrite Hr).
  pose proof (poll_cannot_publish e l (update_queue p) Hc) as Hp.
  destruct (poll_file_changes e l (update_queue p)) as [[l' q'] ?].
  cbn [fst] in Hp. injection Hp as -> ->. done.
Qed.

(** X25.  When [initialize_database] raises, [main] ends there, before
    the check of the registry file: no thread is started and nothing
    else happens under any schedule, and the database file is as
    [initialize_database] left it. *)
Theorem failed_initialisation_ends_main (e : env (T:=T)) (file : option table)
    (x : exn) (schedule : list (thread * env (T:=T))) :
  init_result (initialize_database (db_fails e) file) = Raised x ->
  let p := exec ((MainThread, e) :: schedule) (start file) in
  alive p = false ∧ polling p = None ∧ updating p = false
  ∧ update_queue p = []
  ∧ history p = [InitFailed; Exited]
  ∧ database p = init_file (initialize_database (db_fails e) file).
Proof.
  intros Hx. cbv zeta. cbn [exec foldl].
  assert (Hm : step (start file) (MainThread, e) =
            Process 1 false None false [] JNull
              (init_file (initialize_database (db_fails e) file))
              [InitFailed; Exited]).
  { unfold step, start, main. cbn [alive pc fst snd database]. cbv zeta.
    by rewrite Hx. }
  rewrite Hm. fold (exec schedule (Process (T:=T) 1 false None false [] JNull
                      (init_file (initialize_database (db_fails e) file))
                      [InitFailed; Exited])).
  by rewrite exec_dead.
Qed.

End Process.


Lemma writers_of_the_database_witness :
  database (exec [(PollingThread, registry_file)] before_sync)
  = database before_sync.
Proof.
  destruct (writers_of_the_database [(PollingThread, registry_file)] before_sync)
    as (h & Hh & Hd).
  apply Hd.
  assert (E : h = [Observed]).
  { apply (app_inv_head (history before_sync)). rewrite <- Hh. reflexivity. }
  rewrite E. reflexivity.
Defined.

Lemma missing_file_ends_main_witness :
  let schedule := [(MainThread, no_file); (PollingThread, no_file);
                   (MainThread, no_file); (UpdaterThread, no_file)] in
  forallb (fun te => negb (file_exists te.2)) schedule = true
  ∧ alive (exec schedule (start None)) = false
  ∧ polling (exec schedule (start None)) = None
  ∧ update_queue (exec schedule (start None)) = [].
Proof.
  cbv zeta. split; [reflexivity|].
  destruct (missing_file_ends_main
              [(MainThread, no_file); (PollingThread, no_file);
               (MainThread, no_file); (UpdaterThread, no_file)] None eq_refl)
    as (_ & H2 & _ & H4 & _ & H6).
  split; [|split; [exact H2|exact H4]]. apply H6. vm_compute. lia.
Defined.

Lemma steady_file_is_mirrored_witness :
  let threads := [MainThread; MainThread; PollingThread; MainThread;
                  UpdaterThread; MainThread; MainThread; MainThread] in
  is_snapshot [kitchen; garage] = true
  ∧ database (exec ((fun th => (th, registry_file)) <$> threads)
                (start (Some store_AB)))
    = Some (mirrored [kitchen; garage] store_AB).
Proof.
  cbv zeta. split; [reflexivity|].
  apply (steady_file_is_mirrored registry_file [kitchen; garage] store_AB
           [MainThread; MainThread; PollingThread; MainThread;
            UpdaterThread; MainThread; MainThread; MainThread]
           eq_refl eq_refl eq_refl eq_refl).
  vm_compute. lia.
Defined.


Lemma failed_initialisation_ends_main_witness :
  init_result (initialize_database (db_fails stale_file) None)
  = Raised OperationalError
  ∧ alive (exec [(MainThread, stale_file); (MainThread, registry_file);
                 (PollingThread, registry_file)] (start None)) = false.
Proof.
  split; [reflexivity|].
  exact (proj1 (failed_initialisation_ends_main stale_file None OperationalError
                  [(MainThread, registry_file); (PollingThread, registry_file)]
                  eq_refl)).
Defined.

Lemma unreadable_file_at_sync_witness :
  pc before_sync = 4
  ∧ read_areas (content garbled_file) = Raise JSONDecodeError
  ∧ alive (step before_sync (MainThread, garbled_file)) = false
  ∧ alive (step before_sync (PollingThread, garbled_file)) = true.
Proof.
  split; [reflexivity|]. split; [reflexivity|].
  destruct (unreadable_file_at_sync before_sync garbled_file JSONDecodeError
              [(PollingThread, registry_file)] eq_refl eq_refl eq_refl)
    as (H1 & _ & _ & H4 & _).
  split; [exact H1|exact H4].
Defined.

(** ** The paths and [initialize_database] *)

(** X20.  The directory named by HOME_DIR plays no part: both file
    names are absolute second arguments of [os.path.join], which drops
    the first; whatever HOME_DIR is set to, the program reads
    /config/.storage/core.area_registry and writes
    /config/home-assistant_v2.db. *)
Theorem paths_ignore_home_dir (home : str) :
  path_join home (py "/config/.storage/core.area_registry") = AREA_REGISTRY_FILE
  ∧ path_join home (py "/config/home-assistant_v2.db") = DATABASE_FILE
  ∧ AREA_REGISTRY_FILE = py "/config/.storage/core.area_registry"
  ∧ DATABASE_FILE = py "/config/home-assistant_v2.db".
Proof. repeat split. Qed.

(** X21.  [initialize_database] never changes the rows of a table that
    is there, whichever call fails; the table exists as soon as the
    CREATE has worked, even when the commit or the close after it fails;
    and a second run after one that worked changes nothing. *)
Theorem initialize_keeps_rows (fails : nat -> bool) (file : option table) :
  let r := initialize_database fails file in
  (∀ t, file = Some t -> init_file r = Some t)
  ∧ init_file r = (if existsb create_worked (init_made r)
                   then Some (default empty_table file) else file)
  ∧ (init_result r = Returned JNull ->
     is_Some (init_file r)
     ∧ init_file (initialize_database healthy (init_file r)) = init_file r).
Proof.
  cbv zeta. unfold initialize_database. cbn [init_calls].
  destruct (fails 0), (fails 1), (fails 2), (fails 3);
    cbn; repeat split; try discriminate; eauto; by intros ? ->.
Qed.

Lemma initialize_keeps_rows_witness :
  init_file (initialize_database (fails_at 2) (Some store_AB)) = Some store_AB
  ∧ init_result (initialize_database healthy None) = Returned JNull
  ∧ is_Some (init_file (initialize_database healthy None)).
Proof.
  split.
  - exact (proj1 (initialize_keeps_rows (fails_at 2) (Some store_AB))
             store_AB eq_refl).
  - split; [reflexivity|].
    exact (proj1 (proj2 (proj2 (initialize_keeps_rows healthy None)) eq_refl)).
Defined.

(** X22.  A failure in [initialize_database] is printed and raised
    again, so that [main] ends there: the function returns only when
    its four calls worked, then prints its line of success; otherwise
    it raises the error of the call that failed, which was its last, and
    prints the error line only. *)
Theorem initialize_reraises (fails : nat -> bool) (file : option table) :
  let r := initialize_database fails file in
  match init_result r with
  | Returned v =>
      v = JNull
      ∧ init_made r = [(IConnect, true); (ICreate, true); (ICommit, true);
                       (IClose, true)]
      ∧ init_printed r = [Initialized]
  | Raised e =>
      e = OperationalError
      ∧ (∃ k, last (init_made r) = Some (k, false))
      ∧ count init_call_failed (init_made r) = 1
      ∧ init_printed r = [InitError e]
  end.
Proof.
  cbv zeta. unfold initialize_database. cbn [init_calls].
  destruct (fails 0), (fails 1), (fails 2), (fails 3);
    cbn; repeat split; eauto.
Qed.

(** ** The reader and the update together *)

Section Sync.
Context {T : Type} `{EqDecision T}.

(** X23.  A registry document without a list of areas empties the
    table: the initial sync reads it as the empty list, and the update
    made with it deletes every row that has a key. *)
Theorem registry_without_areas_empties (p : process (T:=T))
    (e e' : env (T:=T)) (data : json) :
  alive p = true -> pc p = 4 ->
  content e = Document data -> lacks_areas data = true ->
  db_fails e' = healthy ->
  let p' := exec [(MainThread, e); (MainThread, e')] p in
  database p' = (fun t => Table ∅ (null_rows t)) <$> database p
  ∧ alive p' = true
  ∧ history p' = history p ++ [SyncRead; SyncApplied].
Proof.
  intros Ha Hpc Hc Hl Hd. cbv zeta.
  assert (Hr : read_areas (content e) = Ok (JArr [])).
  { rewrite Hc. destruct data as [| | | | |kvs]; try discriminate.
    cbn in Hl |- *. destruct (dict_lookup kvs (py "data")) as [[| | | | |kvs']|];
      try discriminate; [|done].
    cbn. by destruct (dict_lookup kvs' (py "areas")). }
  assert (Hm : step p (MainThread, e) =
            Process 5 true (polling p) (updating p) (update_queue p) (JArr [])
              (database p) (history p ++ [SyncRead]))
    by (unfold step, main; cbn [fst snd]; by rewrite Ha, Hpc, Hr).
  change (exec [(MainThread, e); (MainThread, e')] p)
    with (step (step p (MainThread, e)) (MainThread, e')).
  rewrite Hm. unfold step, main. cbn [alive pc fst snd areas database history].
  rewrite Hd, <- app_assoc. split; [|done].
  destruct (database p) as [t|]; [|done]. cbn [fmap option_fmap option_map].
  rewrite (run_accepted [] t eq_refl).
  cbn [rows_written foldl keyed null_rows empty_table]. by rewrite app_nil_r.
Qed.

End Sync.


Lemma registry_without_areas_empties_witness :
  lacks_areas (JObj [(py "version", JInt 1)]) = true
  ∧ database (exec [(MainThread, bare_registry); (MainThread, registry_file)]
                before_sync)
    = Some (Table ∅ []).
Proof.
  split; [reflexivity|].
  exact (proj1 (registry_without_areas_empties before_sync bare_registry
                  registry_file (JObj [(py "version", JInt 1)])
                  eq_refl eq_refl eq_refl eq_refl eq_refl)).
Defined.

(** ** The list columns of every row *)

Lemma written_row_lists a k w :
  written_row a = Some (k, w) -> lists_stored w = true.
Proof.
  destruct a as [| | | | |kvs]; try discriminate. unfold written_row.
  destruct (dict_lookup kvs (py "id")) as [a_id|]; [|discriminate].
  destruct (dict_lookup kvs (py "name")) as [a_name|]; [|discriminate].
  cbn [mbind option_bind]. intros E.
  repeat (match type of E with
          | context [cell ?v] => destruct (cell v) as [?|]; [|discriminate]
          end; cbn [mbind option_bind] in E).
  match type of E with context [mbind _ ?o] => destruct o; [|discriminate] end.
  cbn in E. injection E as <- <-. unfold lists_stored. cbn [aliases labels].
  by rewrite !dumps_ascii.
Qed.

Lemma write_row_lists t a : lists_kept t -> lists_kept (write_row t a).
Proof.
  intros [Hk Hn]. unfold write_row.
  destruct (written_row a) as [[[i|] w]|] eqn:E; [| |done].
  - split; [|done]. cbn. apply map_Forall_insert_2; [|done].
    by eapply written_row_lists.
  - split; [done|]. cbn. apply Forall_app. split; [done|].
    constructor; [by eapply written_row_lists|constructor].
Qed.

Lemma rows_written_lists l : lists_kept (rows_written l).
Proof.
  unfold rows_written.
  assert (H : ∀ t, lists_kept t -> lists_kept (foldl write_row t l)).
  { induction l as [|a l IH]; intros t Ht; [done|].
    cbn [foldl]. by apply IH, write_row_lists. }
  apply H. split; [apply map_Forall_empty|constructor].
Qed.

(** A run on a value with an item that is refused, when no call fails. *)
Lemma reconcile_stops area_data t :
  match iter area_data with
  | Ok l => forallb accepted l = false
  | Raise _ => True
  end ->
  ∃ e c, reconcile healthy area_data (Conn t t [] []) = (Raise e, c)
         ∧ committed c = t.
Proof.
  intros Hl. unfold reconcile.
  bind_step. unfold connect, sql at 1, healthy at 1.
  cbn [working committed calls out length app].
  bind_step. unfold sql at 1, healthy at 1.
  cbn [working committed calls out length app].
  bind_step. unfold lift at 1.
  destruct (iter area_data) as [l|e]; [|by eauto].
  bind_step. unfold lift at 1.
  destruct (traverse _ l) as [ids|e]; [|by eauto].
  bind_step. rewrite foreach_delete. bind_step.
  match goal with |- context [foreach l (upsert healthy) ?c] =>
    pose proof (foreach_refused l c Hl) as Hr;
    pose proof (keeps_foreach l (upsert healthy) (keeps_upsert healthy) c) as Hk;
    destruct (foreach l (upsert healthy) c) as [[[]|e] c']
  end; [by exfalso; apply Hr|].
  exists e, c'. split; [reflexivity|exact Hk].
Qed.

(** Whatever fails, the database file ends as it was, or as the rows
    written for the items of [area_data] with the rows without a key
    that were there. *)
Lemma run_cases fails area_data t :
  let r := update_database_with_new_areas fails area_data t in
  db r = t
  ∨ ∃ l, iter area_data = Ok l ∧ forallb accepted l = true
         ∧ db r = Table (keyed (rows_written l))
                    (null_rows t ++ null_rows (rows_written l)).
Proof.
  cbv zeta.
  assert (Hh : ∀ r, r = update_database_with_new_areas healthy area_data t ->
            db r = t
            ∨ ∃ l, iter area_data = Ok l ∧ forallb accepted l = true
                   ∧ db r = Table (keyed (rows_written l))
                              (null_rows t ++ null_rows (rows_written l))).
  { intros r ->. unfold update_database_with_new_areas, try_except.
    destruct (iter area_data) as [l|e] eqn:Hi.
    - destruct (forallb accepted l) eqn:Hl.
      + right. exists l. split; [done|]. split; [done|].
        rewrite (reconcile_accepted area_data l t Hi Hl).
        cbn [fst snd committed db]. by apply accepted_table.
      + left. destruct (reconcile_stops area_data t) as (e & c & -> & Hc);
          [by rewrite Hi|]. exact Hc.
    - left. destruct (reconcile_stops area_data t) as (e' & c & -> & Hc);
        [by rewrite Hi|]. exact Hc. }
  pose proof (whole_reconcile fails area_data (Conn t t [] [])) as Hw.
  specialize (Hh _ eq_refl).
  unfold update_database_with_new_areas, try_except in *.
  destruct (reconcile fails area_data (Conn t t [] [])) as [[[]|e] c];
    destruct (reconcile healthy area_data (Conn t t [] [])) as [[[]|e'] c'];
    cbn [db committed fst snd print] in *;
    (destruct Hw as [Hw|Hw]; [by left|rewrite Hw; exact Hh]).
Qed.

(** X24.  Every run keeps the two list columns in order: if every row
    of the table holds its aliases and its labels as a text in plain
    ASCII, never NULL, then so does every row after the run, whatever
    the data and whichever call fails. *)
Theorem lists_stay_stored (fails : nat -> bool) (area_data : json) (t : table) :
  lists_kept t ->
  lists_kept (db (update_database_with_new_areas fails area_data t)).
Proof.
  intros Ht. destruct (run_cases fails area_data t) as [->|(l & _ & _ & ->)];
    [exact Ht|].
  destruct (rows_written_lists l) as [Hk Hn]. destruct Ht as [_ Hn'].
  split; [exact Hk|]. cbn. apply Forall_app. by split.
Qed.

Lemma lists_stay_stored_witness :
  lists_kept (db (update_database_with_new_areas (fails_at 5)
                    (JArr [kitchen; stray]) store_AB_stray)).
Proof.
  apply lists_stay_stored. split.
  - apply map_Forall_to_list. apply (bool_decide_unpack _). vm_compute. exact I.
  - repeat constructor.
Defined.
